(** * GeoData: a shallow embedding of [GeoData/GeoData.py]

    The development follows the Python module top to bottom: the numeric
    and array model that stands for NumPy, the exception / warning monads,
    [timerepair], the [GeoData] record with its constructor, then the
    methods [timeregister], [add_times], [__eq__] and [interpolate].

    Numbers.  Array elements are IEEE doubles in the source.  They are
    idealised here as [NaN] or an exact rational: rounding and the two
    infinities are abstracted away, not-a-number is kept because the
    masking logic of the module is about it.

    Dtypes.  The arrays a [GeoData] holds are float64.  [timerepair] alone
    writes a computed float back into its input array, so it is modelled
    with the dtype of that array: an integer array holds integers, and
    a float stored into it is truncated. *)

From Stdlib Require Import String Ascii.
From Stdlib Require Import List Bool Arith ZArith QArith Lqa Lia.
From Stdlib Require Import Permutation Sorted.
Import ListNotations.
Local Open Scope string_scope.
Local Open Scope list_scope.

Local Open Scope nat_scope.

(* ------------------------------------------------------------------ *)
(** ** Numbers *)

Inductive fnum : Type :=
| NaN
| Fin (q : Q).

Definition isnan (x : fnum) : bool :=
  match x with NaN => true | Fin _ => false end.

(** [np.isfinite]: without infinities in the model, finite means not NaN. *)
Definition isfinite (x : fnum) : bool := negb (isnan x).

Definition fadd (a b : fnum) : fnum :=
  match a, b with
  | Fin x, Fin y => Fin (x + y)
  | _, _ => NaN
  end.

Definition fsub (a b : fnum) : fnum :=
  match a, b with
  | Fin x, Fin y => Fin (x - y)
  | _, _ => NaN
  end.

(** Division of a float by an element count; [0.0 / 0] is not-a-number
    (the only way a zero count arises below is the mean of an empty array,
    whose sum is [0.0]). *)
Definition fdiv_count (a : fnum) (n : nat) : fnum :=
  match a, n with
  | Fin x, S _ => Fin (x / inject_Z (Z.of_nat n))
  | _, _ => NaN
  end.

(** Comparisons are the IEEE ones: anything compared with NaN is false. *)
Definition flt (a b : fnum) : bool :=
  match a, b with
  | Fin x, Fin y => match (x ?= y)%Q with Lt => true | _ => false end
  | _, _ => false
  end.

Definition fgt (a b : fnum) : bool := flt b a.


Definition feq (a b : fnum) : bool :=
  match a, b with
  | Fin x, Fin y => Qeq_bool x y
  | _, _ => false
  end.

Definition fsum (l : list fnum) : fnum := fold_left fadd l (Fin 0).

(** [ndarray.mean()] of a 1-D array. *)
Definition mean (l : list fnum) : fnum := fdiv_count (fsum l) (length l).

(** [np.diff] of a 1-D array: [out[i] = a[i+1] - a[i]]. *)
Fixpoint diff (l : list fnum) : list fnum :=
  match l with
  | x :: ((y :: _) as tl) => fsub y x :: diff tl
  | _ => []
  end.

(** [np.roll(a, shift)] of a 1-D array: [out[(i + shift) mod n] = a[i]]. *)
Definition roll {A : Type} (l : list A) (shift : Z) : list A :=
  match l with
  | [] => []
  | _ =>
      let k := Z.to_nat ((- shift) mod Z.of_nat (length l)) in
      skipn k l ++ firstn k l
  end.

(* ------------------------------------------------------------------ *)
(** ** Arrays

    The arrays the module handles have rank 1, 2 or 3.  A rank-2 array
    carries its column count so that shape [(0, k)] is representable;
    a rank-3 array is a stack of [d1 x d2] frames. *)

Inductive ndarray : Type :=
| Arr1 (xs : list fnum)
| Arr2 (ncols : nat) (rows : list (list fnum))
| Arr3 (d1 d2 : nat) (frames : list (list (list fnum))).

Definition ndim (a : ndarray) : nat :=
  match a with Arr1 _ => 1 | Arr2 _ _ => 2 | Arr3 _ _ _ => 3 end.

(** [a.shape[0]] *)
Definition shape0 (a : ndarray) : nat :=
  match a with
  | Arr1 xs => length xs
  | Arr2 _ rows => length rows
  | Arr3 _ _ frames => length frames
  end.

Definition ravel (a : ndarray) : list fnum :=
  match a with
  | Arr1 xs => xs
  | Arr2 _ rows => concat rows
  | Arr3 _ _ frames => concat (map (@concat fnum) frames)
  end.

(* ------------------------------------------------------------------ *)
(** ** Exceptions, warnings and the two monads *)

Inductive exn : Type :=
| AssertionError (msg : string)
| ValueError (msg : string)
| IndexError (msg : string)
| KeyError (key : string)
| TypeError (msg : string)
| Unmodelled (what : string).   (* a library corner this embedding leaves out *)

Inductive result (A : Type) : Type :=
| Ok (a : A)
| Raise (e : exn).
Arguments Ok {A} a.
Arguments Raise {A} e.

(** What [logging.warning] is called with.  The text of the second message
    is ['No {} data available at {}'] formatted with the field name and the
    date [datetime.fromtimestamp] makes of the start time of the step; the
    warning carries that date, as the POSIX time it stands for. *)
Inductive warning : Type :=
| WarnTimearSize1
| WarnNoData (iparam : string) (tim0 : fnum).

(** Functions that may raise and may log. *)
Definition W (A : Type) : Type := (result A * list warning)%type.

Definition retW {A} (a : A) : W A := (Ok a, []).
Definition raiseW {A} (e : exn) : W A := (Raise e, []).
Definition warnW (w : warning) : W unit := (Ok tt, [w]).
Definition liftR {A} (r : result A) : W A := (r, []).

Definition bindW {A B} (c : W A) (k : A -> W B) : W B :=
  match c with
  | (Ok a, l1) => let '(r, l2) := k a in (r, l1 ++ l2)
  | (Raise e, l1) => (Raise e, l1)
  end.

Declare Scope w_scope.
Delimit Scope w_scope with W.
Notation "x <- c ;; k" := (bindW c (fun x => k))
  (at level 61, c at next level, right associativity) : w_scope.
Notation "c ;;; k" := (bindW c (fun _ => k))
  (at level 61, right associativity) : w_scope.

Fixpoint mapW {A B} (f : A -> W B) (l : list A) : W (list B) :=
  match l with
  | [] => retW []
  | x :: l' => (y <- f x ;; ys <- mapW f l' ;; retW (y :: ys))%W
  end.

(** Python indexing of a sequence with a possibly negative index. *)
Definition py_norm (n : nat) (i : Z) : option nat :=
  let j := if (i <? 0)%Z then (Z.of_nat n + i)%Z else i in
  if ((0 <=? j) && (j <? Z.of_nat n))%Z then Some (Z.to_nat j) else None.

Definition py_index {A} (l : list A) (i : Z) : result A :=
  match py_norm (length l) i with
  | Some j =>
      match nth_error l j with
      | Some x => Ok x
      | None => Raise (IndexError "index out of bounds")
      end
  | None => Raise (IndexError "index out of bounds")
  end.

Fixpoint set_nth {A} (l : list A) (j : nat) (v : A) : list A :=
  match l, j with
  | [], _ => []
  | _ :: tl, O => v :: tl
  | x :: tl, S j' => x :: set_nth tl j' v
  end.

Definition py_setitem {A} (l : list A) (i : Z) (v : A) : result (list A) :=
  match py_norm (length l) i with
  | Some j => Ok (set_nth l j v)
  | None => Raise (IndexError "index out of bounds")
  end.

(** [np.column_stack((a, b))] of two 1-D arrays. *)
Fixpoint zip_rows (a b : list fnum) : list (list fnum) :=
  match a, b with
  | x :: a', y :: b' => [x; y] :: zip_rows a' b'
  | _, _ => []
  end.

Definition column_stack (a b : list fnum) : result ndarray :=
  if length a =? length b then Ok (Arr2 2 (zip_rows a b))
  else Raise (ValueError "all the input array dimensions must match").

(* ------------------------------------------------------------------ *)
(** ** [timerepair]

    [timear2 = np.roll(timear, -1)] has the dtype of the input, and
    [timear2[-1] = timear2[-2] + avdiff] stores a float into it: NumPy
    casts the value to the dtype of the array, which for an integer array
    drops the fraction (truncation toward zero).  An integer array holds no
    not-a-number; sums of integers are taken as exact (no wrap-around at
    the 64-bit limit). *)

Inductive dtype : Type :=
| Float64
| Int64.

(** [int(x)] for a float [x]: truncation toward zero. *)
Definition trunc (x : fnum) : fnum :=
  match x with
  | NaN => NaN
  | Fin q => Fin (inject_Z (Z.quot (Qnum q) (Zpos (Qden q))))
  end.

(** The value an array of dtype [dt] holds after [a[i] = x]. *)
Definition astype (dt : dtype) (x : fnum) : fnum :=
  match dt with
  | Float64 => x
  | Int64 => trunc x
  end.

Definition timerepair_flat (dt : dtype) (timear : list fnum) : W ndarray :=
  (match timear with
   | [t0] =>
       warnW WarnTimearSize1 ;;;
       retW (Arr2 2 [[t0; fadd t0 (Fin 60)]])
   | _ =>
       let avdiff := mean (diff timear) in
       let timear2 := roll timear (-1) in
       x <- liftR (py_index timear2 (-2)) ;;
       timear2' <- liftR (py_setitem timear2 (-1) (astype dt (fadd x avdiff))) ;;
       liftR (column_stack timear timear2')
   end)%W.

(** [timerepair(timear)] for an array [timear] of dtype [dt]. *)
Definition timerepair (dt : dtype) (timear : ndarray) : W ndarray :=
  match timear with
  | Arr2 2 _ => retW timear
  | Arr2 _ _ => timerepair_flat dt (ravel timear)
  | Arr1 xs => timerepair_flat dt xs
  | Arr3 _ _ _ => raiseW (Unmodelled "timerepair of a rank-3 array")
  end.

(* ------------------------------------------------------------------ *)
(** ** Pure fallible helpers (NumPy indexing and stacking) *)

Definition bindR {A B} (c : result A) (k : A -> result B) : result B :=
  match c with
  | Ok a => k a
  | Raise e => Raise e
  end.

Declare Scope r_scope.
Delimit Scope r_scope with R.
Notation "x <- c ;; k" := (bindR c (fun x => k))
  (at level 61, c at next level, right associativity) : r_scope.

Fixpoint mapR {A B} (f : A -> result B) (l : list A) : result (list B) :=
  match l with
  | [] => Ok []
  | x :: l' =>
      (y <- f x ;; ys <- mapR f l' ;; Ok (y :: ys))%R
  end.

Definition shape (a : ndarray) : list nat :=
  match a with
  | Arr1 xs => [length xs]
  | Arr2 c rows => [length rows; c]
  | Arr3 d1 d2 frames => [length frames; d1; d2]
  end.

(** [a[:, j]] where the result is a 1-D array. *)
Definition column (j : nat) (a : ndarray) : result (list fnum) :=
  match a with
  | Arr1 _ => Raise (IndexError "too many indices for array")
  | Arr2 c rows =>
      if j <? c then Ok (map (fun r => nth j r NaN) rows)
      else Raise (IndexError "index out of bounds")
  | Arr3 _ _ _ => Raise (Unmodelled "a[:, j] of a rank-3 array")
  end.

(** [np.argwhere(bs)] for a 1-D boolean array, read as the list of the
    indices [list[i][0]]. *)
Fixpoint argwhere_from (i : nat) (bs : list bool) : list nat :=
  match bs with
  | [] => []
  | b :: bs' => (if b then [i] else []) ++ argwhere_from (S i) bs'
  end.

Definition argwhere (bs : list bool) : list nat := argwhere_from 0 bs.

(** [np.arange(lo, hi)] on naturals. *)
Definition arange (lo hi : nat) : list nat := seq lo (hi - lo).

(** [np.vstack((a, b))]: 1-D operands are first promoted to one row. *)
Definition atleast_2d (a : ndarray) : ndarray :=
  match a with
  | Arr1 xs => Arr2 (length xs) [xs]
  | _ => a
  end.

Definition vstack (a b : ndarray) : result ndarray :=
  match atleast_2d a, atleast_2d b with
  | Arr2 c1 r1, Arr2 c2 r2 =>
      if c1 =? c2 then Ok (Arr2 c1 (r1 ++ r2))
      else Raise (ValueError "all the input array dimensions must match")
  | Arr3 d1 d2 f1, Arr3 e1 e2 f2 =>
      if (d1 =? e1) && (d2 =? e2) then Ok (Arr3 d1 d2 (f1 ++ f2))
      else Raise (ValueError "all the input array dimensions must match")
  | _, _ => Raise (ValueError "all the input arrays must have same number of dimensions")
  end.

Fixpoint zip_app {A} (a b : list (list A)) : list (list A) :=
  match a, b with
  | x :: a', y :: b' => (x ++ y) :: zip_app a' b'
  | _, _ => []
  end.

(** [np.hstack((a, b))]: along axis 0 for rank 1, along axis 1 otherwise. *)
Definition hstack (a b : ndarray) : result ndarray :=
  match a, b with
  | Arr1 xs, Arr1 ys => Ok (Arr1 (xs ++ ys))
  | Arr2 c1 r1, Arr2 c2 r2 =>
      if length r1 =? length r2 then Ok (Arr2 (c1 + c2) (zip_app r1 r2))
      else Raise (ValueError "all the input array dimensions must match")
  | Arr3 d1 d2 f1, Arr3 e1 e2 f2 =>
      if (length f1 =? length f2) && (d2 =? e2)
      then Ok (Arr3 (d1 + e1) d2 (zip_app f1 f2))
      else Raise (ValueError "all the input array dimensions must match")
  | _, _ => Raise (ValueError "all the input arrays must have same number of dimensions")
  end.

Definition take {A} (l : list A) (idx : list nat) : result (list A) :=
  mapR (fun i => match nth_error l i with
                 | Some x => Ok x
                 | None => Raise (IndexError "index out of bounds")
                 end) idx.

(** [a[idx]] with an integer index array: selection along axis 0. *)
Definition take_rows (a : ndarray) (idx : list nat) : result ndarray :=
  (match a with
   | Arr1 xs => v <- take xs idx ;; Ok (Arr1 v)
   | Arr2 c rows => v <- take rows idx ;; Ok (Arr2 c v)
   | Arr3 d1 d2 frames => v <- take frames idx ;; Ok (Arr3 d1 d2 v)
   end)%R.

(** [a[:, idx]] with an integer index array: selection along axis 1. *)
Definition take_cols (a : ndarray) (idx : list nat) : result ndarray :=
  (match a with
   | Arr1 _ => Raise (IndexError "too many indices for array")
   | Arr2 c rows =>
       v <- mapR (fun r => take r idx) rows ;; Ok (Arr2 (length idx) v)
   | Arr3 d1 d2 frames =>
       v <- mapR (fun f => take f idx) frames ;; Ok (Arr3 (length idx) d2 v)
   end)%R.

(** Selection with a boolean mask; the mask must be as long as the axis. *)
Fixpoint compress {A} (mask : list bool) (l : list A) : list A :=
  match mask, l with
  | m :: mask', x :: l' => if m then x :: compress mask' l' else compress mask' l'
  | _, _ => []
  end.

Definition bool_index {A} (l : list A) (mask : list bool) : result (list A) :=
  if length mask =? length l then Ok (compress mask l)
  else Raise (IndexError "boolean index did not match indexed array").

(** [a[mask]]: boolean selection along axis 0. *)
Definition bool_index0 (a : ndarray) (mask : list bool) : result ndarray :=
  (match a with
   | Arr1 xs => v <- bool_index xs mask ;; Ok (Arr1 v)
   | Arr2 c rows => v <- bool_index rows mask ;; Ok (Arr2 c v)
   | Arr3 d1 d2 frames => v <- bool_index frames mask ;; Ok (Arr3 d1 d2 v)
   end)%R.

(** [a[mask, :]]: the same, but the explicit second axis rejects rank 1. *)
Definition bool_index_rows (a : ndarray) (mask : list bool) : result ndarray :=
  match a with
  | Arr1 _ => Raise (IndexError "too many indices for array")
  | _ => bool_index0 a mask
  end.

(** [a[:, mask]]: boolean selection along axis 1 of a rank-2 array. *)
Definition bool_index_cols (a : ndarray) (mask : list bool) : result ndarray :=
  match a with
  | Arr1 _ => Raise (IndexError "too many indices for array")
  | Arr2 c rows =>
      if length mask =? c
      then Ok (Arr2 (length (filter id mask)) (map (compress mask) rows))
      else Raise (IndexError "boolean index did not match indexed array")
  | Arr3 _ _ _ => Raise (Unmodelled "a[:, mask] of a rank-3 array")
  end.

(** ** Sorting: [np.argsort]

    NumPy orders floats with NaN last.  The default kind is an introsort
    that finishes small partitions (at most 16 elements) by insertion,
    which leaves tied keys in index order; that is what is modelled.  The
    general results below that depend on the order of ties assume distinct
    keys. *)
Definition np_lt (a b : fnum) : bool :=
  flt a b || (isnan b && negb (isnan a)).

Fixpoint insert_by {B} (x : fnum * B) (l : list (fnum * B)) : list (fnum * B) :=
  match l with
  | [] => [x]
  | y :: l' =>
      if np_lt (fst y) (fst x) then y :: insert_by x l' else x :: y :: l'
  end.

Fixpoint isort_by {B} (l : list (fnum * B)) : list (fnum * B) :=
  match l with
  | [] => []
  | x :: l' => insert_by x (isort_by l')
  end.

Definition argsort (keys : list fnum) : list nat :=
  map snd (isort_by (combine keys (seq 0 (length keys)))).

(** ** Masked arrays: [np.ma.array(a, mask=np.isnan(a))] and [np.ma.allequal] *)

Record masked : Type := mkMasked { ma_data : ndarray; ma_mask : list bool }.

Definition ma_array (a : ndarray) : masked :=
  mkMasked a (map isnan (ravel a)).

Fixpoint map2 {A B C} (f : A -> B -> C) (a : list A) (b : list B) : list C :=
  match a, b with
  | x :: a', y :: b' => f x y :: map2 f a' b'
  | _, _ => []
  end.

Definition mask_or (m1 m2 : list bool) : list bool := map2 orb m1 m2.

(** [dm.filled(True)]: masked positions read as [True]. *)
Definition filled_true (d m : list bool) : list bool :=
  map2 (fun (v mk : bool) => if mk then true else v) d m.

Fixpoint list_nat_eqb (a b : list nat) : bool :=
  match a, b with
  | [], [] => true
  | x :: a', y :: b' => (x =? y) && list_nat_eqb a' b'
  | _, _ => false
  end.

(** [np.ma.allequal(a, b)] with the default [fill_value=True].  Operands of
    different shapes would go through broadcasting, which is left out. *)
Definition allequal (a b : masked) : result bool :=
  if list_nat_eqb (shape (ma_data a)) (shape (ma_data b)) then
    let m := mask_or (ma_mask a) (ma_mask b) in
    let d := map2 feq (ravel (ma_data a)) (ravel (ma_data b)) in
    Ok (forallb id (filled_true d m))
  else Raise (Unmodelled "broadcasting of arrays of different shapes").

(* ------------------------------------------------------------------ *)
(** ** The [GeoData] object

    [data] is a Python dict: an association list with unique keys in
    insertion order, which is the order [keys()] iterates in. *)

Definition dict : Type := list (string * ndarray).

Definition keys (d : dict) : list string := map fst d.

Fixpoint dict_get (k : string) (d : dict) : option ndarray :=
  match d with
  | [] => None
  | (k', v) :: d' => if String.eqb k k' then Some v else dict_get k d'
  end.

(** [d[k] = v]: replaces in place when the key exists, appends otherwise. *)
Fixpoint dict_set (k : string) (v : ndarray) (d : dict) : dict :=
  match d with
  | [] => [(k, v)]
  | (k', v') :: d' =>
      if String.eqb k k' then (k, v) :: d' else (k', v') :: dict_set k v d'
  end.

Definition mem_key (k : string) (ks : list string) : bool :=
  existsb (String.eqb k) ks.

(** [set(ks1) == set(ks2)] *)
Definition key_set_eqb (ks1 ks2 : list string) : bool :=
  forallb (fun k => mem_key k ks2) ks1 && forallb (fun k => mem_key k ks1) ks2.

Record GeoData : Type := mkGeoData {
  data : dict;
  coordnames : string;
  dataloc : ndarray;
  sensorloc : ndarray;
  times : ndarray;
  expdesc : string
}.

Definition with_data (d : dict) (g : GeoData) : GeoData :=
  mkGeoData d (coordnames g) (dataloc g) (sensorloc g) (times g) (expdesc g).
Definition with_coordnames (c : string) (g : GeoData) : GeoData :=
  mkGeoData (data g) c (dataloc g) (sensorloc g) (times g) (expdesc g).
Definition with_dataloc (a : ndarray) (g : GeoData) : GeoData :=
  mkGeoData (data g) (coordnames g) a (sensorloc g) (times g) (expdesc g).
Definition with_times (a : ndarray) (g : GeoData) : GeoData :=
  mkGeoData (data g) (coordnames g) (dataloc g) (sensorloc g) a (expdesc g).

(** Methods that mutate [self]: a state monad over the object that also
    raises and logs.  The state that comes back with a [Raise] is the
    object as the exception left it. *)
Definition M (A : Type) : Type :=
  GeoData -> (result A * GeoData * list warning)%type.

Definition retM {A} (a : A) : M A := fun s => (Ok a, s, []).
Definition raiseM {A} (e : exn) : M A := fun s => (Raise e, s, []).
Definition getM : M GeoData := fun s => (Ok s, s, []).
Definition modifyM (f : GeoData -> GeoData) : M unit := fun s => (Ok tt, f s, []).
Definition liftM {A} (c : W A) : M A := fun s => (fst c, s, snd c).
Definition liftRM {A} (r : result A) : M A := fun s => (r, s, []).

Definition bindM {A B} (c : M A) (k : A -> M B) : M B :=
  fun s =>
    match c s with
    | (Ok a, s1, l1) => let '(r, s2, l2) := k a s1 in (r, s2, l1 ++ l2)
    | (Raise e, s1, l1) => (Raise e, s1, l1)
    end.

Declare Scope m_scope.
Delimit Scope m_scope with M.
Notation "x <- c ;; k" := (bindM c (fun x => k))
  (at level 61, c at next level, right associativity) : m_scope.
Notation "c ;;; k" := (bindM c (fun _ => k))
  (at level 61, right associativity) : m_scope.

(** [assert cond, msg] *)
Definition assertM (cond : bool) (msg : string) : M unit :=
  if cond then retM tt else raiseM (AssertionError msg).

Fixpoint forM_ {A} (l : list A) (body : A -> M unit) : M unit :=
  match l with
  | [] => retM tt
  | x :: l' => (body x ;;; forM_ l' body)%M
  end.

(** [self.data[k]] *)
Definition lookup (k : string) (d : dict) : result ndarray :=
  match dict_get k d with
  | Some v => Ok v
  | None => Raise (KeyError k)
  end.

(** [GeoData.__init__]: both branches bind the same six-tuple (directly, or
    from the call of [readmethod] on the inputs); the [isinstance] assertions hold by
    typing here; the last statement normalises the time array, a float64
    array like every array of the object. *)
Definition __init__
  (inputs : dict * string * ndarray * ndarray * ndarray * string) : W GeoData :=
  let '(d, cn, dl, sl, t, e) := inputs in
  (t' <- timerepair Float64 t ;; retW (mkGeoData d cn dl sl t' e))%W.

(* ------------------------------------------------------------------ *)
(** ** [timeregister] *)

Definition timeregister_row (times2 : ndarray) (l : list fnum)
  : result (list nat) :=
  (l0 <- py_index l 0 ;;
   c0 <- column 0 times2 ;;
   let list1 := argwhere (map (fun t => fgt l0 t) c0) in
   l1 <- py_index l 1 ;;
   c1 <- column 1 times2 ;;
   let list2 := argwhere (map (fun t => flt l1 t) c1) in
   if (length list1 =? 0) || (length list2 =? 0) then Ok []
   else
     ind1 <- py_index list1 (-1) ;;
     ind2 <- py_index list2 0 ;;
     Ok (arange ind1 (ind2 + 1)))%R.

Definition timeregister (self self2 : GeoData) : W (list (list nat)) :=
  (times1 <- timerepair Float64 (times self) ;;
   times2 <- timerepair Float64 (times self2) ;;
   match times1 with
   | Arr2 _ rows1 => liftR (mapR (timeregister_row times2) rows1)
   | _ => raiseW (IndexError "too many indices for array")
   end)%W.

(* ------------------------------------------------------------------ *)
(** ** [add_times] *)

Definition add_times_field (self2 : GeoData) (s_ind : list nat)
  (ikey : string) : M unit :=
  (self <- getM ;;
   a <- liftRM (lookup ikey (data self)) ;;
   b <- liftRM (lookup ikey (data self2)) ;;
   outarr <- liftRM (hstack a b) ;;
   v <- liftRM (take_cols outarr s_ind) ;;
   modifyM (fun g => with_data (dict_set ikey v (data g)) g))%M.

Definition add_times (self2 : GeoData) : M unit :=
  (self <- getM ;;
   let datakeys := keys (data self) in
   assertM (key_set_eqb datakeys (keys (data self2)))
           "Data must have the same names." ;;;
   assertM (String.eqb (coordnames self) (coordnames self2))
           "Must be same coordinate same." ;;;
   e1 <- liftRM (allequal (ma_array (dataloc self)) (ma_array (dataloc self2))) ;;
   assertM e1 "Location points must be the same" ;;;
   e2 <- liftRM (allequal (ma_array (sensorloc self))
                          (ma_array (sensorloc self2))) ;;
   assertM e2 "Sensor Locations must be the same" ;;;
   t1 <- liftM (timerepair Float64 (times self)) ;;
   t2 <- liftM (timerepair Float64 (times self2)) ;;
   alltimes <- liftRM (vstack t1 t2) ;;
   c0 <- liftRM (column 0 alltimes) ;;
   let s_ind := argsort c0 in
   newtimes <- liftRM (take_rows alltimes s_ind) ;;
   modifyM (with_times newtimes) ;;;
   forM_ datakeys (add_times_field self2 s_ind))%M.

(* ------------------------------------------------------------------ *)
(** ** [__eq__] *)

Fixpoint eq_fields (ks : list string) (d1 d2 : dict) : result bool :=
  match ks with
  | [] => Ok true
  | ikey :: ks' =>
      (a <- lookup ikey d1 ;;
       b <- lookup ikey d2 ;;
       e <- allequal (ma_array a) (ma_array b) ;;
       if negb e then Ok false else eq_fields ks' d1 d2)%R
  end.

Definition __eq__ (self self2 : GeoData) : result bool :=
  let datakeys := keys (data self) in
  if negb (key_set_eqb datakeys (keys (data self2))) then Ok false
  else
    (r <- eq_fields datakeys (data self) (data self2) ;;
     if negb r then Ok false
     else if negb (String.eqb (coordnames self) (coordnames self2)) then Ok false
     else
       e1 <- allequal (ma_array (dataloc self)) (ma_array (dataloc self2)) ;;
       if negb e1 then Ok false
       else
         e2 <- allequal (ma_array (sensorloc self)) (ma_array (sensorloc self2)) ;;
         if negb e2 then Ok false
         else
           e3 <- allequal (ma_array (times self)) (ma_array (times self2)) ;;
           if negb e3 then Ok false else Ok true)%R.

(* ------------------------------------------------------------------ *)
(** ** [interpolate]

    The scattered-data routine [scipy.interpolate.griddata] and the two
    conversions of [CoordTransforms] are outside this module: they are an
    interface here, and every statement about [interpolate] holds for any
    implementation of it.  Fields are NumPy arrays; the branch of the loop
    for pandas data frames is not modelled. *)

Class Externals : Type := {
  griddata : ndarray -> list fnum -> ndarray -> string -> fnum
             -> result (list fnum);
  sphereical2Cartisian : ndarray -> result ndarray;
  cartisian2Sphereical : ndarray -> result ndarray
}.

(** [str.lower] on ASCII letters. *)
Definition lower_ascii (c : ascii) : ascii :=
  let n := nat_of_ascii c in
  if (65 <=? n) && (n <=? 90) then ascii_of_nat (n + 32) else c.

Fixpoint lower (s : string) : string :=
  match s with
  | EmptyString => EmptyString
  | String c s' => String (lower_ascii c) (lower s')
  end.

(** The [beammask] argument: the default scalar [True], or a boolean array. *)
Inductive beammask_t : Type :=
| MaskScalar (b : bool)
| MaskArray (bs : list bool).

(** [np.isfinite(curparam) & beammask], with 1-D broadcasting. *)
Definition mask_and (fin : list bool) (bm : beammask_t) : result (list bool) :=
  match bm with
  | MaskScalar b => Ok (map (fun x => x && b) fin)
  | MaskArray bs =>
      if length bs =? length fin then Ok (map2 andb fin bs)
      else if length bs =? 1 then Ok (map (fun x => x && nth 0 bs false) fin)
      else if length fin =? 1 then Ok (map (fun b => nth 0 fin false && b) bs)
      else Raise (ValueError "operands could not be broadcast together")
  end.

(** [New_param[:, itime] = intparam] for an array right-hand side. *)
Definition assign_column (NNlocs : nat) (v : list fnum) : result (list fnum) :=
  if length v =? NNlocs then Ok v
  else if length v =? 1 then Ok (repeat (nth 0 v NaN) NNlocs)
  else Raise (ValueError "could not broadcast input array").

(** The [(NNlocs, Nt)] array whose columns were all assigned. *)
Definition from_columns (NNlocs : nat) (cols : list (list fnum)) : ndarray :=
  Arr2 (length cols)
       (map (fun i => map (fun c => nth i c NaN) cols) (seq 0 NNlocs)).

(** What [tim[0]] gives for each [tim] of [enumerate(self.times)]. *)
Definition time_starts (t : ndarray) : list (result fnum) :=
  match t with
  | Arr1 xs =>
      map (fun _ => Raise (IndexError "invalid index to scalar variable")) xs
  | Arr2 _ rows => map (fun r => py_index r 0) rows
  | Arr3 _ _ frames => map (fun _ => Raise (TypeError "a float is required")) frames
  end.

(** The sample vector of a field at one time step (full-field path). *)
Definition field_at (arr : ndarray) (itime : nat) : result (list fnum) :=
  match arr with
  | Arr2 _ _ => column itime arr
  | Arr3 _ _ frames =>
      match nth_error frames itime with
      | Some f => Ok (concat f)
      | None => Raise (IndexError "index out of bounds")
      end
  | Arr1 _ => Raise (ValueError "incorrect data matrix shape")
  end.

(** The masking step: what is left of the samples and of the source
    locations.  The field named ['optical'] bypasses it. *)
Definition mask_step (iparam : string) (curparam : list fnum)
  (curcoords : ndarray) (beammask : beammask_t)
  : result (list fnum * ndarray) :=
  if negb (String.eqb iparam "optical") then
    (dfmask <- mask_and (map isfinite curparam) beammask ;;
     cp <- bool_index curparam dfmask ;;
     coordkeep <- bool_index_rows curcoords dfmask ;;
     Ok (cp, coordkeep))%R
  else Ok (curparam, curcoords).

(** [datetime.fromtimestamp(t, tz=UTC)].  A [datetime] holds the years 1
    to 9999: the call raises ValueError on not-a-number, and raises on a
    time outside those years (ValueError, OverflowError or OSError, by
    magnitude and platform; the bounds are those of a POSIX platform).  The
    date is represented by the time it was made from. *)
Definition min_timestamp : Q := inject_Z (-62135596800).
Definition max_timestamp : Q := inject_Z 253402300800.

Definition fromtimestamp (t : fnum) : result fnum :=
  match t with
  | NaN => Raise (ValueError "Invalid value NaN (not a number)")
  | Fin q =>
      if Qle_bool min_timestamp q && negb (Qle_bool max_timestamp q)
      then Ok (Fin q)
      else Raise (Unmodelled "timestamp out of range for datetime")
  end.

Definition interp_step `{Externals} (iparam : string)
  (arr curcoords new_coords : ndarray) (method : string) (fill_value : fnum)
  (beammask : beammask_t) (NNlocs : nat)
  (step : nat * result fnum) : W (list fnum) :=
  let '(itime, tim0) := step in
  (curparam <- liftR (field_at arr itime) ;;
   kept <- liftR (mask_step iparam curparam curcoords beammask) ;;
   let '(curparam', coordkeep) := kept in
   if 0 <? shape0 coordkeep then
     intparam <- liftR (griddata coordkeep curparam' new_coords method fill_value) ;;
     liftR (assign_column NNlocs intparam)
   else
     t0 <- liftR tim0 ;;
     date <- liftR (fromtimestamp t0) ;;
     warnW (WarnNoData iparam date) ;;;
     retW (repeat NaN NNlocs))%W.

(** [enumerate(self.times)], each step with what [tim[0]] gives. *)
Definition time_steps (t : ndarray) : list (nat * result fnum) :=
  combine (seq 0 (shape0 t)) (time_starts t).

Definition interp_field `{Externals} (curcoords new_coords : ndarray)
  (method : string) (fill_value : fnum) (beammask : beammask_t)
  (NNlocs : nat) (iparam : string) : M unit :=
  (self <- getM ;;
   arr <- liftRM (lookup iparam (data self)) ;;
   cols <- liftM (mapW (interp_step iparam arr curcoords new_coords method
                                    fill_value beammask NNlocs)
                       (time_steps (times self))) ;;
   modifyM (fun g => with_data (dict_set iparam (from_columns NNlocs cols) (data g)) g))%M.

(** One time step of the single-field path. *)
Definition interp_single_step `{Externals} (arr curcoords new_coords : ndarray)
  (method : string) (fill_value : fnum) (NNlocs : nat) (itime : nat)
  : W (list fnum) :=
  (curparam <- liftR (match arr with
                      | Arr2 _ _ => column itime arr
                      | Arr1 _ => Raise (IndexError "too many indices for array")
                      | Arr3 _ _ _ =>
                          Raise (Unmodelled "single-field path on a rank-3 field")
                      end) ;;
   let datakeep := map (fun x => negb (isnan x)) curparam in
   cp <- liftR (bool_index curparam datakeep) ;;
   coordkeep <- liftR (bool_index0 curcoords datakeep) ;;
   intparam <- liftR (griddata coordkeep cp new_coords method fill_value) ;;
   liftR (assign_column NNlocs intparam))%W.

Definition __changecoords__ `{Externals} (newcoordname : string) : M ndarray :=
  (self <- getM ;;
   if String.eqb (lower (coordnames self)) "spherical"
      && String.eqb (lower newcoordname) "cartesian"
   then liftRM (sphereical2Cartisian (dataloc self))
   else if String.eqb (lower (coordnames self)) "cartesian"
           && String.eqb (lower newcoordname) "spherical"
   then liftRM (cartisian2Sphereical (dataloc self))
   else if String.eqb (lower (coordnames self)) (lower newcoordname)
   then retM (dataloc self)
   else raiseM (ValueError "Wrong inputs for coordnate names was given."))%M.

(** The [twodinterp] block: one entry of [keepaxis]. *)
Definition keepaxis_at (new_coords curcoords : ndarray)
  (firstel firstelold : list fnum) (k : nat) : result bool :=
  (curax <- column k new_coords ;;
   curaxold <- column k curcoords ;;
   fk <- py_index firstel (Z.of_nat k) ;;
   if forallb (fun x => feq x fk) curax then Ok false
   else
     fok <- py_index firstelold (Z.of_nat k) ;;
     Ok (negb (forallb (fun x => feq x fok) curaxold)))%R.

Definition twod_reduce (new_coords curcoords : ndarray)
  : result (ndarray * ndarray) :=
  (match new_coords, curcoords with
   | Arr2 _ rn, Arr2 _ ro =>
       firstel <- py_index rn 0 ;;
       firstelold <- py_index ro 0 ;;
       keepaxis <- mapR (keepaxis_at new_coords curcoords firstel firstelold)
                        (seq 0 (length firstel)) ;;
       cc <- bool_index_cols curcoords keepaxis ;;
       nc <- bool_index_cols new_coords keepaxis ;;
       Ok (cc, nc)
   | Arr2 _ _, Arr1 _ => Raise (IndexError "too many indices for array")
   | _, _ => Raise (Unmodelled "twodinterp on rank-3 coordinates")
   end)%R.

Definition interpmethods : list string := ["linear"; "nearest"; "cubic"].

Definition full_path `{Externals} (new_coordsorig curcoords new_coords : ndarray)
  (newcoordname method : string) (fill_value : fnum) (beammask : beammask_t)
  (NNlocs : nat) : M (option ndarray) :=
  (self <- getM ;;
   forM_ (keys (data self))
         (interp_field curcoords new_coords method fill_value beammask NNlocs) ;;;
   modifyM (with_dataloc new_coordsorig) ;;;
   modifyM (with_coordnames newcoordname) ;;;
   retM None)%M.

Definition single_path `{Externals} (k : string) (curcoords new_coords : ndarray)
  (method : string) (fill_value : fnum) (NNlocs : nat) : M (option ndarray) :=
  (self <- getM ;;
   arr <- liftRM (lookup k (data self)) ;;
   cols <- liftM (mapW (interp_single_step arr curcoords new_coords method
                                           fill_value NNlocs)
                       (seq 0 (shape0 (times self)))) ;;
   retM (Some (from_columns NNlocs cols)))%M.

(** Everything before the branch on [ikey]: the assertions, the conversion
    of the current locations and the optional axis reduction.  It yields
    the pair (current coordinates, target coordinates) to interpolate
    with. *)
Definition interp_prelude `{Externals} (new_coords : ndarray)
  (newcoordname method : string) (twodinterp : bool) : M (ndarray * ndarray) :=
  (assertM ((ndim new_coords =? 2) && (nth 1 (shape new_coords) 0 =? 3)) "" ;;;
   assertM (mem_key method interpmethods)
           "method needs to be linear, nearest, cubic" ;;;
   assertM (mem_key method interpmethods)
           "Must be one of the following methods: ('linear', 'nearest', 'cubic')" ;;;
   curcoords <- __changecoords__ newcoordname ;;
   liftRM (if twodinterp then twod_reduce new_coords curcoords
           else Ok (curcoords, new_coords)))%M.

Definition interpolate `{Externals} (new_coords : ndarray)
  (newcoordname method : string) (fill_value : fnum) (twodinterp : bool)
  (ikey : option string) (beammask : beammask_t) : M (option ndarray) :=
  (red <- interp_prelude new_coords newcoordname method twodinterp ;;
   let new_coordsorig := new_coords in
   let '(curcoords, new_coords') := red in
   let NNlocs := shape0 new_coords' in
   self <- getM ;;
   match ikey with
   | None =>
       full_path new_coordsorig curcoords new_coords' newcoordname method
                 fill_value beammask NNlocs
   | Some k =>
       if negb (mem_key k (keys (data self))) then
         full_path new_coordsorig curcoords new_coords' newcoordname method
                   fill_value beammask NNlocs
       else
         single_path k curcoords new_coords' method fill_value NNlocs
   end)%M.

(* ------------------------------------------------------------------ *)
(** ** A stand-in for the external routines

    Used only to run the model on concrete inputs with at least one source
    point: nearest-neighbour lookup by squared distance.  What SciPy does
    with an empty set of source points depends on its version and is left
    out, and nothing below rests on it.  The conversions are not needed by
    the examples. *)

Definition fmul (a b : fnum) : fnum :=
  match a, b with
  | Fin x, Fin y => Fin (x * y)
  | _, _ => NaN
  end.

Definition sqdist (p q : list fnum) : fnum :=
  fsum (map2 (fun a b => fmul (fsub a b) (fsub a b)) p q).

Definition nearest_of (pts : list (list fnum)) (vals : list fnum)
  (x : list fnum) : fnum :=
  match combine pts vals with
  | [] => NaN
  | (p0, v0) :: rest =>
      snd (fold_left
             (fun best pv =>
                if flt (sqdist (fst pv) x) (fst best)
                then (sqdist (fst pv) x, snd pv) else best)
             rest (sqdist p0 x, v0))
  end.

Definition griddata_nearest (points : ndarray) (values : list fnum)
  (xi : ndarray) (method : string) (fill_value : fnum) : result (list fnum) :=
  match points, xi with
  | Arr2 _ pts, Arr2 _ xs =>
      if length pts =? 0
      then Raise (Unmodelled "griddata on an empty set of points")
      else if negb (length pts =? length values)
      then Raise (ValueError "different number of values and points")
      else Ok (map (nearest_of pts values) xs)
  | _, _ => Raise (Unmodelled "stand-in griddata on non-matrix points")
  end.

Definition standin : Externals := {|
  griddata := griddata_nearest;
  sphereical2Cartisian := fun _ => Raise (Unmodelled "spherical to Cartesian");
  cartisian2Sphereical := fun _ => Raise (Unmodelled "Cartesian to spherical")
|}.

(** Literals for the examples. *)
Definition fz (z : Z) : fnum := Fin (inject_Z z).

(* ------------------------------------------------------------------ *)
(** ** Predicates used in the statements *)

Definition row_start (r : list fnum) : fnum := nth 0 r NaN.
Definition row_end (r : list fnum) : fnum := nth 1 r NaN.

(** An [(N,2)] table as nested lists: every row has two entries. *)
Definition wf_table (rows : list (list fnum)) : bool :=
  forallb (fun r => length r =? 2) rows.






(** Row [j] of [rows2] starts before [s1] / ends after [e1]: the two index
    sets [timeregister] collects with [np.argwhere]. *)
Definition starts_before (rows2 : list (list fnum)) (s1 : fnum) (j : nat) : Prop :=
  exists r, nth_error rows2 j = Some r /\ flt (row_start r) s1 = true.
Definition ends_after (rows2 : list (list fnum)) (e1 : fnum) (j : nat) : Prop :=
  exists r, nth_error rows2 j = Some r /\ flt e1 (row_end r) = true.

Definition is_largest (P : nat -> Prop) (i : nat) : Prop :=
  P i /\ forall j, P j -> j <= i.
Definition is_smallest (P : nat -> Prop) (i : nat) : Prop :=
  P i /\ forall j, P j -> i <= j.

(** The matching rule as the specification words it, with [A] the rows
    whose start is greater than [s1] and [B] the rows whose end is less
    than [e1]. *)
Definition timeregister_row_as_specified (rows2 : list (list fnum))
  (s1 e1 : fnum) : list nat :=
  let A := argwhere (map (fun r => fgt (row_start r) s1) rows2) in
  let B := argwhere (map (fun r => flt (row_end r) e1) rows2) in
  match A, B with
  | [], _ | _, [] => []
  | _, _ => arange (last A 0) (hd 0 B + 1)
  end.

(** What the masked comparison checks at one position: a position masked
    in either operand is skipped, the others are compared with [==]. *)
Definition masked_eq_elem (x y : fnum) : bool :=
  isnan x || isnan y || feq x y.

(** Everything of the object except the field arrays is the same. *)
Definition same_frame (s s' : GeoData) : Prop :=
  times s' = times s /\ dataloc s' = dataloc s /\
  coordnames s' = coordnames s /\ sensorloc s' = sensorloc s /\
  expdesc s' = expdesc s /\ keys (data s') = keys (data s).

(** A field array laid out on a grid of [NNlocs] locations, one column per
    time step. *)
Definition on_grid (NNlocs Nt : nat) (a : ndarray) : Prop :=
  exists cols, a = from_columns NNlocs cols /\ length cols = Nt.

(** What the masking step of the full-field loop keeps of the samples
    [curparam] of field [k] and of the source locations [cc]: everything
    for the field ['optical'], otherwise the positions that are finite and
    selected by [beammask]. *)
Definition kept_samples (k : string) (curparam : list fnum) (cc : ndarray)
  (bm : beammask_t) (cp : list fnum) (coordkeep : ndarray) : Prop :=
  (k = "optical" /\ cp = curparam /\ coordkeep = cc) \/
  (k <> "optical" /\
   exists dfmask,
     mask_and (map isfinite curparam) bm = Ok dfmask /\
     bool_index curparam dfmask = Ok cp /\
     bool_index_rows cc dfmask = Ok coordkeep).

(** Column [col] is what time step [itime] of field [k] becomes on the new
    locations [nc']: the output of the interpolation routine on the kept
    locations and samples when a location is kept, not-a-number at every
    new location otherwise. *)
Definition step_column `{Externals} (k : string) (arr cc nc' : ndarray)
  (m : string) (fill : fnum) (bm : beammask_t) (N itime : nat)
  (col : list fnum) : Prop :=
  exists curparam cp coordkeep,
    field_at arr itime = Ok curparam /\
    kept_samples k curparam cc bm cp coordkeep /\
    ((0 < shape0 coordkeep /\
      exists intparam,
        griddata coordkeep cp nc' m fill = Ok intparam /\
        assign_column N intparam = Ok col)
     \/
     (shape0 coordkeep = 0 /\ col = repeat NaN N)).

(** Array [a] is field [k], with old array [arr], interpolated onto the
    new locations at each of [Nt] time steps. *)
Definition interpolated `{Externals} (k : string) (arr cc nc' : ndarray)
  (m : string) (fill : fnum) (bm : beammask_t) (Nt : nat) (a : ndarray)
  : Prop :=
  exists cols,
    a = from_columns (shape0 nc') cols /\
    length cols = Nt /\
    forall itime col,
      nth_error cols itime = Some col ->
      step_column k arr cc nc' m fill bm (shape0 nc') itime col.

(** Field [k], with array [arr], cannot be interpolated: some time step
    raises [e]. *)
Definition step_fails `{Externals} (k : string) (arr cc nc' : ndarray)
  (m : string) (fill : fnum) (bm : beammask_t) (t : ndarray) (e : exn)
  : Prop :=
  exists itime tim0,
    nth_error (time_steps t) itime = Some (itime, tim0) /\
    fst (interp_step k arr cc nc' m fill bm (shape0 nc') (itime, tim0))
    = Raise e.

(** ** Inputs of the worked examples *)

Definition ex_loc : ndarray := Arr2 3 [[fz 0; fz 0; fz 0]; [fz 1; fz 0; fz 0]].
Definition ex_sensor : ndarray := Arr1 [fz 65; fz (-147); fz 0].
Definition ex_fields : dict := [("ne", Arr2 1 [[fz 7]; [fz 8]])].


(** Two datasets on the same grid: one interval [5, 6] against one
    interval [0, 10] that contains it. *)
Definition gd_inner : GeoData :=
  mkGeoData ex_fields "Cartesian" ex_loc ex_sensor (Arr2 2 [[fz 5; fz 6]]) "".
Definition gd_outer : GeoData :=
  mkGeoData ex_fields "Cartesian" ex_loc ex_sensor (Arr2 2 [[fz 0; fz 10]]) "".

(** Two datasets that differ at one place only: the field value at
    location 3, time 0 is finite in one and not-a-number in the other. *)
Definition ex_loc4 : ndarray :=
  Arr2 3 [[fz 0; fz 0; fz 0]; [fz 1; fz 0; fz 0]; [fz 2; fz 0; fz 0]; [fz 3; fz 0; fz 0]].
Definition field_finite : ndarray := Arr2 1 [[fz 1]; [fz 2]; [fz 3]; [fz 4]].
Definition field_nan_at_3 : ndarray := Arr2 1 [[fz 1]; [fz 2]; [fz 3]; [NaN]].
Definition gd_finite : GeoData :=
  mkGeoData [("ne", field_finite)] "Cartesian" ex_loc4 ex_sensor
            (Arr2 2 [[fz 0; fz 60]]) "".
Definition gd_nan_at_3 : GeoData :=
  mkGeoData [("ne", field_nan_at_3)] "Cartesian" ex_loc4 ex_sensor
            (Arr2 2 [[fz 0; fz 60]]) "".

(** ** Order used by [np.argsort] *)

Definition np_le (a b : fnum) : bool := negb (np_lt b a).

(** Two sort keys tie when neither is below the other: equal numbers, or
    two NaNs. *)
Definition np_tie (a b : fnum) : bool := negb (np_lt a b) && negb (np_lt b a).

Definition key_le {B} (p q : fnum * B) : Prop := np_le (fst p) (fst q) = true.
Definition key_lt {B} (p q : fnum * B) : Prop := np_lt (fst p) (fst q) = true.
Definition key_apart {B} (p q : fnum * B) : Prop := np_tie (fst p) (fst q) = false.

(** A row with its sort key. *)
Definition keyed (r : list fnum) : fnum * list fnum := (row_start r, r).

(** No two rows of the table tie on their start. *)
Definition distinct_starts (rows : list (list fnum)) : Prop :=
  ForallOrdPairs key_apart (map keyed rows).

(** Rows in ascending order of start (NaN last). *)
Definition sorted_by_start (rows : list (list fnum)) : Prop :=
  StronglySorted key_le (map keyed rows).

(** What [add_times] asserts before it merges. *)
Definition merge_preconditions (A B : GeoData) : Prop :=
  key_set_eqb (keys (data A)) (keys (data B)) = true /\
  String.eqb (coordnames A) (coordnames B) = true /\
  allequal (ma_array (dataloc A)) (ma_array (dataloc B)) = Ok true /\
  allequal (ma_array (sensorloc A)) (ma_array (sensorloc B)) = Ok true.

(** The object a method leaves behind. *)
Definition final_state {A} (r : result A * GeoData * list warning) : GeoData :=
  snd (fst r).
Definition outcome {A} (r : result A * GeoData * list warning) : result A :=
  fst (fst r).

(** Two datasets on the same grid whose single intervals start at the same
    time but end at different times. *)
Definition gd_tie_a : GeoData :=
  mkGeoData ex_fields "Cartesian" ex_loc ex_sensor (Arr2 2 [[fz 0; fz 1]]) "".
Definition gd_tie_b : GeoData :=
  mkGeoData ex_fields "Cartesian" ex_loc ex_sensor (Arr2 2 [[fz 0; fz 2]]) "".

(** A dataset with another field name. *)
Definition gd_other_names : GeoData :=
  mkGeoData [("te", Arr2 1 [[fz 7]; [fz 8]])] "Cartesian" ex_loc ex_sensor
            (Arr2 2 [[fz 0; fz 10]]) "".

(** ** Inputs for [interpolate] *)

Definition target3 : ndarray :=
  Arr2 3 [[fz 0; fz 0; fz 0]; [fz 1; fz 0; fz 0]; [fz 2; fz 0; fz 0]].

(** Two locations, one time step; the second field has rank 1, which the
    full-field loop rejects with ['incorrect data matrix shape']. *)
Definition gd_bad_rank : GeoData :=
  mkGeoData [("ne", Arr2 1 [[fz 7]; [fz 8]]); ("te", Arr1 [fz 1; fz 2])]
            "Cartesian" ex_loc ex_sensor (Arr2 2 [[fz 0; fz 60]]) "".

(** The same with a second field whose frame holds four samples for two
    locations, which the interpolation routine rejects. *)
Definition gd_bad_frame : GeoData :=
  mkGeoData [("ne", Arr2 1 [[fz 7]; [fz 8]]);
             ("optical", Arr3 2 2 [[[fz 1; fz 2]; [fz 3; fz 4]]])]
            "Cartesian" ex_loc ex_sensor (Arr2 2 [[fz 0; fz 60]]) "".

(** Two locations, two time steps; field ["ne"] has no finite sample at
    the first step. *)
Definition gd_gap : GeoData :=
  mkGeoData [("ne", Arr2 2 [[NaN; fz 7]; [NaN; fz 8]])]
            "Cartesian" ex_loc ex_sensor
            (Arr2 2 [[fz 0; fz 60]; [fz 60; fz 120]]) "".




(* ------------------------------------------------------------------ *)
(** ** The remaining methods of [GeoData] *)

(** [datanames] *)
Definition datanames (self : GeoData) : list string := keys (data self).

(** [__ne__] *)
Definition __ne__ (self self2 : GeoData) : result bool :=
  (r <- __eq__ self self2 ;; Ok (negb r))%R.

(** [issatellite]: [np.all(np.isnan(self.sensorloc))] *)
Definition issatellite (self : GeoData) : bool :=
  forallb isnan (ravel (sensorloc self)).

(** [copyinst] and [copy]: the copy goes through the constructor, so its
    time array is normalised again. *)
Definition copyinst (obj1 : GeoData)
  : dict * string * ndarray * ndarray * ndarray * string :=
  (data obj1, coordnames obj1, dataloc obj1, sensorloc obj1, times obj1,
   expdesc obj1).

Definition copy (self : GeoData) : W GeoData := __init__ (copyinst self).

(** *** Matching locations: [checkcoords] and [datareducelocation] *)

(** The rows a for-loop over an array yields, as 1-D arrays; a scalar of a
    rank-1 array acts in the comparison below as a row of length one. *)
Definition iter_rows (a : ndarray) : result (list (list fnum)) :=
  match a with
  | Arr1 xs => Ok (map (fun x => [x]) xs)
  | Arr2 _ rows => Ok rows
  | Arr3 _ _ _ => Raise (Unmodelled "iteration over a rank-3 coordinate array")
  end.

(** [np.all(origcoords == irow, axis=1)]: one boolean per row of
    [origcoords], with NumPy's broadcasting of the last axis. *)
Definition match_mask (origcoords : ndarray) (irow : list fnum)
  : result (list bool) :=
  match origcoords with
  | Arr1 _ => Raise (IndexError "axis 1 is out of bounds for array of dimension 1")
  | Arr2 c rows =>
      if c =? length irow
      then Ok (map (fun r => forallb id (map2 feq r irow)) rows)
      else if length irow =? 1
      then Ok (map (fun r => forallb (fun x => feq x (nth 0 irow NaN)) r) rows)
      else if c =? 1
      then Ok (map (fun r => forallb (fun y => feq (nth 0 r NaN) y) irow) rows)
      else Raise (ValueError "operands could not be broadcast together")
  | Arr3 _ _ _ => Raise (Unmodelled "comparison with rank-3 coordinates")
  end.

Fixpoint checkcoords_rows (origcoords : ndarray) (rows : list (list fnum))
  : result bool :=
  match rows with
  | [] => Ok true
  | irow :: rows' =>
      (m <- match_mask origcoords irow ;;
       if negb (existsb id m) then Ok false
       else checkcoords_rows origcoords rows')%R
  end.

Definition checkcoords (self : GeoData) (newcoords : ndarray)
  (coordname : string) : result bool :=
  if negb (String.eqb coordname (coordnames self)) then Ok false
  else
    (rows <- iter_rows newcoords ;;
     checkcoords_rows (dataloc self) rows)%R.

(** [np.where(mask)[0][0]]: the first index that matches. *)
Definition first_match (origcoords : ndarray) (irow : list fnum) : result nat :=
  (m <- match_mask origcoords irow ;;
   py_index (argwhere m) 0)%R.

Definition reduce_field (reorderlist : list nat) (ikey : string) : M unit :=
  (self <- getM ;;
   a <- liftRM (lookup ikey (data self)) ;;
   v <- liftRM (take_rows a reorderlist) ;;
   modifyM (fun g => with_data (dict_set ikey v (data g)) g))%M.

Definition datareducelocation (newcoords : ndarray) (coordname : string)
  (key : option string) : M (option ndarray) :=
  (self <- getM ;;
   assertM (String.eqb (lower (coordnames self)) (lower coordname)) "" ;;;
   rows <- liftRM (iter_rows newcoords) ;;
   reorderlist <- liftRM (mapR (first_match (dataloc self)) rows) ;;
   match key with
   | None =>
       forM_ (datanames self) (reduce_field reorderlist) ;;;
       retM None
   | Some k =>
       a <- liftRM (lookup k (data self)) ;;
       v <- liftRM (take_rows a reorderlist) ;;
       retM (Some v)
   end)%M.

(** *** [changedata] *)

(** [del d[k]] *)
Definition dict_del (k : string) (d : dict) : dict :=
  filter (fun kv => negb (String.eqb k (fst kv))) d.

(** [func] stands for the call [func(self.data[dataname], *params)] with
    the extra parameters already supplied; it may raise. *)
Definition changedata (dataname newname : string)
  (func : ndarray -> result ndarray) (rm_old : bool) : M unit :=
  (self <- getM ;;
   assertM (mem_key dataname (keys (data self))) "Incorrect data name used." ;;;
   a <- liftRM (lookup dataname (data self)) ;;
   v <- liftRM (func a) ;;
   modifyM (fun g => with_data (dict_set newname v (data g)) g) ;;;
   if rm_old
   then modifyM (fun g => with_data (dict_del dataname (data g)) g)
   else retM tt)%M.

(** *** [timeslice] *)

(** An element of the [timelist] argument: a Python int or float. *)
Inductive pynum : Type :=
| PInt (z : Z)
| PFloat (x : fnum).

Definition pynum_value (p : pynum) : fnum :=
  match p with
  | PInt z => Fin (inject_Z z)
  | PFloat x => x
  end.

(** A list used as an index array: every element must be an int. *)
Definition as_indices (l : list pynum) : result (list Z) :=
  mapR (fun p => match p with
                 | PInt z => Ok z
                 | PFloat _ =>
                     Raise (IndexError "arrays used as indices must be of integer type")
                 end) l.

(** [a[idx]] for a list of Python ints, negative ones counting from the
    end. *)
Definition take_py {A} (l : list A) (idx : list Z) : result (list A) :=
  mapR (py_index l) idx.

(** [np.in1d(ar1, ar2)] *)
Definition in1d (ar1 ar2 : list fnum) : list bool :=
  map (fun x => existsb (feq x) ar2) ar1.

(** The first [if] of [timeslice].  With any other [listtype] the name
    [loclist] stays unbound and its first use raises. *)
Definition timeslice_loclist (self : GeoData) (timelist : list pynum)
  (listtype : option string) : result (option (list pynum)) :=
  match listtype with
  | None => Ok (Some timelist)
  | Some lt =>
      if String.eqb lt "Array" then Ok (Some timelist)
      else if String.eqb lt "Time" then
        (c0 <- column 0 (times self) ;;
         let ix := in1d c0 (map pynum_value timelist) in
         Ok (Some (map (fun i => PInt (Z.of_nat i)) (argwhere ix))))%R
      else Ok None
  end.

(** One field of the copy, sliced along its time axis. *)
Definition timeslice_field (idx : list Z) (a : ndarray) : result ndarray :=
  (match a with
   | Arr2 c rows =>
       v <- mapR (fun r => take_py r idx) rows ;; Ok (Arr2 (length idx) v)
   | Arr3 d1 d2 frames =>
       v <- take_py frames idx ;; Ok (Arr3 d1 d2 v)
   | Arr1 _ => Raise (TypeError "unknown data shape for gd2 data")
   end)%R.

Fixpoint timeslice_fields (idx : list Z) (ks : list string) (d : dict)
  : result dict :=
  match ks with
  | [] => Ok d
  | idata :: ks' =>
      (a <- lookup idata d ;;
       v <- timeslice_field idx a ;;
       timeslice_fields idx ks' (dict_set idata v d))%R
  end.

Definition timeslice (self : GeoData) (timelist : list pynum)
  (listtype : option string) : W GeoData :=
  (loclist <- liftR (timeslice_loclist self timelist listtype) ;;
   gd2 <- copy self ;;
   match loclist with
   | None => raiseW (Unmodelled "UnboundLocalError: loclist")
   | Some ll =>
       times' <- liftR
         (match times gd2 with
          | Arr1 xs => idx <- as_indices ll ;; v <- take_py xs idx ;; Ok (Arr1 v)
          | Arr2 c rows =>
              idx <- as_indices ll ;; v <- take_py rows idx ;; Ok (Arr2 c v)
          | Arr3 _ _ _ =>
              Raise (TypeError "i only expect 1 or 2 dimensions for time")
          end)%R ;;
       d' <- liftR (idx <- as_indices ll ;;
                    timeslice_fields idx (keys (data gd2)) (data gd2))%R ;;
       retW (with_data d' (with_times times' gd2))
   end)%W.

(* ------------------------------------------------------------------ *)
(** ** More inputs for the worked examples *)


(** One long interval [5, 25] against three consecutive intervals. *)
Definition gd_long : GeoData :=
  mkGeoData ex_fields "Cartesian" ex_loc ex_sensor (Arr2 2 [[fz 5; fz 25]]) "".
Definition gd_three : GeoData :=
  mkGeoData ex_fields "Cartesian" ex_loc ex_sensor
            (Arr2 2 [[fz 0; fz 10]; [fz 10; fz 20]; [fz 20; fz 30]]) "".

(** Starts and ends both strictly increasing down the table. *)
Definition strictly_increasing (rows : list (list fnum)) : Prop :=
  forall i j ri rj,
    i < j -> nth_error rows i = Some ri -> nth_error rows j = Some rj ->
    flt (row_start ri) (row_start rj) = true /\
    flt (row_end ri) (row_end rj) = true.

(** The message of the first of the four checks of [add_times] that
    evaluates to false, if any. *)
Definition first_failed_check (A B : GeoData) : option string :=
  if negb (key_set_eqb (keys (data A)) (keys (data B)))
  then Some "Data must have the same names."
  else if negb (String.eqb (coordnames A) (coordnames B))
  then Some "Must be same coordinate same."
  else match allequal (ma_array (dataloc A)) (ma_array (dataloc B)) with
       | Ok false => Some "Location points must be the same"
       | Ok true =>
           match allequal (ma_array (sensorloc A)) (ma_array (sensorloc B)) with
           | Ok false => Some "Sensor Locations must be the same"
           | _ => None
           end
       | Raise _ => None
       end.

(** A method keeps a projection of the object, whatever its outcome. *)
Definition preserves {T A} (proj : GeoData -> T) (c : M A) : Prop :=
  forall s r s' w, c s = (r, s', w) -> proj s' = proj s.

(** What [add_times] leaves alone. *)
Definition merge_frame (g : GeoData) :=
  (coordnames g, dataloc g, sensorloc g, expdesc g, keys (data g)).

(** A dataset at another place, and one in another coordinate system. *)
Definition gd_elsewhere : GeoData :=
  mkGeoData ex_fields "Cartesian"
            (Arr2 3 [[fz 0; fz 0; fz 0]; [fz 9; fz 0; fz 0]])
            ex_sensor (Arr2 2 [[fz 0; fz 10]]) "".

(** The field of [gd_finite] with another finite value at location 3. *)
Definition field_other_at_3 : ndarray := Arr2 1 [[fz 1]; [fz 2]; [fz 3]; [fz 5]].

(** Row [r] equals the requested row [irow], entry by entry with [==]. *)
Definition row_equal (r irow : list fnum) : bool := forallb id (map2 feq r irow).

(** All rows have [c] entries. *)
Definition rows_width (c : nat) (rows : list (list fnum)) : Prop :=
  forall r, In r rows -> length r = c.

(** A dataset without a fixed sensor. *)
Definition gd_satellite : GeoData :=
  mkGeoData ex_fields "Cartesian" ex_loc (Arr1 [NaN; NaN; NaN])
            (Arr2 2 [[fz 5; fz 6]]) "".

(** A request for the second location only, and one for a location that
    is not in [ex_loc]. *)
Definition want_second : ndarray := Arr2 3 [[fz 1; fz 0; fz 0]].
Definition want_nan : ndarray := Arr2 3 [[fz 1; NaN; fz 0]].

(** What the in-place reduction leaves alone. *)
Definition reduce_frame (g : GeoData) :=
  (times g, dataloc g, coordnames g, sensorloc g, expdesc g, keys (data g)).

(** No two rows of the table are equal. *)
Definition rows_distinct (rows : list (list fnum)) : Prop :=
  forall i j ri rj,
    i < j -> nth_error rows i = Some ri -> nth_error rows j = Some rj ->
    row_equal ri rj = false.


(** Every coordinate of every location is a number. *)
Definition rows_finite (rows : list (list fnum)) : Prop :=
  forall r, In r rows -> forallb isfinite r = true.

(** The rows of the table at the positions [idx], in that order. *)
Definition rows_at (rows : list (list fnum)) (idx : list nat)
  : list (list fnum) :=
  map (fun i => nth i rows []) idx.

(** The time axis of a field has [n] steps: the columns of a
    locations-by-times array, the frames of a rank-3 one. *)
Definition time_axis_is (n : nat) (a : ndarray) : Prop :=
  match a with
  | Arr1 _ => False
  | Arr2 c rows => c = n /\ forall r, In r rows -> length r = n
  | Arr3 _ _ frames => length frames = n
  end.

(** Index [z] is a valid Python index into a sequence of length [n]. *)
Definition index_in_range (n : nat) (z : Z) : Prop :=
  (- Z.of_nat n <= z < Z.of_nat n)%Z.

(** The start of time row [r] is one of the listed times. *)
Definition start_listed (timelist : list pynum) (r : list fnum) : bool :=
  existsb (feq (nth 0 r NaN)) (map pynum_value timelist).

(* ------------------------------------------------------------------ *)
(** ** [pathparts]

    Paths are lists of characters here.  [posix_split] is
    [posixpath.split] of the Python library:

      i = p.rfind(sep) + 1
      head, tail = p[:i], p[i:]
      if head and head != sep*len(head): head = head.rstrip(sep)
      return head, tail                                                 *)

Definition sep : ascii := "/"%char.
Definition is_sep (c : ascii) : bool := Ascii.eqb c sep.
Definition not_sep (c : ascii) : bool := negb (is_sep c).

Fixpoint drop_while {A} (p : A -> bool) (l : list A) : list A :=
  match l with
  | [] => []
  | x :: l' => if p x then drop_while p l' else l
  end.

(** [p.rfind(sep) + 1]: the length of [p] up to its last separator. *)
Definition after_last_sep (p : list ascii) : nat :=
  length (drop_while not_sep (rev p)).

(** [head.rstrip(sep)] *)
Definition rstrip_sep (h : list ascii) : list ascii :=
  rev (drop_while is_sep (rev h)).

Definition posix_split (p : list ascii) : list ascii * list ascii :=
  let i := after_last_sep p in
  let head := firstn i p in
  let tail := skipn i p in
  (if negb (length head =? 0) && negb (forallb is_sep head)
   then rstrip_sep head else head,
   tail).

(** The [while True] loop, with a bound on its iterations; [None] means
    the bound was reached. *)
Fixpoint pathparts_loop (fuel : nat) (path : list ascii)
  (components : list (list ascii)) : option (list (list ascii)) :=
  match fuel with
  | 0 => None
  | S fuel' =>
      let '(path', tail) := posix_split path in
      match tail with
      | [] => Some (rev components)
      | _ :: _ => pathparts_loop fuel' path' (components ++ [tail])
      end
  end.

Definition pathparts (path : list ascii) : option (list (list ascii)) :=
  pathparts_loop (S (length path)) path [].

(** A path component: not empty, no separator in it. *)
Definition component (c : list ascii) : Prop :=
  c <> [] /\ forallb not_sep c = true.

(** [/c1/c2/.../cn], and the same without the leading separator. *)
Definition abs_path (cs : list (list ascii)) : list ascii :=
  concat (map (cons sep) cs).
Definition rel_path (cs : list (list ascii)) : list ascii :=
  tl (abs_path cs).

(** The path ends in a character that is no separator. *)
Definition ends_in_name (p : list ascii) : Prop :=
  exists q x, p = q ++ [x] /\ is_sep x = false.

(* ================================================================== *)
(** * Properties *)

(** ** Python indexing *)

Lemma py_norm_neg (n k : nat) :
  1 <= k <= n -> py_norm n (- Z.of_nat k) = Some (n - k).
Proof.
  intros Hk. unfold py_norm.
  replace (- Z.of_nat k <? 0)%Z with true by (symmetry; apply Z.ltb_lt; lia).
  replace ((0 <=? Z.of_nat n + - Z.of_nat k)%Z) with true
    by (symmetry; apply Z.leb_le; lia).
  replace ((Z.of_nat n + - Z.of_nat k <? Z.of_nat n)%Z) with true
    by (symmetry; apply Z.ltb_lt; lia).
  simpl. f_equal. lia.
Qed.

Lemma py_norm_nonneg (n k : nat) :
  k < n -> py_norm n (Z.of_nat k) = Some k.
Proof.
  intros Hk. unfold py_norm.
  replace (Z.of_nat k <? 0)%Z with false by (symmetry; apply Z.ltb_ge; lia).
  replace ((0 <=? Z.of_nat k)%Z) with true by (symmetry; apply Z.leb_le; lia).
  replace ((Z.of_nat k <? Z.of_nat n)%Z) with true
    by (symmetry; apply Z.ltb_lt; lia).
  simpl. f_equal. lia.
Qed.

Lemma py_norm_bound (n : nat) (i : Z) (j : nat) :
  py_norm n i = Some j -> j < n.
Proof.
  unfold py_norm. intros H.
  destruct (i <? 0)%Z;
    match type of H with
    | (if (?a && ?b)%bool then _ else _) = _ =>
        destruct a eqn:Ha; destruct b eqn:Hb; simpl in H; try discriminate
    end;
    inversion H; subst; apply Z.leb_le in Ha; apply Z.ltb_lt in Hb; lia.
Qed.

Lemma py_index_at {A} (l : list A) (i : Z) (j : nat) (d : A) :
  py_norm (length l) i = Some j -> py_index l i = Ok (nth j l d).
Proof.
  intros H. unfold py_index. rewrite H.
  apply py_norm_bound in H.
  destruct (nth_error l j) eqn:E.
  - f_equal. symmetry. now apply nth_error_nth.
  - apply nth_error_None in E. lia.
Qed.

Lemma py_index_ok_inv {A} (l : list A) (i : Z) (x : A) :
  py_index l i = Ok x ->
  exists j, py_norm (length l) i = Some j /\ nth_error l j = Some x.
Proof.
  unfold py_index. destruct (py_norm (length l) i) as [j|]; [|discriminate].
  destruct (nth_error l j) eqn:E; [|discriminate].
  intros H; inversion H; subst. eauto.
Qed.

Lemma set_nth_last {A} (l : list A) (x v : A) :
  set_nth (l ++ [x]) (length l) v = l ++ [v].
Proof. induction l as [|a l IH]; simpl; [reflexivity | now rewrite IH]. Qed.

(** ** [np.roll] by one place to the left *)

Lemma roll_left_one {A} (x y : A) (tl : list A) :
  roll (x :: y :: tl) (-1) = (y :: tl) ++ [x].
Proof.
  unfold roll.
  replace (Z.to_nat ((- (-1)) mod Z.of_nat (length (x :: y :: tl)))) with 1.
  - reflexivity.
  - simpl length. rewrite Z.mod_small by lia. reflexivity.
Qed.

(** ** [timerepair] *)

Lemma zip_rows_length (a b : list fnum) :
  length a = length b -> length (zip_rows a b) = length a.
Proof.
  revert b; induction a as [|x a IH]; intros [|y b] H; simpl in *;
    try discriminate; auto.
Qed.

Lemma column0_zip_rows (a b : list fnum) :
  length a = length b -> map (fun r => nth 0 r NaN) (zip_rows a b) = a.
Proof.
  revert b; induction a as [|x a IH]; intros [|y b] H; simpl in *;
    try discriminate; auto.
  f_equal. apply IH. lia.
Qed.


(** The body of [timerepair] on two or more instants, step by step. *)
Lemma timerepair_flat_two_or_more (dt : dtype) (x y : fnum) (tl : list fnum) :
  timerepair_flat dt (x :: y :: tl) =
  (Ok (Arr2 2 (zip_rows (x :: y :: tl)
                        ((y :: tl) ++
                         [astype dt (fadd (last (y :: tl) NaN)
                                          (mean (diff (x :: y :: tl))))]))),
   []).
Proof.
  unfold timerepair_flat.
  rewrite roll_left_one.
  assert (Hlen : length ((y :: tl) ++ [x]) = S (S (length tl)))
    by (rewrite length_app; simpl; lia).
  assert (Hi : py_index ((y :: tl) ++ [x]) (-2) = Ok (last (y :: tl) NaN)).
  { rewrite (py_index_at _ _ (length tl) NaN).
    - f_equal. rewrite app_nth1 by (simpl; lia).
      clear. revert y. induction tl as [|z tl IH]; intros y; [reflexivity|].
      simpl length. change (nth (S (length tl)) (y :: z :: tl) NaN)
        with (nth (length tl) (z :: tl) NaN). rewrite IH. reflexivity.
    - rewrite Hlen. change (-2)%Z with (- Z.of_nat 2)%Z.
      rewrite py_norm_neg by lia. f_equal. lia. }
  rewrite Hi. cbn [liftR bindW].
  unfold py_setitem. rewrite Hlen.
  change (-1)%Z with (- Z.of_nat 1)%Z. rewrite py_norm_neg by lia.
  replace (S (S (length tl)) - 1) with (length (y :: tl)) by (simpl; lia).
  rewrite set_nth_last. cbn [liftR bindW].
  unfold column_stack.
  replace (length (x :: y :: tl) =? length ((y :: tl) ++ [_])) with true.
  - reflexivity.
  - symmetry. apply Nat.eqb_eq. rewrite length_app. simpl. lia.
Qed.

(** C9: [timerepair] returns an array that already has shape (N,2)
    unchanged: the same values, in the same rows, and nothing is logged;
    that is so at either dtype. *)
Theorem timerepair_canonical_unchanged (dt : dtype) (rows : list (list fnum)) :
  timerepair dt (Arr2 2 rows) = (Ok (Arr2 2 rows), []).
Proof. reflexivity. Qed.

(** Whatever [timerepair] returns is in canonical form, so a second
    application changes nothing. *)
Lemma timerepair_output_canonical (dt : dtype) (t t' : ndarray)
  (w : list warning) :
  timerepair dt t = (Ok t', w) -> exists rows, t' = Arr2 2 rows.
Proof.
  assert (Hflat : forall l, timerepair_flat dt l = (Ok t', w) ->
                            exists rows, t' = Arr2 2 rows).
  { intros [|x [|y tl]] H.
    - discriminate.
    - inversion H. eauto.
    - rewrite timerepair_flat_two_or_more in H. inversion H. eauto. }
  destruct t as [xs|c rows|d1 d2 fr]; simpl.
  - apply Hflat.
  - destruct c as [|[|[|c]]]; try apply Hflat.
    intros H; inversion H; eauto.
  - discriminate.
Qed.

Lemma timerepair_idempotent (dt dt' : dtype) (t t' : ndarray)
  (w : list warning) :
  timerepair dt t = (Ok t', w) -> timerepair dt' t' = (Ok t', []).
Proof.
  intros H. destruct (timerepair_output_canonical _ _ _ _ H) as [rows ->].
  reflexivity.
Qed.

Lemma nth_last_default {A} (l : list A) (d : A) :
  nth (length l - 1) l d = last l d.
Proof.
  induction l as [|a [|b l] IH]; try reflexivity.
  change (last (a :: b :: l) d) with (last (b :: l) d). rewrite <- IH.
  simpl. rewrite Nat.sub_0_r. reflexivity.
Qed.




(** ** Order of the rows produced by the constructor *)












(** ** [np.argwhere] *)

Lemma argwhere_from_In (bs : list bool) (k i : nat) :
  In i (argwhere_from k bs) <-> k <= i /\ nth_error bs (i - k) = Some true.
Proof.
  revert k. induction bs as [|b bs IH]; intros k; simpl.
  - split; [tauto|]. intros [_ H]. destruct (i - k); discriminate.
  - rewrite in_app_iff, IH. split.
    + intros [H|[Hle H]].
      * destruct b; simpl in H; [|tauto]. destruct H as [<-|[]].
        rewrite Nat.sub_diag. auto.
      * split; [lia|]. replace (i - k) with (S (i - S k)) by lia. exact H.
    + intros [Hle H]. destruct (Nat.eq_dec i k) as [->|Hne].
      * rewrite Nat.sub_diag in H. simpl in H. inversion H. left. now left.
      * right. split; [lia|].
        replace (i - k) with (S (i - S k)) in H by lia. exact H.
Qed.

Lemma argwhere_from_sorted (bs : list bool) (k : nat) :
  StronglySorted lt (argwhere_from k bs).
Proof.
  revert k. induction bs as [|b bs IH]; intros k; simpl; [constructor|].
  destruct b; simpl; [|apply IH].
  constructor; [apply IH|].
  apply Forall_forall. intros i Hi. apply argwhere_from_In in Hi. lia.
Qed.

Lemma argwhere_In_map {A} (f : A -> bool) (l : list A) (i : nat) :
  In i (argwhere (map f l)) <->
  exists x, nth_error l i = Some x /\ f x = true.
Proof.
  unfold argwhere. rewrite argwhere_from_In, Nat.sub_0_r, nth_error_map.
  split.
  - intros [_ H]. destruct (nth_error l i) as [x|]; [|discriminate].
    inversion H. eauto.
  - intros (x & -> & Hx). split; [lia|]. simpl. now rewrite Hx.
Qed.

Lemma argwhere_bound {A} (f : A -> bool) (l : list A) (i : nat) :
  In i (argwhere (map f l)) -> i < length l.
Proof.
  intros H. apply argwhere_In_map in H. destruct H as (x & Hx & _).
  apply nth_error_Some. congruence.
Qed.

Lemma sorted_head_least (i : nat) (l : list nat) :
  StronglySorted lt (i :: l) -> forall j, In j (i :: l) -> i <= j.
Proof.
  intros H j [<-|Hj]; [lia|].
  inversion H as [|? ? _ Hall]; subst.
  rewrite Forall_forall in Hall. specialize (Hall j Hj). lia.
Qed.

Lemma sorted_last_greatest (l : list nat) (d : nat) :
  StronglySorted lt l -> forall j, In j l -> j <= last l d.
Proof.
  induction l as [|i l IH]; intros H j Hj; [destruct Hj|].
  inversion H as [|? ? Hs Hall]; subst.
  destruct l as [|i' l'].
  - destruct Hj as [<-|[]]. simpl. lia.
  - change (last (i :: i' :: l') d) with (last (i' :: l') d).
    destruct Hj as [<-|Hj].
    + rewrite Forall_forall in Hall.
      assert (Hin : In i' (i' :: l')) by now left.
      specialize (Hall i' Hin). specialize (IH Hs i' Hin). lia.
    + now apply IH.
Qed.

Lemma last_In {A} (l : list A) (d : A) : l <> [] -> In (last l d) l.
Proof.
  induction l as [|a l IH]; [congruence|]. intros _.
  destruct l as [|b l]; [now left|].
  right. apply IH. discriminate.
Qed.

Lemma py_index_last {A} (l : list A) (d : A) :
  l <> [] -> py_index l (-1) = Ok (last l d).
Proof.
  intros Hne. rewrite (py_index_at l (-1) (length l - 1) d).
  - now rewrite nth_last_default.
  - change (-1)%Z with (- Z.of_nat 1)%Z. apply py_norm_neg.
    destruct l; [congruence | simpl; lia].
Qed.

(** ** [timeregister] *)

(** One row of the first table against the whole second table. *)
Lemma timeregister_row_value (rows2 : list (list fnum)) (s1 e1 : fnum) :
  timeregister_row (Arr2 2 rows2) [s1; e1] =
  Ok (let list1 := argwhere (map (fun r => flt (row_start r) s1) rows2) in
      let list2 := argwhere (map (fun r => flt e1 (row_end r)) rows2) in
      match list1, list2 with
      | [], _ | _, [] => []
      | _, i2 :: _ => seq (last list1 0) (i2 + 1 - last list1 0)
      end).
Proof.
  unfold timeregister_row.
  change (py_index [s1; e1] 0) with (Ok s1).
  change (py_index [s1; e1] 1) with (Ok e1).
  cbn [bindR column Nat.ltb Nat.leb]. rewrite !map_map.
  change (fun x : list fnum => fgt s1 (nth 0 x NaN))
    with (fun r : list fnum => flt (row_start r) s1).
  change (fun x : list fnum => flt e1 (nth 1 x NaN))
    with (fun r : list fnum => flt e1 (row_end r)).
  set (list1 := argwhere (map (fun r => flt (row_start r) s1) rows2)).
  set (list2 := argwhere (map (fun r => flt e1 (row_end r)) rows2)).
  cbv zeta.
  destruct list1 as [|a l1] eqn:E1; [reflexivity|].
  destruct list2 as [|b l2] eqn:E2; [reflexivity|].
  cbn [length Nat.eqb orb].
  rewrite (py_index_last (a :: l1) 0) by discriminate.
  change (py_index (b :: l2) 0) with (Ok b).
  reflexivity.
Qed.

Lemma timeregister_row_rule (rows2 : list (list fnum)) (s1 e1 : fnum) :
  exists cell,
    timeregister_row (Arr2 2 rows2) [s1; e1] = Ok cell /\
    ((~ (exists j, starts_before rows2 s1 j) \/
      ~ (exists j, ends_after rows2 e1 j)) -> cell = []) /\
    ((exists j, starts_before rows2 s1 j) ->
     (exists j, ends_after rows2 e1 j) ->
     exists ind1 ind2,
       is_largest (starts_before rows2 s1) ind1 /\
       is_smallest (ends_after rows2 e1) ind2 /\
       ind1 < length rows2 /\ ind2 < length rows2 /\
       cell = seq ind1 (ind2 + 1 - ind1)).
Proof.
  eexists. split; [apply timeregister_row_value|].
  set (list1 := argwhere (map (fun r => flt (row_start r) s1) rows2)).
  set (list2 := argwhere (map (fun r => flt e1 (row_end r)) rows2)).
  assert (HA : forall j, In j list1 <-> starts_before rows2 s1 j)
    by (intros j; apply argwhere_In_map).
  assert (HB : forall j, In j list2 <-> ends_after rows2 e1 j)
    by (intros j; apply argwhere_In_map).
  assert (S1 : StronglySorted lt list1) by apply argwhere_from_sorted.
  assert (S2 : StronglySorted lt list2) by apply argwhere_from_sorted.
  assert (B1 : forall j, In j list1 -> j < length rows2)
    by (intros j; apply argwhere_bound).
  assert (B2 : forall j, In j list2 -> j < length rows2)
    by (intros j; apply argwhere_bound).
  cbv zeta. split.
  - intros [Hno|Hno].
    + destruct list1 as [|a l1]; [reflexivity|].
      exfalso. apply Hno. exists a. apply HA. now left.
    + destruct list2 as [|b l2]; [now destruct list1|].
      exfalso. apply Hno. exists b. apply HB. now left.
  - intros [ja Hja] [jb Hjb].
    apply HA in Hja. apply HB in Hjb.
    destruct list1 as [|a l1] eqn:E1; [destruct Hja|].
    destruct list2 as [|b l2] eqn:E2; [destruct Hjb|].
    exists (last (a :: l1) 0), b.
    assert (Hlast : In (last (a :: l1) 0) (a :: l1)) by (apply last_In; discriminate).
    repeat split.
    + apply HA, Hlast.
    + intros j Hj. apply HA in Hj. now apply sorted_last_greatest.
    + apply HB. now left.
    + intros j Hj. apply HB in Hj. now apply (sorted_head_least b l2).
    + now apply B1.
    + apply B2. now left.
Qed.

Lemma mapR_total {A B} (f : A -> result B) (l : list A) :
  (forall x, In x l -> exists y, f x = Ok y) ->
  exists ys,
    mapR f l = Ok ys /\
    length ys = length l /\
    forall k x, nth_error l k = Some x ->
                exists y, nth_error ys k = Some y /\ f x = Ok y.
Proof.
  induction l as [|a l IH]; intros Hf.
  - exists []. repeat split. intros [|k] x; discriminate.
  - destruct (Hf a) as [y Hy]; [now left|].
    destruct IH as (ys & Hys & Hlen & Hnth); [intros x Hx; apply Hf; now right|].
    exists (y :: ys). simpl. rewrite Hy. simpl. rewrite Hys. simpl.
    repeat split; [now rewrite Hlen|].
    intros [|k] x Hx; simpl in *.
    + inversion Hx; subst. eauto.
    + now apply Hnth.
Qed.

Lemma wf_table_row (rows : list (list fnum)) (r : list fnum) :
  wf_table rows = true -> In r rows -> exists s e, r = [s; e].
Proof.
  unfold wf_table. rewrite forallb_forall. intros H Hr.
  specialize (H r Hr). apply Nat.eqb_eq in H.
  destruct r as [|s [|e [|? ?]]]; try discriminate. eauto.
Qed.

Lemma timeregister_normalized (self self2 : GeoData)
  (rows1 rows2 : list (list fnum)) :
  times self = Arr2 2 rows1 -> times self2 = Arr2 2 rows2 ->
  timeregister self self2
  = liftR (mapR (timeregister_row (Arr2 2 rows2)) rows1).
Proof.
  intros H1 H2. unfold timeregister. rewrite H1, H2. reflexivity.
Qed.

(** C1 (as amended): on normalized tables [timeregister] returns a
    sequence as long as the first table; for its row [s1, e1], with [A] the
    indices of the rows of the second table whose start is less than [s1]
    and [B] the indices of those whose end is greater than [e1], the entry
    is empty when [A] or [B] is empty, and otherwise it is the inclusive
    range from the last index of [A] to the first index of [B]. *)
Theorem timeregister_rule (self self2 : GeoData) (rows1 rows2 : list (list fnum))
  (H1 : times self = Arr2 2 rows1) (H2 : times self2 = Arr2 2 rows2)
  (W1 : wf_table rows1 = true) :
  exists outcell,
    timeregister self self2 = (Ok outcell, []) /\
    length outcell = length rows1 /\
    forall k s1 e1,
      nth_error rows1 k = Some [s1; e1] ->
      exists cell,
        nth_error outcell k = Some cell /\
        ((~ (exists j, starts_before rows2 s1 j) \/
          ~ (exists j, ends_after rows2 e1 j)) -> cell = []) /\
        ((exists j, starts_before rows2 s1 j) ->
         (exists j, ends_after rows2 e1 j) ->
         exists ind1 ind2,
           is_largest (starts_before rows2 s1) ind1 /\
           is_smallest (ends_after rows2 e1) ind2 /\
           cell = seq ind1 (ind2 + 1 - ind1) /\
           (forall i, In i cell <-> ind1 <= i <= ind2)).
Proof.
  rewrite (timeregister_normalized _ _ _ _ H1 H2).
  destruct (mapR_total (timeregister_row (Arr2 2 rows2)) rows1)
    as (out & Hout & Hlen & Hnth).
  { intros r Hr. destruct (wf_table_row _ _ W1 Hr) as (s & e & ->).
    destruct (timeregister_row_rule rows2 s e) as (cell & Hc & _). eauto. }
  exists out. unfold liftR. rewrite Hout. repeat split; [exact Hlen|].
  intros k s1 e1 Hk.
  destruct (Hnth _ _ Hk) as (cell & Hcell & Hrow).
  exists cell. split; [exact Hcell|].
  destruct (timeregister_row_rule rows2 s1 e1) as (cell' & Hc & Hempty & Hrange).
  rewrite Hrow in Hc. inversion Hc; subst cell'.
  split; [exact Hempty|].
  intros HA HB. destruct (Hrange HA HB) as (i1 & i2 & L1 & L2 & _ & _ & ->).
  exists i1, i2.
  split; [exact L1|]. split; [exact L2|]. split; [reflexivity|].
  intros i. rewrite in_seq. lia.
Qed.

Lemma timeregister_rule_witness :
  exists outcell,
    timeregister gd_inner gd_outer = (Ok outcell, []) /\
    length outcell = 1.
Proof.
  destruct (timeregister_rule gd_inner gd_outer [[fz 5; fz 6]] [[fz 0; fz 10]])
    as (out & Hout & Hlen & _); try reflexivity.
  exists out. split; [exact Hout | exact Hlen].
Defined.

(** C1 as stated fails.  With the first table [[5, 6]] and the second
    [[0, 10]] the code answers [[0]]: row 0 starts before 5 and ends after
    6.  The rule as worded (start greater than 5, end less than 6) selects
    no row and gives the empty sequence. *)
Lemma timeregister_not_as_specified :
  timeregister gd_inner gd_outer = (Ok [[0]], []) /\
  timeregister_row_as_specified [[fz 0; fz 10]] (fz 5) (fz 6) = [] /\
  argwhere (map (fun r => fgt (row_start r) (fz 5)) [[fz 0; fz 10]]) = [] /\
  argwhere (map (fun r => flt (row_end r) (fz 6)) [[fz 0; fz 10]]) = [].
Proof. repeat split; reflexivity. Qed.

(** C8: on normalized tables every entry [timeregister] returns is
    either empty or the ascending run of consecutive integers from some
    [lo] to some [hi] with [hi] below the length of the second table; so
    every returned index is a valid row index of that table. *)
Theorem timeregister_cells_valid (self self2 : GeoData)
  (rows1 rows2 : list (list fnum))
  (H1 : times self = Arr2 2 rows1) (H2 : times self2 = Arr2 2 rows2)
  (W1 : wf_table rows1 = true) :
  exists outcell,
    timeregister self self2 = (Ok outcell, []) /\
    Forall (fun cell =>
              cell = [] \/
              exists lo hi, lo <= hi /\ hi < length rows2 /\
                            cell = seq lo (S hi - lo)) outcell /\
    Forall (Forall (fun i => i < length rows2)) outcell.
Proof.
  rewrite (timeregister_normalized _ _ _ _ H1 H2).
  destruct (mapR_total (timeregister_row (Arr2 2 rows2)) rows1)
    as (out & Hout & Hlen & Hnth).
  { intros r Hr. destruct (wf_table_row _ _ W1 Hr) as (s & e & ->).
    destruct (timeregister_row_rule rows2 s e) as (cell & Hc & _). eauto. }
  exists out. unfold liftR. rewrite Hout. split; [reflexivity|].
  assert (Hcells : forall cell, In cell out ->
            cell = [] \/
            exists lo hi, lo <= hi /\ hi < length rows2 /\ cell = seq lo (S hi - lo)).
  { intros cell Hin. apply In_nth_error in Hin. destruct Hin as [k Hk].
    assert (Hklen : k < length rows1)
      by (rewrite <- Hlen; apply nth_error_Some; congruence).
    destruct (nth_error rows1 k) as [r|] eqn:Er;
      [|apply nth_error_None in Er; lia].
    destruct (Hnth _ _ Er) as (cell' & Hcell' & Hrow).
    rewrite Hk in Hcell'. inversion Hcell'; subst cell'.
    destruct (wf_table_row _ _ W1 (nth_error_In _ _ Er)) as (s & e & ->).
    rewrite timeregister_row_value in Hrow. inversion Hrow as [Hc]. clear Hrow.
    set (list1 := argwhere (map (fun r => flt (row_start r) s) rows2)) in *.
    set (list2 := argwhere (map (fun r => flt e (row_end r)) rows2)) in *.
    cbv zeta.
    destruct list1 as [|a l1] eqn:E1; [now left|].
    destruct list2 as [|b l2] eqn:E2; [now left|].
    assert (Hb : b < length rows2).
    { apply (argwhere_bound (fun r => flt e (row_end r))).
      fold list2. rewrite E2. now left. }
    destruct (le_lt_dec (last (a :: l1) 0) b) as [Hle|Hgt].
    - right. exists (last (a :: l1) 0), b. repeat split; try assumption.
      f_equal. lia.
    - left. replace (b + 1 - last (a :: l1) 0) with 0 by lia. reflexivity. }
  split.
  - apply Forall_forall. exact Hcells.
  - apply Forall_forall. intros cell Hin. apply Forall_forall. intros i Hi.
    destruct (Hcells cell Hin) as [->|(lo & hi & Hle & Hhi & ->)]; [destruct Hi|].
    apply in_seq in Hi. lia.
Qed.

Lemma timeregister_cells_valid_witness :
  exists outcell,
    timeregister gd_inner gd_outer = (Ok outcell, []) /\
    Forall (Forall (fun i => i < 1)) outcell.
Proof.
  destruct (timeregister_cells_valid gd_inner gd_outer
                                     [[fz 5; fz 6]] [[fz 0; fz 10]])
    as (out & Hout & _ & Hb); try reflexivity.
  exists out. split; [exact Hout | exact Hb].
Defined.

(** ** Masked comparison *)

Lemma list_nat_eqb_refl (l : list nat) : list_nat_eqb l l = true.
Proof. induction l; simpl; [reflexivity | now rewrite Nat.eqb_refl]. Qed.

Lemma list_nat_eqb_eq (a b : list nat) : a = b -> list_nat_eqb a b = true.
Proof. intros ->. apply list_nat_eqb_refl. Qed.

(** [np.ma.allequal] position by position. *)
Lemma masked_all_elementwise (xs ys : list fnum) :
  forallb id (filled_true (map2 feq xs ys) (mask_or (map isnan xs) (map isnan ys)))
  = forallb (fun p => masked_eq_elem (fst p) (snd p)) (combine xs ys).
Proof.
  revert ys. induction xs as [|x xs IH]; intros [|y ys]; try reflexivity.
  simpl. rewrite <- IH. reflexivity.
Qed.

Lemma allequal_elementwise (a b : ndarray) :
  shape a = shape b ->
  allequal (ma_array a) (ma_array b)
  = Ok (forallb (fun p => masked_eq_elem (fst p) (snd p))
                (combine (ravel a) (ravel b))).
Proof.
  intros Hs. unfold allequal. simpl ma_data. simpl ma_mask.
  rewrite (list_nat_eqb_eq _ _ Hs). now rewrite masked_all_elementwise.
Qed.

Lemma masked_eq_elem_refl (x : fnum) : masked_eq_elem x x = true.
Proof.
  destruct x as [|q]; [reflexivity|].
  unfold masked_eq_elem. simpl. apply Qeq_bool_refl.
Qed.

Lemma allequal_refl (a : ndarray) : allequal (ma_array a) (ma_array a) = Ok true.
Proof.
  rewrite allequal_elementwise by reflexivity. f_equal.
  induction (ravel a) as [|x l IH]; [reflexivity|].
  simpl. now rewrite masked_eq_elem_refl.
Qed.

Lemma in_combine_nth_error {A B} (l : list A) (l' : list B) (x : A) (y : B) :
  In (x, y) (combine l l') ->
  exists j, nth_error l j = Some x /\ nth_error l' j = Some y.
Proof.
  revert l'. induction l as [|a l IH]; intros [|b l'] H; try destruct H.
  - inversion H; subst. now exists 0.
  - destruct (IH _ H) as (j & Hj1 & Hj2). now exists (S j).
Qed.

(** Arrays that agree everywhere except where one of them holds NaN
    compare equal. *)
Lemma allequal_nan_variant (a a' : ndarray) (i : nat) (x : fnum) :
  shape a' = shape a ->
  nth_error (ravel a) i = Some x ->
  nth_error (ravel a') i = Some NaN ->
  (forall j, j <> i -> nth_error (ravel a') j = nth_error (ravel a) j) ->
  allequal (ma_array a) (ma_array a') = Ok true /\
  allequal (ma_array a') (ma_array a) = Ok true.
Proof.
  intros Hs Hi Hi' Hrest.
  rewrite !allequal_elementwise by congruence.
  split; f_equal; apply forallb_forall; intros [u v] Hin;
    apply in_combine_nth_error in Hin; destruct Hin as (j & Hu & Hv);
    simpl fst; simpl snd.
  - destruct (Nat.eq_dec j i) as [->|Hne].
    + rewrite Hi' in Hv. inversion Hv; subst.
      unfold masked_eq_elem. simpl. now rewrite orb_true_r.
    + rewrite (Hrest j Hne), Hu in Hv. inversion Hv; subst.
      apply masked_eq_elem_refl.
  - destruct (Nat.eq_dec j i) as [->|Hne].
    + rewrite Hi' in Hu. inversion Hu; subst. reflexivity.
    + rewrite (Hrest j Hne), Hv in Hu. inversion Hu; subst.
      apply masked_eq_elem_refl.
Qed.

(** ** The dict *)

Lemma dict_get_set (k k' : string) (v : ndarray) (d : dict) :
  dict_get k' (dict_set k v d)
  = if String.eqb k' k then Some v else dict_get k' d.
Proof.
  induction d as [|[k0 v0] d IH]; simpl.
  - destruct (String.eqb k' k); reflexivity.
  - destruct (String.eqb k k0) eqn:E; simpl.
    + apply String.eqb_eq in E. subst k0.
      destruct (String.eqb k' k); reflexivity.
    + destruct (String.eqb k' k0) eqn:E'.
      * apply String.eqb_eq in E'. subst k0.
        rewrite String.eqb_sym, E. reflexivity.
      * exact IH.
Qed.

Lemma keys_dict_set (k : string) (v : ndarray) (d : dict) :
  In k (keys d) -> keys (dict_set k v d) = keys d.
Proof.
  induction d as [|[k0 v0] d IH]; simpl; [tauto|].
  intros Hin. destruct (String.eqb k k0) eqn:E; simpl.
  - apply String.eqb_eq in E. now subst.
  - f_equal. apply IH. destruct Hin as [->|H]; [|exact H].
    rewrite String.eqb_refl in E. discriminate.
Qed.

Lemma dict_get_In (k : string) (d : dict) :
  In k (keys d) <-> exists v, dict_get k d = Some v.
Proof.
  induction d as [|[k0 v0] d IH]; simpl.
  - split; [tauto | intros [? ?]; discriminate].
  - destruct (String.eqb k k0) eqn:E.
    + apply String.eqb_eq in E. subst. split; eauto.
    + rewrite <- IH. split; [|tauto].
      intros [->|H]; [|exact H]. rewrite String.eqb_refl in E. discriminate.
Qed.

Lemma mem_key_In (k : string) (ks : list string) :
  mem_key k ks = true <-> In k ks.
Proof.
  unfold mem_key. rewrite existsb_exists. split.
  - intros (x & Hx & E). apply String.eqb_eq in E. now subst.
  - intros H. exists k. split; [exact H | apply String.eqb_refl].
Qed.

Lemma key_set_eqb_refl (ks : list string) : key_set_eqb ks ks = true.
Proof.
  unfold key_set_eqb.
  assert (H : forallb (fun k => mem_key k ks) ks = true)
    by (apply forallb_forall; intros k Hk; now apply mem_key_In).
  now rewrite H.
Qed.

Lemma eq_fields_true (ks : list string) (d1 d2 : dict) :
  (forall k, In k ks ->
             exists a b, dict_get k d1 = Some a /\ dict_get k d2 = Some b /\
                         allequal (ma_array a) (ma_array b) = Ok true) ->
  eq_fields ks d1 d2 = Ok true.
Proof.
  induction ks as [|k ks IH]; intros H; [reflexivity|].
  destruct (H k) as (a & b & Ha & Hb & Hab); [now left|].
  simpl. unfold lookup. rewrite Ha, Hb. simpl. rewrite Hab. simpl.
  apply IH. intros k' Hk'. apply H. now right.
Qed.

(** ** [__eq__] *)

Lemma GeoData_eq_same_but_data (g : GeoData) (d' : dict) :
  keys d' = keys (data g) ->
  eq_fields (keys (data g)) (data g) d' = Ok true ->
  eq_fields (keys (data g)) d' (data g) = Ok true ->
  __eq__ g (with_data d' g) = Ok true /\
  __eq__ (with_data d' g) g = Ok true.
Proof.
  intros Hkeys H12 H21.
  unfold __eq__. simpl. rewrite Hkeys, key_set_eqb_refl. simpl.
  rewrite H12, H21. simpl.
  rewrite String.eqb_refl. simpl.
  rewrite !allequal_refl. simpl. split; reflexivity.
Qed.

(** C2 (as amended): two datasets that are identical except that at one
    index a field value is not-a-number in one and finite in the other
    compare equal, in both directions: the masked comparison skips every
    position where either operand is not-a-number. *)
Theorem eq_skips_nan_against_finite
  (g : GeoData) (k : string) (a a' : ndarray) (i : nat) (q : Q)
  (Hk : dict_get k (data g) = Some a)
  (Hs : shape a' = shape a)
  (Hi : nth_error (ravel a) i = Some (Fin q))
  (Hi' : nth_error (ravel a') i = Some NaN)
  (Hrest : forall j, j <> i -> nth_error (ravel a') j = nth_error (ravel a) j) :
  __eq__ g (with_data (dict_set k a' (data g)) g) = Ok true /\
  __eq__ (with_data (dict_set k a' (data g)) g) g = Ok true.
Proof.
  assert (Hin : In k (keys (data g))) by (apply dict_get_In; eauto).
  destruct (allequal_nan_variant a a' i (Fin q) Hs Hi Hi' Hrest) as [Haa' Ha'a].
  apply GeoData_eq_same_but_data.
  - now apply keys_dict_set.
  - apply eq_fields_true. intros k' Hk'.
    apply dict_get_In in Hk'. destruct Hk' as [v Hv].
    rewrite dict_get_set. destruct (String.eqb k' k) eqn:E.
    + apply String.eqb_eq in E. subst k'.
      exists a, a'. repeat split; [exact Hk | exact Haa'].
    + exists v, v. repeat split; [exact Hv | exact Hv | apply allequal_refl].
  - apply eq_fields_true. intros k' Hk'.
    apply dict_get_In in Hk'. destruct Hk' as [v Hv].
    rewrite dict_get_set. destruct (String.eqb k' k) eqn:E.
    + apply String.eqb_eq in E. subst k'.
      exists a', a. repeat split; [exact Hk | exact Ha'a].
    + exists v, v. repeat split; [exact Hv | exact Hv | apply allequal_refl].
Qed.

Lemma eq_skips_nan_against_finite_witness :
  dict_get "ne" (data gd_finite) = Some field_finite /\
  shape field_nan_at_3 = shape field_finite /\
  nth_error (ravel field_finite) 3 = Some (Fin (inject_Z 4)) /\
  nth_error (ravel field_nan_at_3) 3 = Some NaN /\
  __eq__ gd_finite
             (with_data (dict_set "ne" field_nan_at_3 (data gd_finite)) gd_finite)
  = Ok true.
Proof.
  repeat (split; [reflexivity|]).
  apply (eq_skips_nan_against_finite gd_finite "ne" field_finite field_nan_at_3
                                     3 (inject_Z 4)); try reflexivity.
  intros [|[|[|[|j]]]] Hj; try reflexivity. congruence.
Defined.

(** C2 as stated fails: the dataset with the finite value 4 at location 3
    and the dataset with not-a-number there are reported equal, whichever
    is on the left. *)
Lemma eq_nan_against_finite_is_true :
  nth_error (ravel field_finite) 3 = Some (fz 4) /\
  nth_error (ravel field_nan_at_3) 3 = Some NaN /\
  __eq__ gd_finite gd_nan_at_3 = Ok true /\
  __eq__ gd_nan_at_3 gd_finite = Ok true.
Proof. repeat split; reflexivity. Qed.

(** ** The sort order and insertion sort *)

Lemma np_lt_Fin (x y : Q) : np_lt (Fin x) (Fin y) = true <-> (x < y)%Q.
Proof.
  unfold np_lt. simpl. rewrite orb_false_r. rewrite Qlt_alt.
  destruct (x ?= y)%Q; split; congruence.
Qed.

Lemma np_lt_asym (a b : fnum) : np_lt a b = true -> np_lt b a = false.
Proof.
  destruct a as [|x], b as [|y]; try reflexivity; try discriminate.
  intros H. apply np_lt_Fin in H.
  destruct (np_lt (Fin y) (Fin x)) eqn:E; [|reflexivity].
  apply np_lt_Fin in E. lra.
Qed.

Lemma np_lt_trans (a b c : fnum) :
  np_lt a b = true -> np_lt b c = true -> np_lt a c = true.
Proof.
  destruct a as [|x], b as [|y], c as [|z]; try reflexivity; try discriminate.
  rewrite !np_lt_Fin. lra.
Qed.

Lemma np_le_trans (a b c : fnum) :
  np_le a b = true -> np_le b c = true -> np_le a c = true.
Proof.
  unfold np_le. rewrite !negb_true_iff.
  destruct a as [|x], b as [|y], c as [|z]; try reflexivity; try discriminate.
  intros H1 H2.
  destruct (np_lt (Fin z) (Fin x)) eqn:E; [|reflexivity].
  apply np_lt_Fin in E.
  assert (~ (y < x)%Q) by (rewrite <- np_lt_Fin; congruence).
  assert (~ (z < y)%Q) by (rewrite <- np_lt_Fin; congruence).
  lra.
Qed.

Section InsertionSort.
Context {B : Type}.
Implicit Types (x y : fnum * B) (l : list (fnum * B)).

Lemma insert_by_perm x l : Permutation (insert_by x l) (x :: l).
Proof.
  induction l as [|y l IH]; simpl; [reflexivity|].
  destruct (np_lt (fst y) (fst x)); [|reflexivity].
  rewrite IH. apply perm_swap.
Qed.

Lemma isort_by_perm l : Permutation (isort_by l) l.
Proof.
  induction l as [|x l IH]; simpl; [reflexivity|].
  rewrite insert_by_perm. now constructor.
Qed.

Lemma insert_by_sorted x l :
  StronglySorted key_le l -> StronglySorted key_le (insert_by x l).
Proof.
  induction l as [|y l IH]; intros Hs; simpl.
  - repeat constructor.
  - inversion Hs as [|? ? Hs' Hall]; subst.
    destruct (np_lt (fst y) (fst x)) eqn:E.
    + constructor; [now apply IH|].
      apply (Permutation_Forall (x := x :: l)).
      * symmetry. apply insert_by_perm.
      * constructor; [|exact Hall].
        unfold key_le, np_le. now rewrite (np_lt_asym _ _ E).
    + assert (Hxy : key_le x y) by (unfold key_le, np_le; now rewrite E).
      constructor; [exact Hs|].
      constructor; [exact Hxy|].
      eapply Forall_impl; [|exact Hall].
      intros z Hz. unfold key_le in *. eapply np_le_trans; eassumption.
Qed.

Lemma isort_by_sorted l : StronglySorted key_le (isort_by l).
Proof.
  induction l as [|x l IH]; simpl; [constructor | now apply insert_by_sorted].
Qed.

Lemma key_apart_sym x y : key_apart x y -> key_apart y x.
Proof. unfold key_apart, np_tie. now rewrite andb_comm. Qed.

Lemma apart_perm l l' :
  Permutation l l' -> ForallOrdPairs key_apart l -> ForallOrdPairs key_apart l'.
Proof.
  induction 1 as [|x l l' Hp IH|x y l|l l' l'' _ IH1 _ IH2]; intros H.
  - constructor.
  - inversion H as [|? ? Hx Hl]; subst.
    constructor; [now apply (Permutation_Forall Hp) | now apply IH].
  - inversion H as [|? ? Hy Hl]; subst.
    inversion Hl as [|? ? Hx Hl']; subst.
    inversion Hy as [|? ? Hyx Hyl]; subst.
    constructor; [constructor; [now apply key_apart_sym | exact Hx]|].
    constructor; assumption.
  - auto.
Qed.

Lemma sorted_apart_strict l :
  StronglySorted key_le l -> ForallOrdPairs key_apart l ->
  StronglySorted key_lt l.
Proof.
  induction 1 as [|x l Hs IH Hall]; intros Hap; [constructor|].
  inversion Hap as [|? ? Hx Hl]; subst.
  constructor; [now apply IH|].
  rewrite Forall_forall in *. intros z Hz.
  specialize (Hall z Hz). specialize (Hx z Hz).
  unfold key_le, np_le, key_apart, np_tie, key_lt in *.
  destruct (np_lt (fst x) (fst z)); [reflexivity|].
  destruct (np_lt (fst z) (fst x)); discriminate.
Qed.

Lemma strict_sorted_unique l l' :
  StronglySorted key_lt l -> StronglySorted key_lt l' ->
  Permutation l l' -> l = l'.
Proof.
  revert l'. induction l as [|x l IH]; intros l' Hs Hs' Hp.
  - apply Permutation_nil in Hp. now subst.
  - destruct l' as [|y l'];
      [apply Permutation_sym, Permutation_nil in Hp; discriminate|].
    inversion Hs as [|? ? Hsl Hx]; subst.
    inversion Hs' as [|? ? Hsl' Hy]; subst.
    rewrite Forall_forall in Hx, Hy.
    assert (Hxy : x = y).
    { assert (Hin1 : In x (y :: l'))
        by (apply (Permutation_in _ Hp); now left).
      assert (Hin2 : In y (x :: l))
        by (apply (Permutation_in _ (Permutation_sym Hp)); now left).
      destruct Hin1 as [E|Hin1]; [now symmetry|].
      destruct Hin2 as [E|Hin2]; [exact E|].
      specialize (Hx y Hin2). specialize (Hy x Hin1).
      unfold key_lt in *. rewrite (np_lt_asym _ _ Hx) in Hy. discriminate. }
    subst y. f_equal. apply IH; try assumption.
    now apply Permutation_cons_inv in Hp.
Qed.

(** With pairwise distinct keys the sorted order does not depend on the
    order of the input. *)
Lemma isort_by_perm_invariant l l' :
  Permutation l l' -> ForallOrdPairs key_apart l ->
  isort_by l = isort_by l'.
Proof.
  intros Hp Hap.
  assert (P1 := isort_by_perm l). assert (P2 := isort_by_perm l').
  apply strict_sorted_unique.
  - apply sorted_apart_strict; [apply isort_by_sorted|].
    apply (apart_perm l); [now symmetry | exact Hap].
  - apply sorted_apart_strict; [apply isort_by_sorted|].
    apply (apart_perm l); [|exact Hap].
    rewrite Hp. now symmetry.
  - rewrite P1, Hp. now symmetry.
Qed.
End InsertionSort.

Lemma insert_by_map_payload {B C} (f : B -> C) (x : fnum * B) (l : list (fnum * B)) :
  insert_by (fst x, f (snd x)) (map (fun p => (fst p, f (snd p))) l)
  = map (fun p => (fst p, f (snd p))) (insert_by x l).
Proof.
  induction l as [|y l IH]; simpl; [reflexivity|].
  destruct (np_lt (fst y) (fst x)); simpl; [now rewrite IH | reflexivity].
Qed.

Lemma isort_by_map_payload {B C} (f : B -> C) (l : list (fnum * B)) :
  isort_by (map (fun p => (fst p, f (snd p))) l)
  = map (fun p => (fst p, f (snd p))) (isort_by l).
Proof.
  induction l as [|x l IH]; simpl; [reflexivity|].
  now rewrite IH, insert_by_map_payload.
Qed.

Lemma combine_seq_payload {A} (g : A -> fnum) (d : A) (pre l : list A) :
  map (fun p => (fst p, nth (snd p) (pre ++ l) d))
      (combine (map g l) (seq (length pre) (length l)))
  = map (fun r => (g r, r)) l.
Proof.
  revert pre. induction l as [|r l IH]; intros pre; [reflexivity|].
  simpl. f_equal.
  - now rewrite nth_middle.
  - specialize (IH (pre ++ [r])).
    rewrite <- app_assoc, length_app in IH. simpl in IH.
    rewrite Nat.add_1_r in IH. exact IH.
Qed.

Lemma take_valid {A} (l : list A) (idx : list nat) (d : A) :
  Forall (fun i => i < length l) idx ->
  take l idx = Ok (map (fun i => nth i l d) idx).
Proof.
  unfold take. induction 1 as [|i idx Hi _ IH]; [reflexivity|].
  simpl. destruct (nth_error l i) eqn:E.
  - simpl. rewrite IH. simpl. f_equal. f_equal.
    symmetry. now apply nth_error_nth.
  - apply nth_error_None in E. lia.
Qed.

Lemma argsort_bound (ks : list fnum) :
  Forall (fun i => i < length ks) (argsort ks).
Proof.
  unfold argsort. apply Forall_forall. intros i Hi.
  apply in_map_iff in Hi. destruct Hi as ([k j] & <- & Hin).
  apply (Permutation_in _ (isort_by_perm _)) in Hin.
  apply in_combine_r in Hin. apply in_seq in Hin. simpl. lia.
Qed.

(** Reordering the rows by [argsort] of their starts is sorting the rows
    by start. *)
Lemma take_argsort_rows (rows : list (list fnum)) :
  take rows (argsort (map row_start rows))
  = Ok (map snd (isort_by (map keyed rows))).
Proof.
  rewrite (take_valid rows _ []).
  - f_equal. unfold argsort. rewrite length_map.
    change (map keyed rows) with (map (fun r => (row_start r, r)) rows).
    rewrite <- (combine_seq_payload row_start [] [] rows).
    rewrite (isort_by_map_payload (fun i => nth i ([] ++ rows) [])), !map_map.
    reflexivity.
  - generalize (argsort_bound (map row_start rows)). now rewrite length_map.
Qed.

(** ** State preserved by loops *)

Lemma forM_preserves {A T} (proj : GeoData -> T) (body : A -> M unit) (l : list A) :
  (forall x s r s' w, body x s = (r, s', w) -> proj s' = proj s) ->
  forall s r s' w, forM_ l body s = (r, s', w) -> proj s' = proj s.
Proof.
  intros Hb. induction l as [|x l IH]; intros s r s' w H; simpl in H.
  - inversion H. reflexivity.
  - unfold bindM in H. destruct (body x s) as [[[u|e] s1] w1] eqn:E.
    + destruct (forM_ l body s1) as [[r2 s2] w2] eqn:E2.
      inversion H; subst. rewrite (IH _ _ _ _ E2). eapply Hb; eassumption.
    + inversion H; subst. eapply Hb; eassumption.
Qed.

Lemma add_times_field_times (B : GeoData) (idx : list nat) (k : string)
  (s : GeoData) r s' w :
  add_times_field B idx k s = (r, s', w) -> times s' = times s.
Proof.
  unfold add_times_field, bindM, getM, liftRM, modifyM.
  destruct (lookup k (data s)); [|intros H; inversion H; reflexivity].
  destruct (lookup k (data B)); [|intros H; inversion H; reflexivity].
  destruct (hstack a a0); [|intros H; inversion H; reflexivity].
  destruct (take_cols a1 idx); intros H; inversion H; reflexivity.
Qed.

(** ** [add_times] *)

Lemma masked_eq_elem_sym (x y : fnum) : masked_eq_elem x y = masked_eq_elem y x.
Proof.
  destruct x as [|p], y as [|q]; try reflexivity.
  unfold masked_eq_elem. simpl. apply Qeq_bool_comm.
Qed.

Lemma list_nat_eqb_sym (a b : list nat) : list_nat_eqb a b = list_nat_eqb b a.
Proof.
  revert b. induction a as [|x a IH]; intros [|y b]; try reflexivity.
  simpl. now rewrite IH, Nat.eqb_sym.
Qed.

Lemma allequal_sym (a b : ndarray) :
  allequal (ma_array a) (ma_array b) = allequal (ma_array b) (ma_array a).
Proof.
  unfold allequal. simpl ma_data. simpl ma_mask.
  rewrite (list_nat_eqb_sym (shape a)).
  destruct (list_nat_eqb (shape b) (shape a)); [|reflexivity].
  rewrite !masked_all_elementwise. f_equal.
  generalize (ravel a) (ravel b). intros xs.
  induction xs as [|x xs IH]; intros [|y ys]; try reflexivity.
  simpl. now rewrite IH, masked_eq_elem_sym.
Qed.

Lemma merge_preconditions_sym (A B : GeoData) :
  merge_preconditions A B -> merge_preconditions B A.
Proof.
  intros (Hk & Hc & Hl & Hs). repeat split.
  - unfold key_set_eqb in *. now rewrite andb_comm.
  - now rewrite String.eqb_sym.
  - now rewrite allequal_sym.
  - now rewrite allequal_sym.
Qed.

(** The time axis [add_times] leaves in [self]: the rows of both tables,
    sorted by start. *)
Lemma add_times_times (A B : GeoData) (rowsA rowsB : list (list fnum))
  (wA wB : list warning) :
  merge_preconditions A B ->
  timerepair Float64 (times A) = (Ok (Arr2 2 rowsA), wA) ->
  timerepair Float64 (times B) = (Ok (Arr2 2 rowsB), wB) ->
  times (final_state (add_times B A))
  = Arr2 2 (map snd (isort_by (map keyed (rowsA ++ rowsB)))).
Proof.
  intros (Hk & Hc & Hl & Hs) HA HB.
  unfold add_times, final_state.
  unfold bindM at 1. unfold getM at 1.
  unfold bindM at 1. rewrite Hk. unfold assertM at 1, retM at 1.
  unfold bindM at 1. rewrite Hc. unfold assertM at 1, retM at 1.
  unfold bindM at 1. unfold liftRM at 1. rewrite Hl.
  unfold bindM at 1. unfold assertM at 1, retM at 1.
  unfold bindM at 1. unfold liftRM at 1. rewrite Hs.
  unfold bindM at 1. unfold assertM at 1, retM at 1.
  unfold bindM at 1. unfold liftM at 1. rewrite HA. cbn [fst snd].
  unfold bindM at 1. unfold liftM at 1. rewrite HB. cbn [fst snd].
  unfold bindM at 1. unfold liftRM at 1.
  change (vstack (Arr2 2 rowsA) (Arr2 2 rowsB)) with (Ok (Arr2 2 (rowsA ++ rowsB))).
  unfold bindM at 1. unfold liftRM at 1.
  change (column 0 (Arr2 2 (rowsA ++ rowsB)))
    with (Ok (map row_start (rowsA ++ rowsB))).
  unfold bindM at 1. unfold liftRM at 1.
  unfold take_rows. rewrite take_argsort_rows. cbn [bindR].
  unfold bindM at 1. unfold modifyM at 1.
  destruct (forM_ _ _ _) as [[r s'] w] eqn:E.
  apply (forM_preserves times) in E.
  - cbn [fst snd]. rewrite E. reflexivity.
  - intros. eapply add_times_field_times; eassumption.
Qed.

Lemma keyed_snd_isort (rows : list (list fnum)) :
  map keyed (map snd (isort_by (map keyed rows))) = isort_by (map keyed rows).
Proof.
  assert (H : Forall (fun p => keyed (snd p) = p) (isort_by (map keyed rows))).
  { apply (Permutation_Forall (x := map keyed rows)).
    - symmetry. apply isort_by_perm.
    - apply Forall_forall. intros p Hp. apply in_map_iff in Hp.
      destruct Hp as (r & <- & _). reflexivity. }
  induction H as [|p l Hp _ IH]; [reflexivity|].
  simpl. now rewrite Hp, IH.
Qed.

Lemma add_times_names_differ (X Y : GeoData) :
  key_set_eqb (keys (data X)) (keys (data Y)) = false ->
  add_times Y X
  = (Raise (AssertionError "Data must have the same names."), X, []).
Proof.
  intros H. unfold add_times.
  unfold bindM at 1. unfold getM at 1.
  unfold bindM at 1. rewrite H. reflexivity.
Qed.

(** C5 (as amended): for datasets [A] and [B] that satisfy the merge
    preconditions, the time axes left by [A.add_times(B)] and by
    [B.add_times(A)] are both in ascending order of start and hold the
    same rows, those of the two tables; they are equal row for row when no
    two starts tie over both tables.  And [add_times] raises its
    "Data must have the same names." assertion error, leaving the object
    untouched, when the field-name sets differ.
    ([add_times Y X] is the call [X.add_times(Y)].) *)
Theorem add_times_commutes_distinct_starts
  (A B : GeoData) (rowsA rowsB : list (list fnum)) (wA wB : list warning)
  (Hpre : merge_preconditions A B)
  (HA : timerepair Float64 (times A) = (Ok (Arr2 2 rowsA), wA))
  (HB : timerepair Float64 (times B) = (Ok (Arr2 2 rowsB), wB)) :
  (exists mAB mBA,
      times (final_state (add_times B A)) = Arr2 2 mAB /\
      times (final_state (add_times A B)) = Arr2 2 mBA /\
      Permutation mAB (rowsA ++ rowsB) /\
      Permutation mBA (rowsA ++ rowsB) /\
      sorted_by_start mAB /\ sorted_by_start mBA /\
      (distinct_starts (rowsA ++ rowsB) -> mAB = mBA))
  /\
  (forall X Y : GeoData,
      key_set_eqb (keys (data X)) (keys (data Y)) = false ->
      add_times Y X
      = (Raise (AssertionError "Data must have the same names."), X, [])).
Proof.
  split; [|exact add_times_names_differ].
  assert (Hperm : forall rows,
             Permutation (map snd (isort_by (map keyed rows))) rows).
  { intros rows. transitivity (map snd (map keyed rows)).
    - apply Permutation_map, isort_by_perm.
    - rewrite map_map. simpl. now rewrite map_id. }
  exists (map snd (isort_by (map keyed (rowsA ++ rowsB)))),
         (map snd (isort_by (map keyed (rowsB ++ rowsA)))).
  split; [now apply (add_times_times A B rowsA rowsB wA wB)|].
  split; [apply (add_times_times B A rowsB rowsA wB wA);
          [now apply merge_preconditions_sym|assumption|assumption]|].
  split; [apply Hperm|].
  split; [rewrite Hperm; apply Permutation_app_comm|].
  split; [unfold sorted_by_start; rewrite keyed_snd_isort; apply isort_by_sorted|].
  split; [unfold sorted_by_start; rewrite keyed_snd_isort; apply isort_by_sorted|].
  intros Hd. f_equal. apply isort_by_perm_invariant.
  - apply Permutation_map, Permutation_app_comm.
  - exact Hd.
Qed.

Lemma add_times_commutes_distinct_starts_witness :
  merge_preconditions gd_inner gd_outer /\
  distinct_starts ([[fz 5; fz 6]] ++ [[fz 0; fz 10]]) /\
  times (final_state (add_times gd_outer gd_inner))
  = times (final_state (add_times gd_inner gd_outer)).
Proof.
  assert (Hpre : merge_preconditions gd_inner gd_outer)
    by (repeat split; reflexivity).
  assert (Hd : distinct_starts ([[fz 5; fz 6]] ++ [[fz 0; fz 10]])).
  { repeat constructor. }
  split; [exact Hpre|]. split; [exact Hd|].
  destruct (add_times_commutes_distinct_starts
              gd_inner gd_outer [[fz 5; fz 6]] [[fz 0; fz 10]] [] [] Hpre
              eq_refl eq_refl) as [(mAB & mBA & H1 & H2 & _ & _ & _ & _ & Heq) _].
  now rewrite H1, H2, (Heq Hd).
Defined.

(** Whatever order a sort gives to two tied keys, it gives the same order
    in both calls, because it sees the same keys; applied to the two
    concatenations it yields different tables. *)
Lemma tied_rows_any_order (s_ind : list nat) :
  Permutation [0; 1] s_ind ->
  take [[fz 0; fz 1]; [fz 0; fz 2]] s_ind
  <> take [[fz 0; fz 2]; [fz 0; fz 1]] s_ind.
Proof.
  intros Hp. apply Permutation_length_2_inv in Hp.
  destruct Hp as [-> | ->]; vm_compute; discriminate.
Qed.

(** C5 as stated fails on tied starts.  [A] holds the interval [0, 1] and
    [B] the interval [0, 2]; they satisfy the merge preconditions.
    [A.add_times(B)] leaves the rows [0,1], [0,2] and [B.add_times(A)]
    leaves [0,2], [0,1]: the sort key is the start alone. *)
Lemma add_times_tied_starts_differ :
  key_set_eqb (keys (data gd_tie_a)) (keys (data gd_tie_b)) = true /\
  String.eqb (coordnames gd_tie_a) (coordnames gd_tie_b) = true /\
  allequal (ma_array (dataloc gd_tie_a)) (ma_array (dataloc gd_tie_b)) = Ok true /\
  allequal (ma_array (sensorloc gd_tie_a)) (ma_array (sensorloc gd_tie_b)) = Ok true /\
  outcome (add_times gd_tie_b gd_tie_a) = Ok tt /\
  outcome (add_times gd_tie_a gd_tie_b) = Ok tt /\
  times (final_state (add_times gd_tie_b gd_tie_a))
  = Arr2 2 [[fz 0; fz 1]; [fz 0; fz 2]] /\
  times (final_state (add_times gd_tie_a gd_tie_b))
  = Arr2 2 [[fz 0; fz 2]; [fz 0; fz 1]] /\
  times (final_state (add_times gd_tie_b gd_tie_a))
  <> times (final_state (add_times gd_tie_a gd_tie_b)).
Proof.
  repeat split; try reflexivity.
  vm_compute. discriminate.
Qed.

(** ** The monads *)

Lemma mapW_ok_inv {A B} (f : A -> W B) (l : list A) (ys : list B) (w : list warning) :
  mapW f l = (Ok ys, w) ->
  length ys = length l /\
  forall i x, nth_error l i = Some x ->
              exists y wi, f x = (Ok y, wi) /\ nth_error ys i = Some y /\ incl wi w.
Proof.
  revert ys w. induction l as [|a l IH]; intros ys w H; simpl in H.
  - inversion H; subst. split; [reflexivity|]. intros [|i] x; discriminate.
  - unfold bindW in H. destruct (f a) as [[y|e] w1] eqn:Ea; [|discriminate].
    destruct (mapW f l) as [[ys'|e] w2] eqn:El; [|discriminate].
    simpl in H. inversion H; subst. clear H.
    destruct (IH ys' w2 eq_refl) as [Hlen Hnth].
    split; [simpl; now rewrite Hlen|].
    intros [|i] x Hx; simpl in Hx.
    + inversion Hx; subst. exists y, w1. repeat split; [exact Ea|].
      now apply incl_appl.
    + destruct (Hnth i x Hx) as (y' & wi & Hf & Hy & Hincl).
      exists y', wi. repeat split; try assumption.
      apply incl_appr. rewrite app_nil_r. exact Hincl.
Qed.

Lemma time_steps_length (t : ndarray) : length (time_steps t) = shape0 t.
Proof.
  unfold time_steps. rewrite length_combine, length_seq.
  destruct t; simpl; rewrite length_map; apply Nat.min_id.
Qed.

(** ** The full-field loop of [interpolate] *)

Section FullLoop.
Context `{Externals}.
Variables (cc nc' : ndarray) (m : string) (fill : fnum) (bm : beammask_t)
          (N : nat).

Lemma interp_field_inv (k : string) (s : GeoData) r s' w :
  interp_field cc nc' m fill bm N k s = (r, s', w) ->
  (exists arr cols,
      dict_get k (data s) = Some arr /\
      mapW (interp_step k arr cc nc' m fill bm N) (time_steps (times s)) = (Ok cols, w) /\
      r = Ok tt /\
      s' = with_data (dict_set k (from_columns N cols) (data s)) s)
  \/ (exists e, r = Raise e /\ s' = s).
Proof.
  unfold interp_field, bindM, getM, liftRM, liftM, modifyM, lookup.
  destruct (dict_get k (data s)) as [arr|] eqn:Ek.
  - destruct (mapW (interp_step k arr cc nc' m fill bm N) (time_steps (times s)))
      as [[cols|e] w1] eqn:Em;
      simpl; intros Heq; inversion Heq; subst.
    + left. exists arr, cols. rewrite app_nil_r. auto.
    + right. eauto.
  - simpl. intros Heq; inversion Heq; subst. right. eauto.
Qed.

Lemma interp_field_frame (k : string) (s : GeoData) r s' w :
  interp_field cc nc' m fill bm N k s = (r, s', w) -> same_frame s s'.
Proof.
  intros Hb. apply interp_field_inv in Hb.
  destruct Hb as [(arr & cols & Hk & _ & _ & ->)|(e & _ & ->)].
  - repeat split. simpl. apply keys_dict_set. apply dict_get_In. eauto.
  - repeat split.
Qed.

Lemma same_frame_trans (s1 s2 s3 : GeoData) :
  same_frame s1 s2 -> same_frame s2 s3 -> same_frame s1 s3.
Proof.
  unfold same_frame. intros (a1 & a2 & a3 & a4 & a5 & a6) (b1 & b2 & b3 & b4 & b5 & b6).
  repeat split; congruence.
Qed.

Lemma interp_field_other (k k' : string) (s : GeoData) r s' w :
  interp_field cc nc' m fill bm N k s = (r, s', w) -> k' <> k ->
  dict_get k' (data s') = dict_get k' (data s).
Proof.
  intros Hb Hne. apply interp_field_inv in Hb.
  destruct Hb as [(arr & cols & _ & _ & _ & ->)|(e & _ & ->)]; [|reflexivity].
  simpl. rewrite dict_get_set.
  destruct (String.eqb k' k) eqn:E; [|reflexivity].
  apply String.eqb_eq in E. contradiction.
Qed.

(** The loop ran to its end: every field it visited is on the new grid. *)
Lemma full_loop_ok (ks : list string) :
  NoDup ks ->
  forall s s' w,
    forM_ ks (interp_field cc nc' m fill bm N) s = (Ok tt, s', w) ->
    same_frame s s' /\
    (forall k, ~ In k ks -> dict_get k (data s') = dict_get k (data s)) /\
    (forall k, In k ks ->
               exists arr cols wk,
                 dict_get k (data s) = Some arr /\
                 mapW (interp_step k arr cc nc' m fill bm N) (time_steps (times s)) = (Ok cols, wk) /\
                 incl wk w /\
                 dict_get k (data s') = Some (from_columns N cols)).
Proof.
  induction 1 as [|k ks Hnotin Hnd IH]; intros s s' w Hrun; simpl in Hrun.
  - inversion Hrun; subst. repeat split. intros k [].
  - unfold bindM in Hrun.
    destruct (interp_field cc nc' m fill bm N k s) as [[[[]|e] s1] w1] eqn:Eb; [|discriminate].
    destruct (forM_ ks (interp_field cc nc' m fill bm N) s1) as [[r2 s2] w2] eqn:El.
    inversion Hrun; subst. clear Hrun.
    destruct (IH _ _ _ El) as (Hfr & Hout & Hin).
    assert (Hfr1 := interp_field_frame _ _ _ _ _ Eb).
    split; [eapply same_frame_trans; eassumption|].
    split.
    + intros k' Hk'. rewrite Hout by (intros ?; apply Hk'; now right).
      eapply interp_field_other; [exact Eb|]. intros ->. apply Hk'. now left.
    + intros k' [<-|Hk'].
      * apply interp_field_inv in Eb.
        destruct Eb as [(arr & cols & Hk & Hm & _ & ->)|(e & He & _)];
          [|discriminate].
        exists arr, cols, w1. repeat split; try assumption.
        -- now apply incl_appl.
        -- rewrite (Hout k Hnotin). simpl. rewrite dict_get_set.
           now rewrite String.eqb_refl.
      * destruct (Hin k' Hk') as (arr & cols & wk & Ha & Hm & Hi & Hd).
        assert (Hne : k' <> k) by (intros ->; contradiction).
        exists arr, cols, wk.
        rewrite <- (interp_field_other _ _ _ _ _ _ Eb Hne).
        destruct Hfr1 as (Ht & _). rewrite <- Ht.
        repeat split; try assumption. now apply incl_appr.
Qed.

Lemma interp_field_raise_inv (k : string) (s : GeoData) e s' w :
  interp_field cc nc' m fill bm N k s = (Raise e, s', w) ->
  s' = s /\
  (dict_get k (data s) = None \/
   exists arr,
     dict_get k (data s) = Some arr /\
     mapW (interp_step k arr cc nc' m fill bm N) (time_steps (times s))
     = (Raise e, w)).
Proof.
  unfold interp_field, bindM, getM, liftRM, liftM, modifyM, lookup.
  destruct (dict_get k (data s)) as [arr|] eqn:Ek.
  - destruct (mapW (interp_step k arr cc nc' m fill bm N) (time_steps (times s)))
      as [[cols|e1] w1] eqn:Em;
      simpl; intros Heq; inversion Heq; subst.
    split; [reflexivity|]. right. exists arr. split; [reflexivity | exact Em].
  - simpl. intros Heq; inversion Heq; subst. split; [reflexivity | now left].
Qed.

(** The loop stopped on an exception: every field before the failing one
    holds its interpolated array, the failing field and the fields after
    it are as they were. *)
Lemma full_loop_fail (ks : list string) :
  NoDup ks ->
  forall s e s' w,
    forM_ ks (interp_field cc nc' m fill bm N) s = (Raise e, s', w) ->
    same_frame s s' /\
    exists done kf rest,
      ks = done ++ kf :: rest /\
      (forall k, In k done ->
                 exists arr cols wk,
                   dict_get k (data s) = Some arr /\
                   mapW (interp_step k arr cc nc' m fill bm N)
                        (time_steps (times s)) = (Ok cols, wk) /\
                   dict_get k (data s') = Some (from_columns N cols)) /\
      (dict_get kf (data s) = None \/
       exists arr wk,
         dict_get kf (data s) = Some arr /\
         mapW (interp_step kf arr cc nc' m fill bm N)
              (time_steps (times s)) = (Raise e, wk)) /\
      (forall k, ~ In k done -> dict_get k (data s') = dict_get k (data s)).
Proof.
  induction 1 as [|k ks Hnotin Hnd IH]; intros s e s' w Hrun; simpl in Hrun.
  - discriminate.
  - unfold bindM in Hrun.
    destruct (interp_field cc nc' m fill bm N k s) as [[[[]|e1] s1] w1] eqn:Eb.
    + destruct (forM_ ks (interp_field cc nc' m fill bm N) s1) as [[r2 s2] w2] eqn:El.
      inversion Hrun; subst. clear Hrun.
      destruct (IH _ _ _ _ El)
        as (Hfr & done & kf & rest & -> & Hdone & Hkf & Hrest).
      assert (Hfr1 := interp_field_frame _ _ _ _ _ Eb).
      assert (Ht : times s1 = times s) by (destruct Hfr1 as (Ht & _); exact Ht).
      assert (Hother : forall k', In k' (done ++ kf :: rest) ->
                dict_get k' (data s1) = dict_get k' (data s)).
      { intros k' Hk'. eapply interp_field_other; [exact Eb|].
        intros ->. contradiction. }
      split; [eapply same_frame_trans; eassumption|].
      exists (k :: done), kf, rest. split; [reflexivity|]. split; [|split].
      * intros k' [<-|Hk'].
        -- assert (Hk : ~ In k done)
             by (intros Hd; apply Hnotin, in_or_app; now left).
           rewrite (Hrest k Hk).
           apply interp_field_inv in Eb.
           destruct Eb as [(arr & cols & Ha & Hm & _ & ->)|(e' & He & _)];
             [|discriminate].
           exists arr, cols, w1. repeat split; try assumption.
           simpl. now rewrite dict_get_set, String.eqb_refl.
        -- destruct (Hdone k' Hk') as (arr & cols & wk & Ha & Hm & Hd).
           exists arr, cols, wk.
           rewrite <- (Hother k') by (apply in_or_app; now left).
           rewrite <- Ht. repeat split; assumption.
      * assert (Hin : In kf (done ++ kf :: rest))
          by (apply in_or_app; right; now left).
        rewrite <- (Hother kf Hin), <- Ht. exact Hkf.
      * intros k' Hk'.
        rewrite Hrest by (intros ?; apply Hk'; now right).
        eapply interp_field_other; [exact Eb|]. intros ->. apply Hk'. now left.
    + inversion Hrun; subst. clear Hrun.
      destruct (interp_field_raise_inv _ _ _ _ _ Eb) as [-> Hwhy].
      split; [repeat split|].
      exists [], k, ks. split; [reflexivity|]. split; [intros k' []|].
      split; [|reflexivity].
      destruct Hwhy as [Hnone|(arr & Ha & Hm)]; [now left|].
      right. exists arr, w. split; assumption.
Qed.
End FullLoop.

(** ** The prelude of [interpolate] *)

Lemma twod_reduce_shape0 (nc cc cc' nc' : ndarray) :
  twod_reduce nc cc = Ok (cc', nc') -> shape0 nc' = shape0 nc.
Proof.
  unfold twod_reduce.
  destruct nc as [|c rn|]; try discriminate.
  destruct cc as [|c' ro|]; try discriminate.
  destruct (py_index rn 0); [|discriminate].
  destruct (py_index ro 0); [|discriminate]. cbn [bindR].
  destruct (mapR _ _) as [keep|]; [|discriminate]. cbn [bindR].
  destruct (bool_index_cols (Arr2 c' ro) keep); [|discriminate]. cbn [bindR].
  unfold bool_index_cols.
  destruct (length keep =? c); [|discriminate]. cbn [bindR].
  intros Heq; inversion Heq; subst. simpl. apply length_map.
Qed.

Lemma changecoords_inv `{Externals} (ncn : string) (g : GeoData) r g' w :
  __changecoords__ ncn g = (r, g', w) -> g' = g /\ w = [].
Proof.
  unfold __changecoords__, bindM, getM, liftRM, retM, raiseM.
  repeat match goal with
         | |- context [if ?c then _ else _] => destruct c
         end;
    simpl;
    repeat match goal with
           | |- context [match ?x with Ok _ => _ | Raise _ => _ end] => destruct x
           end;
    intros Heq; inversion Heq; auto.
Qed.

Lemma interp_prelude_inv `{Externals} (nc : ndarray) (ncn m : string)
  (twod : bool) (g : GeoData) r g' w :
  interp_prelude nc ncn m twod g = (r, g', w) ->
  g' = g /\ w = [] /\
  forall cc nc', r = Ok (cc, nc') -> shape0 nc' = shape0 nc.
Proof.
  unfold interp_prelude.
  unfold bindM at 1. unfold assertM at 1.
  destruct ((ndim nc =? 2) && (nth 1 (shape nc) 0 =? 3));
    [|intros Heq; inversion Heq; repeat split; discriminate].
  unfold retM at 1.
  unfold bindM at 1. unfold assertM at 1.
  destruct (mem_key m interpmethods);
    [|intros Heq; inversion Heq; repeat split; discriminate].
  unfold retM at 1.
  unfold bindM at 1. unfold assertM at 1. unfold retM at 1.
  unfold bindM at 1.
  destruct (__changecoords__ ncn g) as [[[cc|e] s1] w1] eqn:Ec;
    destruct (changecoords_inv _ _ _ _ _ Ec) as [-> ->];
    [|intros Heq; inversion Heq; repeat split; discriminate].
  unfold liftRM.
  destruct twod.
  - destruct (twod_reduce nc cc) as [[cc' nc']|e] eqn:Et;
      intros Heq; inversion Heq; subst; repeat split; try discriminate.
    intros cc0 nc0 E0. inversion E0; subst.
    eapply twod_reduce_shape0; eassumption.
  - intros Heq; inversion Heq; subst. repeat split.
    intros cc0 nc0 E0. now inversion E0.
Qed.

Section WholeCall.
Context `{Externals}.
Variables (nc : ndarray) (ncn m : string) (fill : fnum) (twod : bool)
          (bm : beammask_t).

(** What the full-field path does once the prelude has produced the
    coordinates: run the loop, then swap locations and tag. *)
Lemma full_path_run (cc nc' : ndarray) (N : nat) (g : GeoData) :
  full_path nc cc nc' ncn m fill bm N g =
  match forM_ (keys (data g)) (interp_field cc nc' m fill bm N) g with
  | (Ok _, s1, w) => (Ok None, with_coordnames ncn (with_dataloc nc s1), w)
  | (Raise e, s1, w) => (Raise e, s1, w)
  end.
Proof.
  unfold full_path, bindM, getM, modifyM, retM. cbn [app].
  destruct (forM_ _ _ g) as [[[u|e] s1] w]; [|reflexivity].
  now rewrite !app_nil_r.
Qed.

Lemma interpolate_run (ikey : option string) (g : GeoData) :
  interpolate nc ncn m fill twod ikey bm g =
  match interp_prelude nc ncn m twod g with
  | (Ok (cc, nc'), _, _) =>
      match ikey with
      | None => full_path nc cc nc' ncn m fill bm (shape0 nc') g
      | Some k =>
          if negb (mem_key k (keys (data g)))
          then full_path nc cc nc' ncn m fill bm (shape0 nc') g
          else single_path k cc nc' m fill (shape0 nc') g
      end
  | (Raise e, _, _) => (Raise e, g, [])
  end.
Proof.
  unfold interpolate. unfold bindM at 1.
  destruct (interp_prelude nc ncn m twod g) as [[[[cc nc']|e] s1] w1] eqn:Ep;
    destruct (interp_prelude_inv _ _ _ _ _ _ _ _ Ep) as (-> & -> & _);
    [|reflexivity].
  unfold bindM at 1. unfold getM at 1.
  destruct ikey as [k|]; [destruct (negb (mem_key k (keys (data g))))|].
  - destruct (full_path _ _ _ _ _ _ _ _ _) as [[? ?] ?]. reflexivity.
  - destruct (single_path _ _ _ _ _ _ _) as [[? ?] ?]. reflexivity.
  - destruct (full_path _ _ _ _ _ _ _ _ _) as [[? ?] ?]. reflexivity.
Qed.
End WholeCall.

Lemma NoDup_app_disjoint {A} (a b : list A) (x : A) :
  NoDup (a ++ b) -> In x b -> ~ In x a.
Proof.
  induction a as [|y a IH]; simpl; intros Hnd Hb Ha; [exact Ha|].
  inversion Hnd as [|? ? Hy Hnd']; subst.
  destruct Ha as [->|Ha].
  - apply Hy, in_or_app. now right.
  - exact (IH Hnd' Hb Ha).
Qed.

(** ** What a time step yields *)

Lemma mask_step_kept_samples (k : string) (curparam cp : list fnum)
  (cc coordkeep : ndarray) (bm : beammask_t) :
  mask_step k curparam cc bm = Ok (cp, coordkeep) <->
  kept_samples k curparam cc bm cp coordkeep.
Proof.
  unfold mask_step, kept_samples.
  destruct (String.eqb_spec k "optical") as [->|Hne]; cbn [negb].
  - split.
    + intros Heq; inversion Heq; subst. left. auto.
    + intros [(_ & -> & ->)|(Hne & _)]; [reflexivity|]. now contradiction Hne.
  - split.
    + intros Heq. right. split; [exact Hne|].
      destruct (mask_and (map isfinite curparam) bm) as [dfmask|] eqn:Em;
        [|discriminate]. cbn [bindR] in Heq.
      destruct (bool_index curparam dfmask) as [cp'|] eqn:Eb; [|discriminate].
      cbn [bindR] in Heq.
      destruct (bool_index_rows cc dfmask) as [ck|] eqn:Er; [|discriminate].
      cbn [bindR] in Heq. inversion Heq; subst. exists dfmask. auto.
    + intros [(-> & _)|(_ & dfmask & Hm & Hb & Hr)]; [contradiction|].
      rewrite Hm. cbn [bindR]. rewrite Hb. cbn [bindR]. rewrite Hr. reflexivity.
Qed.

Lemma interp_step_ok_inv `{Externals} (k : string) (arr cc nc' : ndarray)
  (m : string) (fill : fnum) (bm : beammask_t) (N itime : nat)
  (tim0 : result fnum) (col : list fnum) (wi : list warning) :
  interp_step k arr cc nc' m fill bm N (itime, tim0) = (Ok col, wi) ->
  step_column k arr cc nc' m fill bm N itime col /\
  (wi = [] \/
   exists t0 date,
     tim0 = Ok t0 /\ fromtimestamp t0 = Ok date /\ wi = [WarnNoData k date]).
Proof.
  unfold interp_step, step_column.
  destruct (field_at arr itime) as [curparam|] eqn:Ef; [|discriminate].
  cbn [liftR bindW].
  destruct (mask_step k curparam cc bm) as [[cp ck]|] eqn:Em; [|discriminate].
  cbn [liftR bindW]. apply mask_step_kept_samples in Em.
  destruct (0 <? shape0 ck) eqn:E0.
  - apply Nat.ltb_lt in E0.
    destruct (griddata ck cp nc' m fill) as [ip|] eqn:Eg; [|discriminate].
    cbn [liftR bindW].
    destruct (assign_column N ip) as [c|] eqn:Ea; [|discriminate].
    cbn [app]. intros Heq; inversion Heq; subst. split; [|now left].
    exists curparam, cp, ck. split; [reflexivity|]. split; [exact Em|].
    left. split; [exact E0|]. exists ip. auto.
  - apply Nat.ltb_ge in E0.
    destruct tim0 as [t0|]; [|discriminate]. cbn [liftR bindW].
    destruct (fromtimestamp t0) as [date|] eqn:Et; [|discriminate].
    cbn [liftR bindW warnW retW app].
    intros Heq; inversion Heq; subst. split.
    + exists curparam, cp, ck. split; [reflexivity|]. split; [exact Em|].
      right. split; [lia | reflexivity].
    + right. exists t0, date. auto.
Qed.

Lemma combine_seq_nth {A} (l : list A) (a n i j : nat) (x : A) :
  nth_error (combine (seq a n) l) i = Some (j, x) -> j = a + i.
Proof.
  revert a l i. induction n as [|n IH]; intros a l i; simpl;
    [destruct i; discriminate|].
  destruct l as [|y l]; [destruct i; discriminate|].
  destruct i as [|i]; simpl.
  - intros Hs; inversion Hs; lia.
  - intros Hs. apply IH in Hs. lia.
Qed.

Lemma mapW_raise_inv {A B} (f : A -> W B) (l : list A) (e : exn)
  (w : list warning) :
  mapW f l = (Raise e, w) ->
  exists i x, nth_error l i = Some x /\ fst (f x) = Raise e.
Proof.
  revert w. induction l as [|a l IH]; intros w Hm; simpl in Hm; [discriminate|].
  unfold bindW in Hm. destruct (f a) as [[y|e1] w1] eqn:Ea.
  - destruct (mapW f l) as [[ys|e2] w2] eqn:El; simpl in Hm; [discriminate|].
    inversion Hm; subst. destruct (IH _ eq_refl) as (i & x & Hx & Hf).
    exists (S i), x. auto.
  - inversion Hm; subst. exists 0, a. split; [reflexivity|]. now rewrite Ea.
Qed.

Lemma steps_interpolated `{Externals} (k : string) (arr cc nc' : ndarray)
  (m : string) (fill : fnum) (bm : beammask_t) (t : ndarray)
  (cols : list (list fnum)) (w : list warning) :
  mapW (interp_step k arr cc nc' m fill bm (shape0 nc')) (time_steps t)
  = (Ok cols, w) ->
  interpolated k arr cc nc' m fill bm (shape0 t)
               (from_columns (shape0 nc') cols).
Proof.
  intros Hm. destruct (mapW_ok_inv _ _ _ _ Hm) as [Hlen Hnth].
  exists cols. split; [reflexivity|].
  split; [now rewrite Hlen, time_steps_length|].
  intros itime col Hc.
  assert (Hlt : itime < length (time_steps t))
    by (rewrite <- Hlen; apply nth_error_Some; congruence).
  destruct (nth_error (time_steps t) itime) as [[j tim0]|] eqn:Es;
    [|apply nth_error_None in Es; lia].
  assert (Hj : j = itime)
    by (unfold time_steps in Es; apply combine_seq_nth in Es; lia).
  subst j.
  destruct (Hnth itime _ Es) as (y & wi & Hstep & Hy & _).
  rewrite Hc in Hy. inversion Hy; subst y.
  exact (proj1 (interp_step_ok_inv _ _ _ _ _ _ _ _ _ _ _ _ Hstep)).
Qed.

Lemma steps_fail `{Externals} (k : string) (arr cc nc' : ndarray)
  (m : string) (fill : fnum) (bm : beammask_t) (t : ndarray) (e : exn)
  (w : list warning) :
  mapW (interp_step k arr cc nc' m fill bm (shape0 nc')) (time_steps t)
  = (Raise e, w) ->
  step_fails k arr cc nc' m fill bm t e.
Proof.
  intros Hm. apply mapW_raise_inv in Hm.
  destruct Hm as (i & [j tim0] & Hx & Hf).
  assert (Hj : j = i)
    by (unfold time_steps in Hx; apply combine_seq_nth in Hx; lia).
  subst j. exists i, tim0. split; assumption.
Qed.

(** The call ran through the full-field path to its end. *)
Lemma full_call_ok `{Externals} (nc : ndarray) (ncn m : string) (fill : fnum)
  (twod : bool) (bm : beammask_t) (g g' : GeoData)
  (r : option ndarray) (w : list warning) :
  NoDup (keys (data g)) ->
  interpolate nc ncn m fill twod None bm g = (Ok r, g', w) ->
  r = None /\
  dataloc g' = nc /\ coordnames g' = ncn /\
  times g' = times g /\ sensorloc g' = sensorloc g /\
  expdesc g' = expdesc g /\ keys (data g') = keys (data g) /\
  exists cc nc',
    interp_prelude nc ncn m twod g = (Ok (cc, nc'), g, []) /\
    shape0 nc' = shape0 nc /\
    forall k, In k (keys (data g)) ->
      exists old new wk,
        dict_get k (data g) = Some old /\
        mapW (interp_step k old cc nc' m fill bm (shape0 nc'))
             (time_steps (times g)) = (Ok new, wk) /\
        incl wk w /\
        dict_get k (data g') = Some (from_columns (shape0 nc') new).
Proof.
  intros Hnd Hrun. rewrite interpolate_run in Hrun.
  destruct (interp_prelude nc ncn m twod g) as [[[[cc nc']|e] s1] w1] eqn:Ep;
    [|discriminate].
  destruct (interp_prelude_inv _ _ _ _ _ _ _ _ Ep) as (-> & -> & Hshape).
  specialize (Hshape cc nc' eq_refl).
  rewrite full_path_run in Hrun.
  destruct (forM_ _ _ g) as [[[[]|e] s2] w2] eqn:El; [|discriminate].
  inversion Hrun; subst. clear Hrun.
  destruct (full_loop_ok _ _ _ _ _ _ _ Hnd _ _ _ El) as (Hfr & _ & Hin).
  destruct Hfr as (Ht & _ & _ & Hs & He & Hkeys).
  repeat (split; [first [reflexivity | assumption]|]).
  exists cc, nc'. split; [reflexivity|]. split; [exact Hshape|].
  intros k Hk. destruct (Hin k Hk) as (arr & cols & wk & Ha & Hm & Hi & Hd).
  exists arr, cols, wk. repeat split; assumption.
Qed.

(** C10 (as amended): a selector that is given but is not a field name
    behaves as no selector at all: the call is the full-field call, with
    the same result, final object and log, so the unknown name raises
    nothing of its own and no array is returned.  When the call completes
    it has replaced, in place, the locations, the coordinate-system tag and
    every field, each by its interpolation onto the new locations; an
    error of the full-field path is raised as it is without a selector. *)
Theorem interpolate_unknown_key `{Externals}
  (nc : ndarray) (ncn m : string) (fill : fnum) (twod : bool)
  (bm : beammask_t) (k : string) (g : GeoData)
  (Hk : mem_key k (keys (data g)) = false) :
  interpolate nc ncn m fill twod (Some k) bm g
  = interpolate nc ncn m fill twod None bm g
  /\
  (forall r g' w,
      NoDup (keys (data g)) ->
      interpolate nc ncn m fill twod (Some k) bm g = (Ok r, g', w) ->
      r = None /\
      dataloc g' = nc /\ coordnames g' = ncn /\
      times g' = times g /\
      keys (data g') = keys (data g) /\
      exists cc nc',
        interp_prelude nc ncn m twod g = (Ok (cc, nc'), g, []) /\
        shape0 nc' = shape0 nc /\
        forall k', In k' (keys (data g)) ->
          exists old new,
            dict_get k' (data g) = Some old /\
            interpolated k' old cc nc' m fill bm (shape0 (times g)) new /\
            dict_get k' (data g') = Some new /\
            on_grid (shape0 nc) (shape0 (times g)) new)
  /\
  (forall e g' w,
      interpolate nc ncn m fill twod (Some k) bm g = (Raise e, g', w) ->
      interpolate nc ncn m fill twod None bm g = (Raise e, g', w)).
Proof.
  assert (Heq : interpolate nc ncn m fill twod (Some k) bm g
                = interpolate nc ncn m fill twod None bm g).
  { rewrite !interpolate_run.
    destruct (interp_prelude nc ncn m twod g) as [[[[cc nc']|e] s1] w1];
      [|reflexivity].
    now rewrite Hk. }
  split; [exact Heq|]. split; [|intros e g' w Hrun; now rewrite <- Heq].
  intros r g' w Hnd Hrun. rewrite Heq in Hrun.
  destruct (full_call_ok _ _ _ _ _ _ _ _ _ _ Hnd Hrun)
    as (Hr & Hl & Hc & Ht & _ & _ & Hkeys & cc & nc' & Hp & Hshape & Hall).
  repeat (split; [assumption|]).
  exists cc, nc'. split; [exact Hp|]. split; [exact Hshape|].
  intros k' Hk'. destruct (Hall k' Hk') as (old & cols & wk & Ha & Hm & _ & Hd).
  exists old, (from_columns (shape0 nc') cols).
  split; [exact Ha|]. split; [now apply steps_interpolated with (w := wk)|].
  split; [exact Hd|].
  exists cols. rewrite Hshape. split; [reflexivity|].
  apply mapW_ok_inv in Hm. destruct Hm as [Hlen _].
  now rewrite Hlen, time_steps_length.
Qed.

Lemma interpolate_unknown_key_witness :
  mem_key "zz" (keys (data gd_gap)) = false /\
  @interpolate standin target3 "Cartesian" "nearest" (fz 99) false (Some "zz")
               (MaskScalar true) gd_gap
  = (Ok None,
     mkGeoData [("ne", Arr2 2 [[NaN; fz 7]; [NaN; fz 8]; [NaN; fz 8]])]
               "Cartesian" target3 ex_sensor
               (Arr2 2 [[fz 0; fz 60]; [fz 60; fz 120]]) "",
     [WarnNoData "ne" (fz 0)]) /\
  @interpolate standin target3 "Cartesian" "nearest" (fz 99) false (Some "zz")
               (MaskScalar true) gd_gap
  = @interpolate standin target3 "Cartesian" "nearest" (fz 99) false None
                 (MaskScalar true) gd_gap.
Proof.
  split; [reflexivity|]. split; [reflexivity|].
  apply (@interpolate_unknown_key standin). reflexivity.
Defined.

(** C10 as stated fails: an unknown selector does not keep the call from
    raising.  On a dataset whose second field has rank 1 the call with the
    selector ["zz"] takes the full-field path, replaces the first field,
    and raises the module's own ['incorrect data matrix shape'] on the
    second; locations and tag are not replaced. *)
Lemma interpolate_unknown_key_raises :
  mem_key "zz" (keys (data gd_bad_rank)) = false /\
  @interpolate standin target3 "Cartesian" "nearest" NaN false (Some "zz")
               (MaskScalar true) gd_bad_rank
  = (Raise (ValueError "incorrect data matrix shape"),
     mkGeoData [("ne", Arr2 1 [[fz 7]; [fz 8]; [fz 8]]); ("te", Arr1 [fz 1; fz 2])]
               "Cartesian" ex_loc ex_sensor (Arr2 2 [[fz 0; fz 60]]) "",
     []) /\
  shape0 ex_loc = 2 /\ shape0 target3 = 3.
Proof. repeat split; reflexivity. Qed.

(** C3 (as amended): the full-field rewrite is not atomic.  Each field is
    replaced as soon as its array is computed; locations and
    coordinate-system tag are replaced after the last field.  When the
    call fails, the locations, the tag, the times and the field names are
    as before.  Either nothing was touched (the failure came before the
    first field), or the fields split into those before the field whose
    interpolation raised, each of which already holds its interpolation
    onto the new locations, and that field with the fields after it, which
    hold their old arrays. *)
Theorem interpolate_failure_state `{Externals}
  (nc : ndarray) (ncn m : string) (fill : fnum) (twod : bool)
  (bm : beammask_t) (g g' : GeoData) (e : exn) (w : list warning)
  (Hnd : NoDup (keys (data g)))
  (Hrun : interpolate nc ncn m fill twod None bm g = (Raise e, g', w)) :
  same_frame g g' /\
  ((g' = g /\ outcome (interp_prelude nc ncn m twod g) = Raise e)
   \/
   exists cc nc' done kf rest arr,
     interp_prelude nc ncn m twod g = (Ok (cc, nc'), g, []) /\
     shape0 nc' = shape0 nc /\
     keys (data g) = done ++ kf :: rest /\
     (forall k, In k done ->
        exists old new,
          dict_get k (data g) = Some old /\
          interpolated k old cc nc' m fill bm (shape0 (times g)) new /\
          dict_get k (data g') = Some new) /\
     dict_get kf (data g) = Some arr /\
     step_fails kf arr cc nc' m fill bm (times g) e /\
     (forall k, In k (kf :: rest) ->
        dict_get k (data g') = dict_get k (data g))).
Proof.
  rewrite interpolate_run in Hrun.
  destruct (interp_prelude nc ncn m twod g) as [[[[cc nc']|e0] s1] w1] eqn:Ep.
  - destruct (interp_prelude_inv _ _ _ _ _ _ _ _ Ep) as (-> & -> & Hshape).
    specialize (Hshape cc nc' eq_refl).
    rewrite full_path_run in Hrun.
    destruct (forM_ _ _ g) as [[[[]|e1] s2] w2] eqn:El; [discriminate|].
    inversion Hrun; subst. clear Hrun.
    destruct (full_loop_fail _ _ _ _ _ _ _ Hnd _ _ _ _ El)
      as (Hfr & done & kf & rest & Hsplit & Hdone & Hkf & Hrest).
    split; [exact Hfr|]. right.
    assert (Hin : In kf (keys (data g)))
      by (rewrite Hsplit; apply in_or_app; right; now left).
    destruct Hkf as [Hnone|(arr & wk & Ha & Hm)].
    { apply dict_get_In in Hin. destruct Hin as [v Hv]. congruence. }
    exists cc, nc', done, kf, rest, arr.
    split; [reflexivity|]. split; [exact Hshape|]. split; [exact Hsplit|].
    split; [|split; [exact Ha|split]].
    + intros k Hk. destruct (Hdone k Hk) as (old & cols & wk' & Ho & Hmo & Hd).
      exists old, (from_columns (shape0 nc') cols).
      split; [exact Ho|]. split; [|exact Hd].
      now apply steps_interpolated with (w := wk').
    + now apply steps_fail with (w := wk).
    + intros k Hk. apply Hrest.
      rewrite Hsplit in Hnd. now apply (NoDup_app_disjoint done (kf :: rest)).
  - inversion Hrun; subst. split; [repeat split|].
    left. split; reflexivity.
Qed.

Lemma interpolate_failure_state_witness :
  NoDup (keys (data gd_bad_frame)) /\
  exists g',
    final_state (@interpolate standin target3 "Cartesian" "nearest" NaN false
                              None (MaskScalar true) gd_bad_frame) = g' /\
    dict_get "ne" (data g') = Some (Arr2 1 [[fz 7]; [fz 8]; [fz 8]]) /\
    dict_get "optical" (data g') = dict_get "optical" (data gd_bad_frame) /\
    same_frame gd_bad_frame g'.
Proof.
  assert (Hnd : NoDup (keys (data gd_bad_frame))).
  { repeat constructor; simpl; intuition discriminate. }
  split; [exact Hnd|].
  eexists. split; [reflexivity|]. split; [reflexivity|]. split; [reflexivity|].
  eapply (@interpolate_failure_state standin target3 "Cartesian" "nearest" NaN
            false (MaskScalar true) gd_bad_frame _ _ _ Hnd).
  reflexivity.
Defined.

(** C3 as stated fails.  The routine rejects the second field (four
    samples for two locations) after the first field has been processed:
    the call raises, and it leaves field ["ne"] with three rows, one per
    new location, next to the two old locations and the old second field.
    The same happens when the module itself rejects a rank-1 field. *)
Lemma interpolate_failure_changes_dataset :
  (outcome (@interpolate standin target3 "Cartesian" "nearest" NaN false None
                         (MaskScalar true) gd_bad_frame)
   = Raise (ValueError "different number of values and points") /\
   final_state (@interpolate standin target3 "Cartesian" "nearest" NaN false None
                             (MaskScalar true) gd_bad_frame)
   = mkGeoData [("ne", Arr2 1 [[fz 7]; [fz 8]; [fz 8]]);
                ("optical", Arr3 2 2 [[[fz 1; fz 2]; [fz 3; fz 4]]])]
               "Cartesian" ex_loc ex_sensor (Arr2 2 [[fz 0; fz 60]]) "" /\
   final_state (@interpolate standin target3 "Cartesian" "nearest" NaN false None
                             (MaskScalar true) gd_bad_frame)
   <> gd_bad_frame /\
   shape0 (Arr2 1 [[fz 7]; [fz 8]; [fz 8]]) = 3 /\ shape0 ex_loc = 2)
  /\
  (outcome (@interpolate standin target3 "Cartesian" "nearest" NaN false None
                         (MaskScalar true) gd_bad_rank)
   = Raise (ValueError "incorrect data matrix shape") /\
   final_state (@interpolate standin target3 "Cartesian" "nearest" NaN false None
                             (MaskScalar true) gd_bad_rank)
   = mkGeoData [("ne", Arr2 1 [[fz 7]; [fz 8]; [fz 8]]); ("te", Arr1 [fz 1; fz 2])]
               "Cartesian" ex_loc ex_sensor (Arr2 2 [[fz 0; fz 60]]) "").
Proof.
  repeat split; try reflexivity.
  vm_compute. discriminate.
Qed.

(** ** Time steps without samples *)














(* ================================================================== *)
(** * Further properties *)

(** ** [timerepair]: edge cases *)

(** X1: on a flat array [timerepair] fails exactly when the array is
    empty, with an index error; on any other flat array it returns a
    table with one row per instant whose start column is the input. *)
Theorem timerepair_flat_total_but_empty (dt : dtype) (xs : list fnum) :
  match xs with
  | [] => timerepair dt (Arr1 xs)
          = (Raise (IndexError "index out of bounds"), [])
  | _ => exists rows w,
           timerepair dt (Arr1 xs) = (Ok (Arr2 2 rows), w) /\
           length rows = length xs /\
           map row_start rows = xs
  end.
Proof.
  destruct xs as [|x [|y tl]].
  - reflexivity.
  - eexists; eexists. split; [reflexivity|]. split; reflexivity.
  - change (timerepair dt (Arr1 (x :: y :: tl)))
      with (timerepair_flat dt (x :: y :: tl)).
    rewrite timerepair_flat_two_or_more.
    eexists; eexists. split; [reflexivity|].
    assert (Hlen : length (x :: y :: tl)
                   = length ((y :: tl) ++
                             [astype dt (fadd (last (y :: tl) NaN)
                                              (mean (diff (x :: y :: tl))))]))
      by (rewrite length_app; simpl; lia).
    split; [now apply zip_rows_length|].
    now apply column0_zip_rows.
Qed.

(** X3: whatever [timerepair] returns is an (N,2) table, so a second
    application returns it as it is and logs nothing: normalising twice
    is normalising once. *)
Theorem timerepair_twice (dt dt' : dtype) (t t' : ndarray) (w : list warning)
  (H : timerepair dt t = (Ok t', w)) :
  (exists rows, t' = Arr2 2 rows) /\ timerepair dt' t' = (Ok t', []).
Proof.
  destruct (timerepair_output_canonical _ _ _ _ H) as [rows ->].
  split; [now exists rows | reflexivity].
Qed.

Lemma timerepair_twice_witness :
  timerepair Float64 (Arr1 [fz 100])
  = (Ok (Arr2 2 [[fz 100; Fin (100 + 60)]]), [WarnTimearSize1]) /\
  timerepair Float64 (Arr2 2 [[fz 100; Fin (100 + 60)]])
  = (Ok (Arr2 2 [[fz 100; Fin (100 + 60)]]), []).
Proof.
  split; [reflexivity|].
  exact (proj2 (timerepair_twice Float64 Float64 (Arr1 [fz 100]) _ _ eq_refl)).
Defined.

(** X4: a rank-2 time array whose second dimension is not 2 is read in
    row-major order as a flat array of instants: an (N,1) column gives
    what the flat array gives, and an (N,3) array is taken as 3N
    instants. *)
Theorem timerepair_flattens_other_widths (dt : dtype) (c : nat)
  (rows : list (list fnum))
  (H : c <> 2) :
  timerepair dt (Arr2 c rows) = timerepair dt (Arr1 (concat rows)).
Proof. destruct c as [|[|[|c]]]; try reflexivity. contradiction. Qed.

Lemma timerepair_flattens_other_widths_witness :
  3 <> 2 /\
  timerepair Float64 (Arr2 3 [[fz 0; fz 1; fz 2]; [fz 3; fz 4; fz 5]])
  = timerepair Float64 (Arr1 [fz 0; fz 1; fz 2; fz 3; fz 4; fz 5]).
Proof.
  split; [discriminate|].
  apply (timerepair_flattens_other_widths Float64 3). discriminate.
Defined.

(** ** [timeregister]: the shape of a returned range *)

Lemma flt_irrefl (a : fnum) : flt a a = false.
Proof.
  destruct a as [|x]; [reflexivity|]. simpl.
  destruct (x ?= x)%Q eqn:E; try reflexivity.
  apply Qlt_alt in E. lra.
Qed.

Lemma flt_asym (a b : fnum) : flt a b = true -> flt b a = false.
Proof.
  destruct a as [|x], b as [|y]; try discriminate. simpl.
  destruct (x ?= y)%Q eqn:E; try discriminate. intros _.
  apply Qlt_alt in E.
  destruct (y ?= x)%Q eqn:E'; try reflexivity.
  apply Qlt_alt in E'. lra.
Qed.

Lemma mapR_nth {A B} (f : A -> result B) (l : list A) (ys : list B)
  (k : nat) (x : A) (y : B) :
  mapR f l = Ok ys -> nth_error l k = Some x -> nth_error ys k = Some y ->
  f x = Ok y.
Proof.
  revert ys k. induction l as [|a l IH]; intros ys k Hm Hx Hy.
  - destruct k; discriminate.
  - simpl in Hm. destruct (f a) as [b|] eqn:Ea; [|discriminate].
    destruct (mapR f l) as [bs|] eqn:El; [|discriminate].
    simpl in Hm. inversion Hm; subst ys. clear Hm.
    destruct k as [|k]; simpl in Hx, Hy.
    + inversion Hx; subst. now inversion Hy; subst.
    + eapply IH; [reflexivity | exact Hx | exact Hy].
Qed.

Lemma timeregister_cell_at (self self2 : GeoData)
  (rows1 rows2 : list (list fnum)) (out : list (list nat))
  (k : nat) (s1 e1 : fnum) (cell : list nat) :
  times self = Arr2 2 rows1 -> times self2 = Arr2 2 rows2 ->
  timeregister self self2 = (Ok out, []) ->
  nth_error rows1 k = Some [s1; e1] ->
  nth_error out k = Some cell ->
  timeregister_row (Arr2 2 rows2) [s1; e1] = Ok cell.
Proof.
  intros H1 H2 Hrun Hk Hc.
  rewrite (timeregister_normalized _ _ _ _ H1 H2) in Hrun.
  unfold liftR in Hrun. inversion Hrun as [Hm]. clear Hrun.
  exact (mapR_nth _ _ _ _ _ _ Hm Hk Hc).
Qed.

Lemma starts_before_dec (rows2 : list (list fnum)) (s1 : fnum) :
  (exists j, starts_before rows2 s1 j) \/ ~ (exists j, starts_before rows2 s1 j).
Proof.
  destruct (argwhere (map (fun r => flt (row_start r) s1) rows2)) as [|a l] eqn:E.
  - right. intros [j Hj]. apply argwhere_In_map in Hj. rewrite E in Hj. exact Hj.
  - left. exists a. apply argwhere_In_map. rewrite E. now left.
Qed.

Lemma ends_after_dec (rows2 : list (list fnum)) (e1 : fnum) :
  (exists j, ends_after rows2 e1 j) \/ ~ (exists j, ends_after rows2 e1 j).
Proof.
  destruct (argwhere (map (fun r => flt e1 (row_end r)) rows2)) as [|a l] eqn:E.
  - right. intros [j Hj]. apply argwhere_In_map in Hj. rewrite E in Hj. exact Hj.
  - left. exists a. apply argwhere_In_map. rewrite E. now left.
Qed.

(** X5: in every non-empty range [timeregister] returns for a row
    [s1, e1], the first index is a row of the second table that starts
    before [s1], the last index is a row that ends after [e1], and
    every row strictly between the two neither starts before [s1] nor ends
    after [e1]: only the two end rows can reach outside the interval. *)
Theorem timeregister_range_shape (self self2 : GeoData)
  (rows1 rows2 : list (list fnum)) (out : list (list nat))
  (k : nat) (s1 e1 : fnum) (cell : list nat)
  (H1 : times self = Arr2 2 rows1) (H2 : times self2 = Arr2 2 rows2)
  (Hrun : timeregister self self2 = (Ok out, []))
  (Hk : nth_error rows1 k = Some [s1; e1])
  (Hc : nth_error out k = Some cell)
  (Hne : cell <> []) :
  starts_before rows2 s1 (hd 0 cell) /\
  ends_after rows2 e1 (last cell 0) /\
  forall i r,
    In i cell -> hd 0 cell < i < last cell 0 ->
    nth_error rows2 i = Some r ->
    flt (row_start r) s1 = false /\ flt e1 (row_end r) = false.
Proof.
  assert (Hrow := timeregister_cell_at _ _ _ _ _ _ _ _ _ H1 H2 Hrun Hk Hc).
  destruct (timeregister_row_rule rows2 s1 e1)
    as (cell' & Hc' & Hempty & Hrange).
  rewrite Hrow in Hc'. inversion Hc'; subst cell'. clear Hc'.
  destruct (starts_before_dec rows2 s1) as [HA|HA];
    [|exfalso; apply Hne, Hempty; now left].
  destruct (ends_after_dec rows2 e1) as [HB|HB];
    [|exfalso; apply Hne, Hempty; now right].
  destruct (Hrange HA HB) as (i1 & i2 & [L1 M1] & [L2 M2] & _ & _ & ->).
  assert (Hlen : 0 < i2 + 1 - i1)
    by (destruct (i2 + 1 - i1) eqn:E;
        [exfalso; apply Hne; rewrite ?E; reflexivity | lia]).
  assert (Hhd : hd 0 (seq i1 (i2 + 1 - i1)) = i1)
    by (destruct (i2 + 1 - i1) eqn:E; [lia | reflexivity]).
  assert (Hlast : last (seq i1 (i2 + 1 - i1)) 0 = i2).
  { destruct (i2 + 1 - i1) as [|n] eqn:E; [lia|].
    rewrite seq_S, last_last. lia. }
  rewrite Hhd, Hlast. split; [exact L1|]. split; [exact L2|].
  intros i r _ [Hlo Hhi] Hr. split.
  - destruct (flt (row_start r) s1) eqn:E; [|reflexivity].
    assert (Hin : starts_before rows2 s1 i) by (exists r; auto).
    specialize (M1 i Hin). lia.
  - destruct (flt e1 (row_end r)) eqn:E; [|reflexivity].
    assert (Hin : ends_after rows2 e1 i) by (exists r; auto).
    specialize (M2 i Hin). lia.
Qed.

Lemma timeregister_range_shape_witness :
  timeregister gd_long gd_three = (Ok [[0; 1; 2]], []) /\
  starts_before [[fz 0; fz 10]; [fz 10; fz 20]; [fz 20; fz 30]] (fz 5) 0 /\
  ends_after [[fz 0; fz 10]; [fz 10; fz 20]; [fz 20; fz 30]] (fz 25) 2.
Proof.
  split; [reflexivity|].
  destruct (timeregister_range_shape gd_long gd_three
              [[fz 5; fz 25]] [[fz 0; fz 10]; [fz 10; fz 20]; [fz 20; fz 30]]
              [[0; 1; 2]] 0 (fz 5) (fz 25) [0; 1; 2]
              eq_refl eq_refl eq_refl eq_refl eq_refl)
    as (Ha & Hb & _); [discriminate|].
  split; [exact Ha | exact Hb].
Defined.

(** X6: registering a dataset against itself, for a table whose starts and
    ends both increase strictly: the first and the last row get the
    empty sequence, every other row [k] gets [k-1, k, k+1].  A row never
    matches on its own, because both comparisons are strict. *)
Theorem timeregister_self (self : GeoData) (rows : list (list fnum))
  (H : times self = Arr2 2 rows)
  (Hwf : wf_table rows = true)
  (Hinc : strictly_increasing rows) :
  exists out,
    timeregister self self = (Ok out, []) /\
    length out = length rows /\
    forall k, k < length rows ->
      nth_error out k
      = Some (if (k =? 0) || (S k =? length rows) then []
              else [k - 1; k; k + 1]).
Proof.
  rewrite (timeregister_normalized _ _ _ _ H H).
  destruct (mapR_total (timeregister_row (Arr2 2 rows)) rows)
    as (out & Hout & Hlen & Hnth).
  { intros r Hr. destruct (wf_table_row _ _ Hwf Hr) as (s & e & ->).
    destruct (timeregister_row_rule rows s e) as (cell & Hc & _). eauto. }
  exists out. unfold liftR. rewrite Hout. split; [reflexivity|].
  split; [exact Hlen|].
  intros k Hk.
  destruct (nth_error rows k) as [rk|] eqn:Erk;
    [|apply nth_error_None in Erk; lia].
  destruct (Hnth _ _ Erk) as (cell & Hcell & Hrow).
  rewrite Hcell. f_equal.
  destruct (wf_table_row _ _ Hwf (nth_error_In _ _ Erk)) as (s & e & ->).
  assert (HA : forall j, starts_before rows s j <-> j < k).
  { intros j. split.
    - intros (r & Hr & Hlt).
      destruct (Nat.lt_trichotomy j k) as [Hjk|[->|Hjk]]; [exact Hjk| |].
      + rewrite Erk in Hr. inversion Hr; subst r.
        unfold row_start in Hlt. simpl in Hlt. now rewrite flt_irrefl in Hlt.
      + destruct (Hinc k j _ _ Hjk Erk Hr) as [Hs _].
        unfold row_start in Hs at 1. simpl in Hs.
        now rewrite (flt_asym _ _ Hs) in Hlt.
    - intros Hjk.
      destruct (nth_error rows j) as [r|] eqn:Er;
        [|apply nth_error_None in Er; lia].
      exists r. split; [exact Er|].
      now destruct (Hinc j k _ _ Hjk Er Erk). }
  assert (HB : forall j, ends_after rows e j <-> k < j < length rows).
  { intros j. split.
    - intros (r & Hr & Hlt).
      assert (Hjn : j < length rows) by (apply nth_error_Some; congruence).
      split; [|exact Hjn].
      destruct (Nat.lt_trichotomy j k) as [Hjk|[->|Hjk]]; [| |exact Hjk].
      + destruct (Hinc j k _ _ Hjk Hr Erk) as [_ He].
        unfold row_end in He at 2. simpl in He.
        now rewrite (flt_asym _ _ He) in Hlt.
      + rewrite Erk in Hr. inversion Hr; subst r.
        unfold row_end in Hlt. simpl in Hlt. now rewrite flt_irrefl in Hlt.
    - intros [Hkj Hjn].
      destruct (nth_error rows j) as [r|] eqn:Er;
        [|apply nth_error_None in Er; lia].
      exists r. split; [exact Er|].
      now destruct (Hinc k j _ _ Hkj Erk Er). }
  destruct (timeregister_row_rule rows s e) as (cell' & Hc' & Hempty & Hrange).
  rewrite Hrow in Hc'. inversion Hc'; subst cell'. clear Hc'.
  destruct (k =? 0) eqn:E0.
  - apply Nat.eqb_eq in E0. subst k. apply Hempty. left.
    intros [j Hj]. apply HA in Hj. lia.
  - apply Nat.eqb_neq in E0. destruct (S k =? length rows) eqn:En.
    + apply Nat.eqb_eq in En. apply Hempty. right.
      intros [j Hj]. apply HB in Hj. lia.
    + apply Nat.eqb_neq in En. simpl.
      destruct Hrange as (i1 & i2 & [L1 M1] & [L2 M2] & _ & _ & ->).
      * exists (k - 1). apply HA. lia.
      * exists (k + 1). apply HB. lia.
      * apply HA in L1. apply HB in L2.
        assert (Hk1 : k - 1 <= i1) by (apply M1, HA; lia).
        assert (Hk2 : i2 <= k + 1) by (apply M2, HB; lia).
        replace i1 with (k - 1) by lia. replace i2 with (k + 1) by lia.
        replace (k + 1 + 1 - (k - 1)) with 3 by lia.
        destruct k as [|k]; [lia|]. simpl.
        rewrite Nat.sub_0_r. repeat f_equal; lia.
Qed.

Lemma timeregister_self_witness :
  wf_table [[fz 0; fz 10]; [fz 10; fz 20]; [fz 20; fz 30]] = true /\
  strictly_increasing [[fz 0; fz 10]; [fz 10; fz 20]; [fz 20; fz 30]] /\
  timeregister gd_three gd_three = (Ok [[]; [0; 1; 2]; []], []) /\
  exists out, timeregister gd_three gd_three = (Ok out, []) /\ length out = 3.
Proof.
  assert (Hinc : strictly_increasing [[fz 0; fz 10]; [fz 10; fz 20]; [fz 20; fz 30]]).
  { intros i j ri rj Hij Hi Hj.
    destruct i as [|[|[|i]]]; destruct j as [|[|[|j]]]; simpl in Hi, Hj;
      try lia; try discriminate;
      try (destruct j; discriminate); try (destruct i; discriminate);
      inversion Hi; inversion Hj; subst; split; reflexivity. }
  split; [reflexivity|]. split; [exact Hinc|]. split; [reflexivity|].
  destruct (timeregister_self gd_three _ eq_refl eq_refl Hinc)
    as (out & Hrun & Hlen & _).
  exists out. split; [exact Hrun | exact Hlen].
Defined.

(** ** [add_times]: what it rejects, what it keeps, how it permutes *)

(** X7: when one of the four checks of [add_times] fails (field names,
    coordinate system, locations, sensor location, in that order), the
    call raises an assertion error with the message of the first failing
    check, and the object is left exactly as it was. *)
Theorem add_times_rejects (A B : GeoData) (msg : string)
  (H : first_failed_check A B = Some msg) :
  add_times B A = (Raise (AssertionError msg), A, []).
Proof.
  unfold first_failed_check in H. unfold add_times.
  unfold bindM at 1. unfold getM at 1.
  unfold bindM at 1.
  destruct (key_set_eqb (keys (data A)) (keys (data B)));
    [|simpl in H; inversion H; reflexivity].
  unfold assertM at 1, retM at 1. unfold bindM at 1.
  destruct (String.eqb (coordnames A) (coordnames B));
    [|simpl in H; inversion H; reflexivity].
  unfold assertM at 1, retM at 1. simpl negb in H. cbv iota in H.
  unfold bindM at 1. unfold liftRM at 1.
  destruct (allequal (ma_array (dataloc A)) (ma_array (dataloc B)))
    as [[|]|]; try discriminate; [|inversion H; reflexivity].
  unfold bindM at 1. unfold assertM at 1, retM at 1.
  unfold bindM at 1. unfold liftRM at 1.
  destruct (allequal (ma_array (sensorloc A)) (ma_array (sensorloc B)))
    as [[|]|]; try discriminate.
  inversion H. reflexivity.
Qed.

Lemma add_times_rejects_witness :
  first_failed_check gd_inner gd_elsewhere
  = Some "Location points must be the same" /\
  add_times gd_elsewhere gd_inner
  = (Raise (AssertionError "Location points must be the same"), gd_inner, []).
Proof.
  split; [reflexivity|].
  apply add_times_rejects. reflexivity.
Defined.

Section Preserves.
Context {T : Type} (proj : GeoData -> T).

Lemma preserves_bind {A B} (c : M A) (k : A -> M B) :
  preserves proj c -> (forall a, preserves proj (k a)) ->
  preserves proj (bindM c k).
Proof.
  intros Hc Hk s r s' w. unfold bindM.
  destruct (c s) as [[[a|e] s1] w1] eqn:Ec.
  - destruct (k a s1) as [[r2 s2] w2] eqn:Ek.
    intros Heq; inversion Heq; subst.
    rewrite (Hk _ _ _ _ _ Ek). eapply Hc; eassumption.
  - intros Heq; inversion Heq; subst. eapply Hc; eassumption.
Qed.

Lemma preserves_pure {A} (c : M A) :
  (forall s, exists r w, c s = (r, s, w)) -> preserves proj c.
Proof.
  intros Hc s r s' w Heq. destruct (Hc s) as (r0 & w0 & E).
  rewrite E in Heq. now inversion Heq.
Qed.

Lemma preserves_getM : preserves proj getM.
Proof. apply preserves_pure. intros s. now exists (Ok s), []. Qed.

Lemma preserves_retM {A} (a : A) : preserves proj (retM a).
Proof. apply preserves_pure. intros s. now exists (Ok a), []. Qed.

Lemma preserves_assertM (b : bool) (msg : string) :
  preserves proj (assertM b msg).
Proof.
  apply preserves_pure. intros s. destruct b; eexists; eexists; reflexivity.
Qed.

Lemma preserves_liftRM {A} (r : result A) : preserves proj (liftRM r).
Proof. apply preserves_pure. intros s. now exists r, []. Qed.

Lemma preserves_liftM {A} (c : W A) : preserves proj (liftM c).
Proof. apply preserves_pure. intros s. now exists (fst c), (snd c). Qed.

Lemma preserves_modifyM (f : GeoData -> GeoData) :
  (forall s, proj (f s) = proj s) -> preserves proj (modifyM f).
Proof. intros Hf s r s' w Heq. inversion Heq; subst. apply Hf. Qed.

Lemma preserves_forM_ {A} (l : list A) (body : A -> M unit) :
  (forall x, preserves proj (body x)) -> preserves proj (forM_ l body).
Proof.
  intros Hb. unfold preserves. eapply forM_preserves.
  intros x s r s' w. apply Hb.
Qed.
End Preserves.

Lemma add_times_field_frame (B : GeoData) (idx : list nat) (k : string) :
  preserves merge_frame (add_times_field B idx k).
Proof.
  intros s r s' w.
  unfold add_times_field, bindM, getM, liftRM, modifyM, lookup.
  destruct (dict_get k (data s)) as [a|] eqn:Ek;
    [|intros H; inversion H; reflexivity].
  destruct (dict_get k (data B)); [|intros H; inversion H; reflexivity].
  destruct (hstack a n); [|intros H; inversion H; reflexivity].
  destruct (take_cols a0 idx); intros H; inversion H; [|reflexivity].
  unfold merge_frame. simpl. f_equal. apply keys_dict_set.
  apply dict_get_In. eauto.
Qed.

(** X8: whatever its outcome, [add_times] leaves the coordinate-system
    tag, the locations, the sensor location, the description and the list
    of field names of the object as they were: only the time table and the
    field arrays are ever replaced. *)
Theorem add_times_frame (A B : GeoData) :
  merge_frame (final_state (add_times B A)) = merge_frame A.
Proof.
  assert (Hp : preserves merge_frame (add_times B)).
  { unfold add_times.
    repeat (apply preserves_bind;
            [first [ apply preserves_getM | apply preserves_assertM
                   | apply preserves_liftRM | apply preserves_liftM
                   | apply preserves_modifyM; reflexivity ]
            | intros ? ]).
    apply preserves_forM_. intros k. apply add_times_field_frame. }
  unfold final_state.
  destruct (add_times B A) as [[r s'] w] eqn:E. simpl.
  exact (Hp _ _ _ _ E).
Qed.

Lemma add_times_field_inv (B : GeoData) (idx : list nat) (k : string)
  (s : GeoData) r s' w :
  add_times_field B idx k s = (r, s', w) ->
  w = [] /\
  ((exists a b h v,
       dict_get k (data s) = Some a /\ dict_get k (data B) = Some b /\
       hstack a b = Ok h /\ take_cols h idx = Ok v /\
       r = Ok tt /\ s' = with_data (dict_set k v (data s)) s)
   \/ (exists e, r = Raise e /\ s' = s)).
Proof.
  unfold add_times_field, bindM, getM, liftRM, modifyM, lookup.
  destruct (dict_get k (data s)) as [a|] eqn:Ea;
    [|intros H; inversion H; split; [reflexivity | right; eauto]].
  destruct (dict_get k (data B)) as [b|] eqn:Eb;
    [|intros H; inversion H; split; [reflexivity | right; eauto]].
  destruct (hstack a b) as [h|] eqn:Eh;
    [|intros H; inversion H; split; [reflexivity | right; eauto]].
  destruct (take_cols h idx) as [v|] eqn:Ev;
    intros H; inversion H; (split; [reflexivity|]).
  - left. exists a, b, h, v. repeat split; assumption.
  - right. eauto.
Qed.

Lemma add_times_loop_ok (B : GeoData) (idx : list nat) (ks : list string) :
  NoDup ks ->
  forall s s' w,
    forM_ ks (add_times_field B idx) s = (Ok tt, s', w) ->
    (forall k, ~ In k ks -> dict_get k (data s') = dict_get k (data s)) /\
    (forall k, In k ks ->
               exists a b h v,
                 dict_get k (data s) = Some a /\ dict_get k (data B) = Some b /\
                 hstack a b = Ok h /\ take_cols h idx = Ok v /\
                 dict_get k (data s') = Some v).
Proof.
  induction 1 as [|k ks Hnotin Hnd IH]; intros s s' w Hrun; simpl in Hrun.
  - inversion Hrun; subst. split; [reflexivity|]. intros k [].
  - unfold bindM in Hrun.
    destruct (add_times_field B idx k s) as [[[[]|e] s1] w1] eqn:Eb;
      [|discriminate].
    destruct (forM_ ks (add_times_field B idx) s1) as [[r2 s2] w2] eqn:El.
    inversion Hrun; subst. clear Hrun.
    destruct (IH _ _ _ El) as (Hout & Hin).
    destruct (add_times_field_inv _ _ _ _ _ _ _ Eb)
      as (_ & [(a & b & h & v & Ha & Hb & Hh & Hv & _ & ->)|(e & He & _)]);
      [|discriminate].
    assert (Hother : forall k', k' <> k ->
              dict_get k' (data (with_data (dict_set k v (data s)) s))
              = dict_get k' (data s)).
    { intros k' Hne. simpl. rewrite dict_get_set.
      destruct (String.eqb k' k) eqn:E; [|reflexivity].
      apply String.eqb_eq in E. contradiction. }
    split.
    + intros k' Hk'. rewrite Hout by (intros ?; apply Hk'; now right).
      apply Hother. intros ->. apply Hk'. now left.
    + intros k' [<-|Hk'].
      * exists a, b, h, v. repeat split; try assumption.
        rewrite (Hout k Hnotin). simpl. rewrite dict_get_set.
        now rewrite String.eqb_refl.
      * destruct (Hin k' Hk') as (a' & b' & h' & v' & Ha' & Hb' & Hh' & Hv' & Hd').
        exists a', b', h', v'. repeat split; try assumption.
        rewrite <- Hother; [exact Ha'|]. intros ->. contradiction.
Qed.

(** With the checks passed, [add_times] is its loop over the fields, run
    on the object whose time table has already been replaced. *)
Lemma add_times_run (A B : GeoData) (rowsA rowsB : list (list fnum))
  (wA wB : list warning) :
  merge_preconditions A B ->
  timerepair Float64 (times A) = (Ok (Arr2 2 rowsA), wA) ->
  timerepair Float64 (times B) = (Ok (Arr2 2 rowsB), wB) ->
  forall r s' w,
    forM_ (keys (data A))
          (add_times_field B (argsort (map row_start (rowsA ++ rowsB))))
          (with_times (Arr2 2 (map snd (isort_by (map keyed (rowsA ++ rowsB))))) A)
    = (r, s', w) ->
    exists w', add_times B A = (r, s', w').
Proof.
  intros (Hk & Hc & Hl & Hs) HA HB r s' w Hloop.
  unfold add_times.
  unfold bindM at 1. unfold getM at 1.
  unfold bindM at 1. rewrite Hk. unfold assertM at 1, retM at 1.
  unfold bindM at 1. rewrite Hc. unfold assertM at 1, retM at 1.
  unfold bindM at 1. unfold liftRM at 1. rewrite Hl.
  unfold bindM at 1. unfold assertM at 1, retM at 1.
  unfold bindM at 1. unfold liftRM at 1. rewrite Hs.
  unfold bindM at 1. unfold assertM at 1, retM at 1.
  unfold bindM at 1. unfold liftM at 1. rewrite HA. cbn [fst snd].
  unfold bindM at 1. unfold liftM at 1. rewrite HB. cbn [fst snd].
  unfold bindM at 1. unfold liftRM at 1.
  change (vstack (Arr2 2 rowsA) (Arr2 2 rowsB)) with (Ok (Arr2 2 (rowsA ++ rowsB))).
  unfold bindM at 1. unfold liftRM at 1.
  change (column 0 (Arr2 2 (rowsA ++ rowsB)))
    with (Ok (map row_start (rowsA ++ rowsB))).
  unfold bindM at 1. unfold liftRM at 1.
  unfold take_rows. rewrite take_argsort_rows. cbn [bindR].
  unfold bindM at 1. unfold modifyM at 1.
  rewrite Hloop. eexists. reflexivity.
Qed.

Lemma map_snd_combine_seq {A} (l : list A) (k : nat) :
  map snd (combine l (seq k (length l))) = seq k (length l).
Proof.
  revert k. induction l as [|x l IH]; intros k; [reflexivity|].
  simpl. now rewrite IH.
Qed.

Lemma argsort_perm (ks : list fnum) :
  Permutation (argsort ks) (seq 0 (length ks)).
Proof.
  unfold argsort. rewrite <- (map_snd_combine_seq ks 0) at 2.
  apply Permutation_map, isort_by_perm.
Qed.

(** X9: when [add_times] completes, one index vector, a permutation of the
    positions 0..n-1 of the concatenated time axis, has been applied both
    to the rows of the stacked time tables and to the columns of every
    stacked field: column [j] of each field and row [j] of the time table
    come from the same position. *)
Theorem add_times_aligned (A B : GeoData) (rowsA rowsB : list (list fnum))
  (wA wB : list warning)
  (Hpre : merge_preconditions A B)
  (HA : timerepair Float64 (times A) = (Ok (Arr2 2 rowsA), wA))
  (HB : timerepair Float64 (times B) = (Ok (Arr2 2 rowsB), wB))
  (Hnd : NoDup (keys (data A)))
  (Hok : outcome (add_times B A) = Ok tt) :
  exists s_ind newrows,
    Permutation s_ind (seq 0 (length (rowsA ++ rowsB))) /\
    take (rowsA ++ rowsB) s_ind = Ok newrows /\
    times (final_state (add_times B A)) = Arr2 2 newrows /\
    forall k a b,
      dict_get k (data A) = Some a -> dict_get k (data B) = Some b ->
      exists h v,
        hstack a b = Ok h /\ take_cols h s_ind = Ok v /\
        dict_get k (data (final_state (add_times B A))) = Some v.
Proof.
  set (s_ind := argsort (map row_start (rowsA ++ rowsB))).
  set (newrows := map snd (isort_by (map keyed (rowsA ++ rowsB)))).
  destruct (forM_ (keys (data A)) (add_times_field B s_ind)
                  (with_times (Arr2 2 newrows) A)) as [[r s'] w] eqn:Eloop.
  destruct (add_times_run A B rowsA rowsB wA wB Hpre HA HB _ _ _ Eloop)
    as [w' Hrun].
  rewrite Hrun in *. unfold outcome, final_state in *. simpl in Hok. subst r.
  cbn [fst snd].
  destruct (add_times_loop_ok B s_ind _ Hnd _ _ _ Eloop) as (_ & Hin).
  exists s_ind, newrows.
  split; [subst s_ind; rewrite <- (length_map row_start); apply argsort_perm|].
  split; [apply take_argsort_rows|].
  split.
  - apply (forM_preserves times) in Eloop; [rewrite Eloop; reflexivity|].
    intros. eapply add_times_field_times; eassumption.
  - intros k a b Ha Hb.
    destruct (Hin k) as (a' & b' & h & v & Ha' & Hb' & Hh & Hv & Hd);
      [apply dict_get_In; eauto|].
    simpl in Ha'. rewrite Ha in Ha'. rewrite Hb in Hb'.
    inversion Ha'; inversion Hb'; subst a' b'.
    exists h, v. auto.
Qed.

Lemma add_times_aligned_witness :
  merge_preconditions gd_inner gd_outer /\
  NoDup (keys (data gd_inner)) /\
  outcome (add_times gd_outer gd_inner) = Ok tt /\
  exists s_ind newrows,
    take ([[fz 5; fz 6]] ++ [[fz 0; fz 10]]) s_ind = Ok newrows /\
    times (final_state (add_times gd_outer gd_inner)) = Arr2 2 newrows.
Proof.
  assert (Hpre : merge_preconditions gd_inner gd_outer)
    by (repeat split; reflexivity).
  assert (Hnd : NoDup (keys (data gd_inner)))
    by (repeat constructor; simpl; tauto).
  split; [exact Hpre|]. split; [exact Hnd|]. split; [reflexivity|].
  destruct (add_times_aligned gd_inner gd_outer [[fz 5; fz 6]] [[fz 0; fz 10]]
                              [] [] Hpre eq_refl eq_refl Hnd eq_refl)
    as (s_ind & newrows & _ & Ht & Htimes & _).
  exists s_ind, newrows. split; [exact Ht | exact Htimes].
Defined.

(** ** [__eq__]: which laws of an equivalence hold *)

Lemma with_data_same (g : GeoData) : with_data (data g) g = g.
Proof. now destruct g. Qed.

(** Two objects that differ in their field arrays at most compare as
    their fields do. *)
Lemma eq_with_data (g : GeoData) (d1 d2 : dict) :
  keys d1 = keys d2 ->
  __eq__ (with_data d1 g) (with_data d2 g) = eq_fields (keys d1) d1 d2.
Proof.
  intros Hk. unfold __eq__. simpl. rewrite <- Hk, key_set_eqb_refl. simpl.
  destruct (eq_fields (keys d1) d1 d2) as [[|]|]; simpl; try reflexivity.
  rewrite String.eqb_refl. simpl. now rewrite !allequal_refl.
Qed.

Lemma eq_base_with_data (g : GeoData) (d2 : dict) :
  keys (data g) = keys d2 ->
  __eq__ g (with_data d2 g) = eq_fields (keys (data g)) (data g) d2.
Proof.
  intros Hk. rewrite <- (eq_with_data g (data g) d2 Hk).
  now rewrite with_data_same.
Qed.

Lemma eq_fields_self (ks : list string) (d : dict) :
  (forall k, In k ks -> In k (keys d)) -> eq_fields ks d d = Ok true.
Proof.
  intros H. apply eq_fields_true. intros k Hk.
  apply H, dict_get_In in Hk. destruct Hk as [v Hv].
  exists v, v. repeat split; try assumption. apply allequal_refl.
Qed.

(** X10: every dataset equals itself, not-a-number entries included, and
    the description plays no part in the comparison: a dataset and the
    same dataset under another description are equal. *)
Theorem eq_reflexive_ignores_description (g : GeoData) (e' : string) :
  __eq__ g g = Ok true /\
  __eq__ g (mkGeoData (data g) (coordnames g) (dataloc g) (sensorloc g)
                      (times g) e') = Ok true.
Proof.
  assert (H : forall e1 e2,
             __eq__ (mkGeoData (data g) (coordnames g) (dataloc g)
                               (sensorloc g) (times g) e1)
                    (mkGeoData (data g) (coordnames g) (dataloc g)
                               (sensorloc g) (times g) e2) = Ok true).
  { intros e1 e2. unfold __eq__. simpl. rewrite key_set_eqb_refl. simpl.
    rewrite eq_fields_self by auto. simpl.
    rewrite String.eqb_refl. simpl. now rewrite !allequal_refl. }
  split.
  - specialize (H (expdesc g) (expdesc g)). now destruct g.
  - specialize (H (expdesc g) e'). now destruct g.
Qed.

Lemma eq_fields_true_inv (ks : list string) (d1 d2 : dict) :
  eq_fields ks d1 d2 = Ok true ->
  forall k, In k ks ->
            exists a b, dict_get k d1 = Some a /\ dict_get k d2 = Some b /\
                        allequal (ma_array a) (ma_array b) = Ok true.
Proof.
  induction ks as [|k0 ks IH]; intros H k Hk; [destruct Hk|].
  simpl in H. unfold lookup in H.
  destruct (dict_get k0 d1) as [a|] eqn:Ea; [|discriminate].
  destruct (dict_get k0 d2) as [b|] eqn:Eb; [|discriminate].
  simpl in H.
  destruct (allequal (ma_array a) (ma_array b)) as [[|]|] eqn:Eab;
    simpl in H; try discriminate.
  destruct Hk as [<-|Hk]; [eauto | now apply IH].
Qed.

(** X11: equality is symmetric where it holds: if [a == b] is true then
    [b == a] is true. *)
Theorem eq_symmetric_on_true (a b : GeoData) (H : __eq__ a b = Ok true) :
  __eq__ b a = Ok true.
Proof.
  unfold __eq__ in H.
  destruct (key_set_eqb (keys (data a)) (keys (data b))) eqn:Ek;
    [|discriminate].
  simpl in H.
  destruct (eq_fields (keys (data a)) (data a) (data b)) as [[|]|] eqn:Ef;
    simpl in H; try discriminate.
  destruct (String.eqb (coordnames a) (coordnames b)) eqn:Ec;
    simpl in H; [|discriminate].
  destruct (allequal (ma_array (dataloc a)) (ma_array (dataloc b)))
    as [[|]|] eqn:El; simpl in H; try discriminate.
  destruct (allequal (ma_array (sensorloc a)) (ma_array (sensorloc b)))
    as [[|]|] eqn:Es; simpl in H; try discriminate.
  destruct (allequal (ma_array (times a)) (ma_array (times b)))
    as [[|]|] eqn:Et; simpl in H; try discriminate.
  unfold __eq__.
  assert (Ek' : key_set_eqb (keys (data b)) (keys (data a)) = true)
    by (unfold key_set_eqb in *; now rewrite andb_comm).
  rewrite Ek'. simpl.
  assert (Ef' : eq_fields (keys (data b)) (data b) (data a) = Ok true).
  { apply eq_fields_true. intros k Hk.
    assert (Hka : In k (keys (data a))).
    { unfold key_set_eqb in Ek'. apply andb_true_iff in Ek'.
      destruct Ek' as [Hall _]. rewrite forallb_forall in Hall.
      now apply mem_key_In, Hall. }
    destruct (eq_fields_true_inv _ _ _ Ef k Hka) as (x & y & Hx & Hy & Hxy).
    exists y, x. repeat split; try assumption. now rewrite allequal_sym. }
  rewrite Ef'. simpl.
  rewrite String.eqb_sym, Ec. simpl.
  rewrite allequal_sym, El. simpl.
  rewrite allequal_sym, Es. simpl.
  now rewrite allequal_sym, Et.
Qed.

Lemma eq_symmetric_on_true_witness :
  __eq__ gd_finite gd_nan_at_3 = Ok true /\
  __eq__ gd_nan_at_3 gd_finite = Ok true.
Proof.
  split; [reflexivity|].
  apply eq_symmetric_on_true. reflexivity.
Defined.

Lemma nth_error_combine_In {A B} (l : list A) (l' : list B) (i : nat)
  (x : A) (y : B) :
  nth_error l i = Some x -> nth_error l' i = Some y -> In (x, y) (combine l l').
Proof.
  revert l l'. induction i as [|i IH]; intros [|a l] [|b l'] Hx Hy;
    try discriminate; simpl in *.
  - inversion Hx; inversion Hy; subst. now left.
  - right. now apply IH.
Qed.

Lemma allequal_differs (a a' : ndarray) (i : nat) (q q' : Q) :
  shape a' = shape a ->
  nth_error (ravel a) i = Some (Fin q) ->
  nth_error (ravel a') i = Some (Fin q') ->
  ~ (q == q')%Q ->
  allequal (ma_array a) (ma_array a') = Ok false.
Proof.
  intros Hs Hi Hi' Hne.
  rewrite allequal_elementwise by congruence. f_equal.
  destruct (forallb _ _) eqn:E; [|reflexivity].
  rewrite forallb_forall in E.
  specialize (E _ (nth_error_combine_In _ _ _ _ _ Hi Hi')).
  unfold masked_eq_elem in E. simpl in E.
  apply Qeq_bool_iff in E. contradiction.
Qed.

Lemma eq_fields_false (ks : list string) (d1 d2 : dict) (k : string) :
  In k ks ->
  (forall k', In k' ks -> k' <> k ->
              exists a b, dict_get k' d1 = Some a /\ dict_get k' d2 = Some b /\
                          allequal (ma_array a) (ma_array b) = Ok true) ->
  (exists a b, dict_get k d1 = Some a /\ dict_get k d2 = Some b /\
               allequal (ma_array a) (ma_array b) = Ok false) ->
  eq_fields ks d1 d2 = Ok false.
Proof.
  intros Hin Hothers (a & b & Ha & Hb & Hab).
  induction ks as [|k0 ks IH]; [destruct Hin|].
  simpl. unfold lookup.
  destruct (String.eqb k0 k) eqn:E.
  - apply String.eqb_eq in E. subst k0. rewrite Ha, Hb. simpl.
    now rewrite Hab.
  - assert (Hne : k0 <> k) by (intros ->; rewrite String.eqb_refl in E; discriminate).
    destruct (Hothers k0) as (x & y & Hx & Hy & Hxy); [now left | exact Hne|].
    rewrite Hx, Hy. simpl. rewrite Hxy. simpl.
    apply IH.
    + destruct Hin as [->|Hin]; [contradiction | exact Hin].
    + intros k' Hk' Hne'. apply Hothers; [now right | exact Hne'].
Qed.

(** X12: equality is not transitive.  Take any dataset with a finite
    value at some position of a field, the same dataset with not-a-number
    there, and the same with another finite value there: the first equals
    the second and the second equals the third, but the first does not
    equal the third. *)
Theorem eq_not_transitive
  (g : GeoData) (k : string) (a an a' : ndarray) (i : nat) (q q' : Q)
  (Hk : dict_get k (data g) = Some a)
  (Hsn : shape an = shape a) (Hs' : shape a' = shape a)
  (Hi : nth_error (ravel a) i = Some (Fin q))
  (Hin : nth_error (ravel an) i = Some NaN)
  (Hi' : nth_error (ravel a') i = Some (Fin q'))
  (Hq : ~ (q == q')%Q)
  (Hrestn : forall j, j <> i -> nth_error (ravel an) j = nth_error (ravel a) j)
  (Hrest' : forall j, j <> i -> nth_error (ravel a') j = nth_error (ravel a) j) :
  __eq__ g (with_data (dict_set k an (data g)) g) = Ok true /\
  __eq__ (with_data (dict_set k an (data g)) g)
         (with_data (dict_set k a' (data g)) g) = Ok true /\
  __eq__ g (with_data (dict_set k a' (data g)) g) = Ok false.
Proof.
  assert (Hkin : In k (keys (data g))) by (apply dict_get_In; eauto).
  assert (Hkeys : forall v, keys (dict_set k v (data g)) = keys (data g))
    by (intros v; now apply keys_dict_set).
  assert (Hothers : forall v1 v2 k',
             In k' (keys (data g)) -> k' <> k ->
             exists x y,
               dict_get k' (dict_set k v1 (data g)) = Some x /\
               dict_get k' (dict_set k v2 (data g)) = Some y /\
               allequal (ma_array x) (ma_array y) = Ok true).
  { intros v1 v2 k' Hk' Hne. apply dict_get_In in Hk'. destruct Hk' as [v Hv].
    exists v, v. rewrite !dict_get_set.
    destruct (String.eqb k' k) eqn:E;
      [apply String.eqb_eq in E; contradiction|].
    repeat split; try assumption. apply allequal_refl. }
  assert (Hself : forall v, dict_get k (dict_set k v (data g)) = Some v)
    by (intros v; now rewrite dict_get_set, String.eqb_refl).
  destruct (allequal_nan_variant a an i (Fin q) Hsn Hi Hin Hrestn) as [Haan _].
  assert (Hrest2 : forall j, j <> i -> nth_error (ravel an) j = nth_error (ravel a') j)
    by (intros j Hj; now rewrite Hrestn, Hrest').
  assert (Hsn' : shape an = shape a') by congruence.
  destruct (allequal_nan_variant a' an i (Fin q') Hsn' Hi' Hin Hrest2) as [_ Hana'].
  assert (Haa' := allequal_differs a a' i q q' Hs' Hi Hi' Hq).
  assert (Hbase : forall v k',
             In k' (keys (data g)) -> k' <> k ->
             exists x y,
               dict_get k' (data g) = Some x /\
               dict_get k' (dict_set k v (data g)) = Some y /\
               allequal (ma_array x) (ma_array y) = Ok true).
  { intros v k' Hk' Hne. apply dict_get_In in Hk'. destruct Hk' as [x Hx].
    exists x, x. rewrite dict_get_set.
    destruct (String.eqb k' k) eqn:E;
      [apply String.eqb_eq in E; contradiction|].
    repeat split; try assumption. apply allequal_refl. }
  rewrite !eq_base_with_data by (now rewrite Hkeys).
  rewrite eq_with_data by (now rewrite !Hkeys).
  rewrite Hkeys.
  split; [|split].
  - apply eq_fields_true. intros k' Hk'.
    destruct (String.eqb k' k) eqn:E.
    + apply String.eqb_eq in E. subst k'. exists a, an. now rewrite Hself.
    + apply Hbase; [exact Hk'|]. intros ->. now rewrite String.eqb_refl in E.
  - apply eq_fields_true. intros k' Hk'.
    destruct (String.eqb k' k) eqn:E.
    + apply String.eqb_eq in E. subst k'. exists an, a'. now rewrite !Hself.
    + apply Hothers; [exact Hk'|]. intros ->. now rewrite String.eqb_refl in E.
  - apply (eq_fields_false _ _ _ k); [exact Hkin| |].
    + intros k' Hk' Hne. now apply Hbase.
    + exists a, a'. now rewrite Hself.
Qed.

Lemma eq_not_transitive_witness :
  __eq__ gd_finite gd_nan_at_3 = Ok true /\
  __eq__ gd_nan_at_3
         (with_data (dict_set "ne" field_other_at_3 (data gd_finite)) gd_finite)
  = Ok true /\
  __eq__ gd_finite
         (with_data (dict_set "ne" field_other_at_3 (data gd_finite)) gd_finite)
  = Ok false.
Proof.
  destruct (eq_not_transitive gd_finite "ne" field_finite field_nan_at_3
                              field_other_at_3 3 (inject_Z 4) (inject_Z 5))
    as (H1 & H2 & H3); try reflexivity.
  - intros E. vm_compute in E. discriminate.
  - intros [|[|[|[|j]]]] Hj; try reflexivity. congruence.
  - intros [|[|[|[|j]]]] Hj; try reflexivity. congruence.
  - split; [exact H1|]. split; [exact H2 | exact H3].
Defined.

(** ** [issatellite] *)

(** X13: the sensor location of a satellite dataset (all entries
    not-a-number) compares equal, under the masked comparison that
    [add_times] and [__eq__] use, to any sensor location of the same
    shape. *)
Theorem satellite_sensor_matches_any (A B : GeoData)
  (Hsat : issatellite A = true)
  (Hshape : shape (sensorloc A) = shape (sensorloc B)) :
  allequal (ma_array (sensorloc A)) (ma_array (sensorloc B)) = Ok true /\
  allequal (ma_array (sensorloc B)) (ma_array (sensorloc A)) = Ok true.
Proof.
  assert (H : allequal (ma_array (sensorloc A)) (ma_array (sensorloc B)) = Ok true).
  { rewrite allequal_elementwise by exact Hshape. f_equal.
    apply forallb_forall. intros [x y] Hin. apply in_combine_l in Hin.
    unfold issatellite in Hsat. rewrite forallb_forall in Hsat.
    unfold masked_eq_elem. simpl. now rewrite (Hsat x Hin). }
  split; [exact H | now rewrite allequal_sym].
Qed.

Lemma satellite_sensor_matches_any_witness :
  issatellite gd_satellite = true /\
  allequal (ma_array (sensorloc gd_satellite)) (ma_array (sensorloc gd_outer))
  = Ok true.
Proof.
  split; [reflexivity|].
  apply (satellite_sensor_matches_any gd_satellite gd_outer); reflexivity.
Defined.

(** ** [checkcoords] and [datareducelocation] *)

Lemma match_mask_length (o : ndarray) (irow : list fnum) (m : list bool) :
  match_mask o irow = Ok m -> length m = shape0 o.
Proof.
  unfold match_mask. destruct o as [xs|c rows|]; try discriminate.
  destruct (c =? length irow); [|destruct (length irow =? 1); [|destruct (c =? 1)]];
    intros H; inversion H; simpl; apply length_map.
Qed.

Lemma match_mask_width (c : nat) (rows : list (list fnum)) (irow : list fnum) :
  length irow = c ->
  match_mask (Arr2 c rows) irow = Ok (map (fun r => row_equal r irow) rows).
Proof.
  intros <-. unfold match_mask. now rewrite Nat.eqb_refl.
Qed.

Lemma existsb_id_argwhere (m : list bool) :
  existsb id m = true -> exists i, py_index (argwhere m) 0 = Ok i /\ i < length m.
Proof.
  intros H. apply existsb_exists in H. destruct H as (b & Hb & Hid).
  unfold id in Hid. subst b. apply In_nth_error in Hb. destruct Hb as [j Hj].
  assert (Hin : In j (argwhere m)).
  { unfold argwhere. apply argwhere_from_In. rewrite Nat.sub_0_r. split; [lia | exact Hj]. }
  destruct (argwhere m) as [|i l] eqn:E; [destruct Hin|].
  exists i. split; [reflexivity|].
  assert (Hi : In i (argwhere m)) by (rewrite E; now left).
  unfold argwhere in Hi. apply argwhere_from_In in Hi.
  rewrite Nat.sub_0_r in Hi. apply nth_error_Some. destruct Hi as [_ Hi]. congruence.
Qed.


Lemma checkcoords_rows_true_inv (o : ndarray) (rows : list (list fnum)) :
  checkcoords_rows o rows = Ok true ->
  forall irow, In irow rows ->
               exists m, match_mask o irow = Ok m /\ existsb id m = true.
Proof.
  induction rows as [|r rows IH]; intros H irow Hin; [destruct Hin|].
  simpl in H. destruct (match_mask o r) as [m|] eqn:Em; [|discriminate].
  simpl in H. destruct (existsb id m) eqn:Ex; simpl in H; [|discriminate].
  destruct Hin as [<-|Hin]; [eauto | now apply IH].
Qed.

Lemma take_rows_valid (a : ndarray) (idx : list nat) :
  Forall (fun i => i < shape0 a) idx ->
  exists v, take_rows a idx = Ok v /\ shape0 v = length idx.
Proof.
  intros H. destruct a as [xs|c rows|d1 d2 frames]; simpl in *.
  - rewrite (take_valid xs idx NaN H). eexists. split; [reflexivity|].
    simpl. apply length_map.
  - rewrite (take_valid rows idx [] H). eexists. split; [reflexivity|].
    simpl. apply length_map.
  - rewrite (take_valid frames idx [] H). eexists. split; [reflexivity|].
    simpl. apply length_map.
Qed.

Lemma iter_rows_length (a : ndarray) (rows : list (list fnum)) :
  iter_rows a = Ok rows -> length rows = shape0 a.
Proof.
  destruct a; simpl; intros H; inversion H; [apply length_map | reflexivity].
Qed.

Lemma lower_eqb_of_eqb (a b : string) :
  String.eqb a b = true -> String.eqb (lower b) (lower a) = true.
Proof. intros H. apply String.eqb_eq in H. subst. apply String.eqb_refl. Qed.

(** X14: a request that [checkcoords] accepts is one that
    [datareducelocation] can serve: for a field with at least as many rows
    as there are locations, the single-field call returns an array with
    one row per requested location, and leaves the dataset untouched. *)
Theorem checkcoords_then_reduce (g : GeoData) (nc : ndarray) (name k : string)
  (a : ndarray)
  (Hcheck : checkcoords g nc name = Ok true)
  (Hk : dict_get k (data g) = Some a)
  (Hrows : shape0 (dataloc g) <= shape0 a) :
  exists v,
    datareducelocation nc name (Some k) g = (Ok (Some v), g, []) /\
    shape0 v = shape0 nc.
Proof.
  unfold checkcoords in Hcheck.
  destruct (String.eqb name (coordnames g)) eqn:En; simpl in Hcheck;
    [|discriminate].
  destruct (iter_rows nc) as [rows|] eqn:Ei; simpl in Hcheck; [|discriminate].
  assert (Hall := checkcoords_rows_true_inv _ _ Hcheck).
  destruct (mapR_total (first_match (dataloc g)) rows)
    as (idx & Hidx & Hlen & Hnth).
  { intros irow Hin. destruct (Hall irow Hin) as (m & Hm & Hex).
    destruct (existsb_id_argwhere m Hex) as (i & Hi & _).
    exists i. unfold first_match. rewrite Hm. exact Hi. }
  assert (Hbound : Forall (fun i => i < shape0 a) idx).
  { apply Forall_forall. intros i Hi. apply In_nth_error in Hi.
    destruct Hi as [j Hj].
    assert (Hjl : j < length rows)
      by (rewrite <- Hlen; apply nth_error_Some; congruence).
    destruct (nth_error rows j) as [irow|] eqn:Er;
      [|apply nth_error_None in Er; lia].
    destruct (Hnth _ _ Er) as (i' & Hi' & Hf).
    rewrite Hj in Hi'. inversion Hi'; subst i'.
    destruct (Hall irow (nth_error_In _ _ Er)) as (m & Hm & Hex).
    destruct (existsb_id_argwhere m Hex) as (i0 & Hi0 & Hlt).
    unfold first_match in Hf. rewrite Hm in Hf. simpl in Hf.
    rewrite Hi0 in Hf. inversion Hf; subst i0.
    rewrite (match_mask_length _ _ _ Hm) in Hlt. lia. }
  destruct (take_rows_valid a idx Hbound) as (v & Hv & Hshape).
  exists v. split.
  - unfold datareducelocation.
    unfold bindM at 1. unfold getM at 1.
    unfold bindM at 1. rewrite (lower_eqb_of_eqb _ _ En).
    unfold assertM at 1, retM at 1.
    unfold bindM at 1. unfold liftRM at 1. rewrite Ei.
    unfold bindM at 1. unfold liftRM at 1. rewrite Hidx.
    unfold bindM at 1. unfold liftRM at 1. unfold lookup. rewrite Hk.
    unfold bindM at 1. unfold liftRM at 1. rewrite Hv.
    reflexivity.
  - rewrite Hshape, Hlen. now apply iter_rows_length.
Qed.

Lemma checkcoords_then_reduce_witness :
  checkcoords gd_inner want_second "Cartesian" = Ok true /\
  exists v,
    datareducelocation want_second "Cartesian" (Some "ne") gd_inner
    = (Ok (Some v), gd_inner, []) /\ shape0 v = 1.
Proof.
  split; [reflexivity|].
  apply (checkcoords_then_reduce gd_inner want_second "Cartesian" "ne"
                                 (Arr2 1 [[fz 7]; [fz 8]])); reflexivity.
Defined.

Lemma existsb_id_map {A} (f : A -> bool) (l : list A) :
  existsb id (map f l) = existsb f l.
Proof. induction l as [|x l IH]; [reflexivity|]. simpl. now rewrite IH. Qed.

Lemma checkcoords_rows_closed (c : nat) (rows nrows : list (list fnum)) :
  rows_width c nrows ->
  checkcoords_rows (Arr2 c rows) nrows
  = Ok (forallb (fun irow => existsb (fun r => row_equal r irow) rows) nrows).
Proof.
  induction nrows as [|irow nrows IH]; intros Hw; [reflexivity|].
  cbn [checkcoords_rows forallb].
  rewrite match_mask_width by (apply Hw; now left). cbn [bindR].
  rewrite existsb_id_map.
  destruct (existsb (fun r => row_equal r irow) rows); [|reflexivity].
  simpl. apply IH. intros r Hr. apply Hw. now right.
Qed.

(** X15: [checkcoords] never raises on a request of the width of the
    location table, and answers true exactly when the coordinate names are
    the same string and every requested row is equal, entry by entry, to
    some row of the location table. *)
Theorem checkcoords_meaning (g : GeoData) (c : nat)
  (rows nrows : list (list fnum)) (name : string)
  (Hloc : dataloc g = Arr2 c rows)
  (Hw : rows_width c nrows) :
  (exists b, checkcoords g (Arr2 c nrows) name = Ok b) /\
  (checkcoords g (Arr2 c nrows) name = Ok true <->
   name = coordnames g /\
   forall irow, In irow nrows -> exists r, In r rows /\ row_equal r irow = true).
Proof.
  unfold checkcoords. rewrite Hloc. cbn [iter_rows bindR].
  rewrite checkcoords_rows_closed by exact Hw.
  destruct (String.eqb name (coordnames g)) eqn:En; simpl.
  - apply String.eqb_eq in En. split; [eauto|]. split.
    + intros H. inversion H as [Hall]. split; [exact En|].
      rewrite Hall. rewrite forallb_forall in Hall.
      intros irow Hin. specialize (Hall irow Hin).
      apply existsb_exists in Hall. exact Hall.
    + intros [_ Hall]. f_equal. apply forallb_forall. intros irow Hin.
      apply existsb_exists. now apply Hall.
  - split; [eauto|]. split; [discriminate|].
    intros [Hn _]. subst name. now rewrite String.eqb_refl in En.
Qed.

Lemma checkcoords_meaning_witness :
  dataloc gd_inner = Arr2 3 [[fz 0; fz 0; fz 0]; [fz 1; fz 0; fz 0]] /\
  rows_width 3 [[fz 1; fz 0; fz 0]] /\
  exists b, checkcoords gd_inner want_second "Cartesian" = Ok b.
Proof.
  assert (Hw : rows_width 3 [[fz 1; fz 0; fz 0]]).
  { intros r [<-|[]]. reflexivity. }
  split; [reflexivity|]. split; [exact Hw|].
  exact (proj1 (checkcoords_meaning gd_inner 3 _ _ "Cartesian" eq_refl Hw)).
Defined.

Lemma mapR_length {A B} (f : A -> result B) (l : list A) (ys : list B) :
  mapR f l = Ok ys -> length ys = length l.
Proof.
  revert ys. induction l as [|a l IH]; intros ys H; simpl in H.
  - now inversion H.
  - destruct (f a); [|discriminate]. destruct (mapR f l); [|discriminate].
    simpl in H. inversion H. simpl. f_equal. now apply IH.
Qed.

Lemma take_rows_shape0 (a v : ndarray) (idx : list nat) :
  take_rows a idx = Ok v -> shape0 v = length idx.
Proof.
  unfold take_rows, take.
  destruct a as [xs|c rows|d1 d2 frames];
    destruct (mapR _ idx) as [l|] eqn:E; simpl; intros H; inversion H;
    simpl; eapply mapR_length; eassumption.
Qed.

Lemma reduce_field_inv (idx : list nat) (k : string) (s : GeoData) r s' w :
  reduce_field idx k s = (r, s', w) ->
  w = [] /\
  ((exists a v, dict_get k (data s) = Some a /\ take_rows a idx = Ok v /\
                r = Ok tt /\ s' = with_data (dict_set k v (data s)) s)
   \/ (exists e, r = Raise e /\ s' = s)).
Proof.
  unfold reduce_field, bindM, getM, liftRM, modifyM, lookup.
  destruct (dict_get k (data s)) as [a|] eqn:Ea;
    [|intros H; inversion H; split; [reflexivity | right; eauto]].
  destruct (take_rows a idx) as [v|] eqn:Ev;
    intros H; inversion H; (split; [reflexivity|]).
  - left. exists a, v. repeat split; assumption.
  - right. eauto.
Qed.

Lemma reduce_field_frame (idx : list nat) (k : string) :
  preserves reduce_frame (reduce_field idx k).
Proof.
  intros s r s' w H. apply reduce_field_inv in H.
  destruct H as (_ & [(a & v & Ha & _ & _ & ->)|(e & _ & ->)]); [|reflexivity].
  unfold reduce_frame. simpl. f_equal. apply keys_dict_set.
  apply dict_get_In. eauto.
Qed.

Lemma reduce_loop_ok (idx : list nat) (ks : list string) :
  NoDup ks ->
  forall s s' w,
    forM_ ks (reduce_field idx) s = (Ok tt, s', w) ->
    w = [] /\
    (forall k, ~ In k ks -> dict_get k (data s') = dict_get k (data s)) /\
    (forall k, In k ks ->
               exists a v, dict_get k (data s) = Some a /\
                           take_rows a idx = Ok v /\
                           dict_get k (data s') = Some v).
Proof.
  induction 1 as [|k ks Hnotin Hnd IH]; intros s s' w Hrun; simpl in Hrun.
  - inversion Hrun; subst. repeat split. intros k [].
  - unfold bindM in Hrun.
    destruct (reduce_field idx k s) as [[[[]|e] s1] w1] eqn:Eb; [|discriminate].
    destruct (forM_ ks (reduce_field idx) s1) as [[r2 s2] w2] eqn:El.
    inversion Hrun; subst. clear Hrun.
    destruct (IH _ _ _ El) as (-> & Hout & Hin).
    destruct (reduce_field_inv _ _ _ _ _ _ Eb)
      as (-> & [(a & v & Ha & Hv & _ & ->)|(e & He & _)]); [|discriminate].
    assert (Hother : forall k', k' <> k ->
              dict_get k' (data (with_data (dict_set k v (data s)) s))
              = dict_get k' (data s)).
    { intros k' Hne. simpl. rewrite dict_get_set.
      destruct (String.eqb k' k) eqn:E; [|reflexivity].
      apply String.eqb_eq in E. contradiction. }
    split; [reflexivity|]. split.
    + intros k' Hk'. rewrite Hout by (intros ?; apply Hk'; now right).
      apply Hother. intros ->. apply Hk'. now left.
    + intros k' [<-|Hk'].
      * exists a, v. repeat split; try assumption.
        rewrite (Hout k Hnotin). simpl. rewrite dict_get_set.
        now rewrite String.eqb_refl.
      * destruct (Hin k' Hk') as (a' & v' & Ha' & Hv' & Hd').
        exists a', v'. repeat split; try assumption.
        rewrite <- Hother; [exact Ha'|]. intros ->. contradiction.
Qed.

(** X16: the in-place reduction replaces the field arrays and nothing
    else.  When it completes it returns nothing, every field has one row
    per requested location, and the location table, like the times, the
    coordinate name and the field names, is as before: the locations are
    not cut down with the fields. *)
Theorem reduce_in_place_keeps_locations (g g' : GeoData) (nc : ndarray)
  (name : string) (r : option ndarray) (w : list warning)
  (Hnd : NoDup (keys (data g)))
  (Hrun : datareducelocation nc name None g = (Ok r, g', w)) :
  r = None /\ w = [] /\
  reduce_frame g' = reduce_frame g /\
  forall k a', dict_get k (data g') = Some a' -> shape0 a' = shape0 nc.
Proof.
  unfold datareducelocation in Hrun.
  unfold bindM at 1 in Hrun. unfold getM at 1 in Hrun.
  unfold bindM at 1 in Hrun. unfold assertM at 1 in Hrun.
  destruct (String.eqb (lower (coordnames g)) (lower name)); [|discriminate].
  unfold retM at 1 in Hrun.
  unfold bindM at 1 in Hrun. unfold liftRM at 1 in Hrun.
  destruct (iter_rows nc) as [rows|] eqn:Ei; [|discriminate].
  unfold bindM at 1 in Hrun. unfold liftRM at 1 in Hrun.
  destruct (mapR (first_match (dataloc g)) rows) as [idx|] eqn:Em;
    [|discriminate].
  unfold bindM at 1 in Hrun. unfold datanames in Hrun.
  destruct (forM_ (keys (data g)) (reduce_field idx) g)
    as [[[[]|e] s1] w1] eqn:El; [|discriminate].
  unfold retM in Hrun. inversion Hrun; subst r g' w. clear Hrun.
  destruct (reduce_loop_ok idx _ Hnd _ _ _ El) as (-> & _ & Hin).
  assert (Hfr : reduce_frame s1 = reduce_frame g).
  { eapply (preserves_forM_ reduce_frame); [|exact El].
    intros k. apply reduce_field_frame. }
  split; [reflexivity|]. split; [reflexivity|]. split; [exact Hfr|].
  intros k a' Hk.
  assert (Hkin : In k (keys (data g))).
  { assert (Hkeys : keys (data s1) = keys (data g))
      by (unfold reduce_frame in Hfr; now inversion Hfr).
    rewrite <- Hkeys. apply dict_get_In. eauto. }
  destruct (Hin k Hkin) as (a & v & _ & Hv & Hd).
  rewrite Hk in Hd. inversion Hd; subst v.
  rewrite (take_rows_shape0 _ _ _ Hv), (mapR_length _ _ _ Em).
  now apply iter_rows_length.
Qed.

Lemma reduce_in_place_keeps_locations_witness :
  NoDup (keys (data gd_inner)) /\
  exists g',
    datareducelocation want_second "Cartesian" None gd_inner = (Ok None, g', []) /\
    dict_get "ne" (data g') = Some (Arr2 1 [[fz 8]]) /\
    reduce_frame g' = reduce_frame gd_inner /\
    shape0 (dataloc g') = 2.
Proof.
  assert (Hnd : NoDup (keys (data gd_inner)))
    by (repeat constructor; simpl; tauto).
  split; [exact Hnd|].
  eexists. split; [reflexivity|]. split; [reflexivity|].
  split; [|reflexivity].
  exact (proj1 (proj2 (proj2 (reduce_in_place_keeps_locations
                                gd_inner _ want_second "Cartesian" None []
                                Hnd eq_refl)))).
Defined.

Lemma mapR_raise {A B} (f : A -> result B) (l : list A) (e : exn) (x : A) :
  In x l -> f x = Raise e ->
  (forall y, In y l -> f y = Raise e \/ exists z, f y = Ok z) ->
  mapR f l = Raise e.
Proof.
  induction l as [|a l IH]; intros Hin Hx Hall; [destruct Hin|].
  simpl. destruct (Hall a (or_introl eq_refl)) as [Ha|[z Ha]]; rewrite Ha;
    [reflexivity|].
  destruct Hin as [->|Hin]; [congruence|].
  rewrite IH; [reflexivity | exact Hin | exact Hx |].
  intros y Hy. apply Hall. now right.
Qed.








Lemma row_equal_refl (r : list fnum) :
  forallb isfinite r = true -> row_equal r r = true.
Proof.
  unfold row_equal. induction r as [|x r IH]; [reflexivity|].
  cbn [forallb map2 map]. intros H. apply andb_prop in H. destruct H as [Hx Hr].
  cbn [combine map forallb].
  rewrite (IH Hr). destruct x as [|q]; [discriminate|].
  unfold id. simpl. now rewrite Qeq_bool_refl.
Qed.

Lemma first_match_own_row (c : nat) (rows : list (list fnum)) (i : nat) :
  rows_width c rows -> rows_finite rows -> rows_distinct rows ->
  i < length rows ->
  first_match (Arr2 c rows) (nth i rows []) = Ok i.
Proof.
  intros Hw Hfin Hdis Hi.
  assert (Hnth : nth_error rows i = Some (nth i rows []))
    by (now apply nth_error_nth').
  assert (Hin : In (nth i rows []) rows) by (now apply nth_In).
  unfold first_match. rewrite match_mask_width by (now apply Hw). cbn [bindR].
  assert (Hmem : In i (argwhere (map (fun r => row_equal r (nth i rows [])) rows))).
  { apply argwhere_In_map. exists (nth i rows []). split; [exact Hnth|].
    apply row_equal_refl. now apply Hfin. }
  pose proof (argwhere_from_sorted
                (map (fun r => row_equal r (nth i rows [])) rows) 0) as Hs.
  fold (argwhere (map (fun r => row_equal r (nth i rows [])) rows)) in Hs.
  destruct (argwhere (map (fun r => row_equal r (nth i rows [])) rows))
    as [|h t] eqn:E; [destruct Hmem|].
  change (py_index (h :: t) 0) with (Ok (A := nat) h). f_equal.
  pose proof (sorted_head_least h t Hs i Hmem) as Hle.
  destruct (Nat.eq_dec h i) as [|Hne]; [assumption|]. exfalso.
  assert (Hh : In h (argwhere (map (fun r => row_equal r (nth i rows [])) rows)))
    by (rewrite E; now left).
  apply argwhere_In_map in Hh. destruct Hh as (x & Hx & Heq).
  rewrite (Hdis h i x (nth i rows []) ltac:(lia) Hx Hnth) in Heq. discriminate.
Qed.

Lemma first_match_rows_at (c : nat) (rows : list (list fnum)) (idx : list nat) :
  rows_width c rows -> rows_finite rows -> rows_distinct rows ->
  Forall (fun i => i < length rows) idx ->
  mapR (first_match (Arr2 c rows)) (rows_at rows idx) = Ok idx.
Proof.
  intros Hw Hfin Hdis. induction 1 as [|i idx Hi _ IH]; [reflexivity|].
  cbn [rows_at map mapR]. rewrite first_match_own_row by assumption.
  fold (rows_at rows idx). now rewrite IH.
Qed.

(** X19: when the locations of a dataset are finite and pairwise different,
    asking [datareducelocation] for the locations at positions [idx] of its
    own table, in any order and with repeats, returns for a named field
    exactly its rows at those positions, and leaves the dataset alone. *)
Theorem reduce_selects_rows (g : GeoData) (c : nat) (rows : list (list fnum))
  (idx : list nat) (k : string) (a : ndarray)
  (Hloc : dataloc g = Arr2 c rows)
  (Hw : rows_width c rows)
  (Hfin : rows_finite rows)
  (Hdis : rows_distinct rows)
  (Hidx : Forall (fun i => i < length rows) idx)
  (Hk : dict_get k (data g) = Some a) :
  datareducelocation (Arr2 c (rows_at rows idx)) (coordnames g) (Some k) g
  = (match take_rows a idx with
     | Ok v => Ok (Some v)
     | Raise e => Raise e
     end, g, []).
Proof.
  unfold datareducelocation.
  unfold bindM at 1. unfold getM at 1.
  unfold bindM at 1. unfold assertM at 1. rewrite String.eqb_refl.
  unfold retM at 1.
  unfold bindM at 1. unfold liftRM at 1. cbn [iter_rows].
  unfold bindM at 1. unfold liftRM at 1.
  rewrite Hloc, first_match_rows_at by assumption.
  unfold bindM, liftRM, lookup, retM. rewrite Hk.
  destruct (take_rows a idx); reflexivity.
Qed.

Lemma reduce_selects_rows_witness :
  datareducelocation (Arr2 3 [[fz 1; fz 0; fz 0]; [fz 0; fz 0; fz 0];
                              [fz 1; fz 0; fz 0]])
                     "Cartesian" (Some "ne") gd_inner
  = (Ok (Some (Arr2 1 [[fz 8]; [fz 7]; [fz 8]])), gd_inner, []).
Proof.
  apply (reduce_selects_rows gd_inner 3
           [[fz 0; fz 0; fz 0]; [fz 1; fz 0; fz 0]] [1; 0; 1] "ne"
           (Arr2 1 [[fz 7]; [fz 8]])).
  - reflexivity.
  - intros r [<-|[<-|[]]]; reflexivity.
  - intros r [<-|[<-|[]]]; reflexivity.
  - intros i j ri rj Hlt Hi Hj.
    destruct i as [|[|i]]; destruct j as [|[|j]]; try lia;
      simpl in Hi, Hj; try (destruct j; discriminate);
      try (destruct i; discriminate);
      inversion Hi; inversion Hj; subst; reflexivity.
  - repeat constructor.
  - reflexivity.
Defined.

(* ------------------------------------------------------------------ *)
(** ** [changedata] *)

Lemma dict_get_del (k k' : string) (d : dict) :
  dict_get k' (dict_del k d)
  = if String.eqb k' k then None else dict_get k' d.
Proof.
  induction d as [|[k0 v0] d IH]; simpl.
  - now destruct (String.eqb k' k).
  - destruct (String.eqb_spec k k0) as [->|Hk]; simpl.
    + rewrite IH. destruct (String.eqb_spec k' k0); reflexivity.
    + rewrite IH. destruct (String.eqb_spec k' k0) as [->|Hk'];
        [|reflexivity].
      destruct (String.eqb_spec k0 k); [congruence | reflexivity].
Qed.

Lemma mem_key_dict_get (k : string) (d : dict) :
  mem_key k (keys d) = match dict_get k d with Some _ => true | None => false end.
Proof.
  unfold mem_key. induction d as [|[k0 v0] d IH]; [reflexivity|].
  simpl. destruct (String.eqb k k0); [reflexivity | exact IH].
Qed.

Lemma changedata_run (dataname newname : string)
  (func : ndarray -> result ndarray) (rm_old : bool) (g : GeoData) :
  changedata dataname newname func rm_old g
  = match dict_get dataname (data g) with
    | None => (Raise (AssertionError "Incorrect data name used."), g, [])
    | Some a =>
        match func a with
        | Raise e => (Raise e, g, [])
        | Ok v =>
            (Ok tt,
             with_data (if rm_old
                        then dict_del dataname (dict_set newname v (data g))
                        else dict_set newname v (data g)) g, [])
        end
    end.
Proof.
  unfold changedata, bindM, getM, assertM, liftRM, modifyM, retM, raiseM, lookup.
  rewrite mem_key_dict_get.
  destruct (dict_get dataname (data g)) as [a|]; [|reflexivity].
  destruct (func a) as [v|e]; [|reflexivity].
  destruct rm_old; destruct g; reflexivity.
Qed.

(** X20: what [changedata] does to the fields.  With [dataname] a field
    and [func] returning [v] on it, the call succeeds and afterwards a name
    looks up as follows: nothing if it is [dataname] and the old field is
    removed, otherwise [v] if it is [newname], otherwise what it did
    before.  Nothing but the fields is changed. *)
Theorem changedata_lookup (dataname newname : string)
  (func : ndarray -> result ndarray) (rm_old : bool) (g : GeoData)
  (a v : ndarray)
  (Hk : dict_get dataname (data g) = Some a)
  (Hf : func a = Ok v) :
  exists g',
    changedata dataname newname func rm_old g = (Ok tt, g', []) /\
    (times g', coordnames g', dataloc g', sensorloc g', expdesc g')
    = (times g, coordnames g, dataloc g, sensorloc g, expdesc g) /\
    forall k,
      dict_get k (data g')
      = if rm_old && String.eqb k dataname then None
        else if String.eqb k newname then Some v
        else dict_get k (data g).
Proof.
  rewrite changedata_run, Hk, Hf. eexists. split; [reflexivity|].
  split; [reflexivity|]. intros k. simpl.
  destruct rm_old; simpl; [rewrite dict_get_del|]; rewrite dict_get_set;
    reflexivity.
Qed.

Lemma changedata_lookup_witness :
  exists g',
    changedata "ne" "ne2" (fun a => Ok (Arr2 1 [[fz 1]; [fz 2]])) false gd_inner
    = (Ok tt, g', []) /\
    dict_get "ne" (data g') = Some (Arr2 1 [[fz 7]; [fz 8]]) /\
    dict_get "ne2" (data g') = Some (Arr2 1 [[fz 1]; [fz 2]]).
Proof.
  destruct (changedata_lookup "ne" "ne2" (fun a => Ok (Arr2 1 [[fz 1]; [fz 2]]))
              false gd_inner (Arr2 1 [[fz 7]; [fz 8]]) (Arr2 1 [[fz 1]; [fz 2]])
              eq_refl eq_refl) as (g' & Hrun & _ & Hget).
  exists g'. split; [exact Hrun|]. split.
  - rewrite (Hget "ne"). reflexivity.
  - rewrite (Hget "ne2"). reflexivity.
Defined.

(** X21: changing a field under its own name with the default
    [rm_old=True] loses it: the new value is stored and then deleted, so
    the call succeeds and the dataset no longer has a field of that name,
    while every other field is as before. *)
Theorem changedata_same_name_deletes (name : string)
  (func : ndarray -> result ndarray) (g : GeoData) (a v : ndarray)
  (Hk : dict_get name (data g) = Some a)
  (Hf : func a = Ok v) :
  exists g',
    changedata name name func true g = (Ok tt, g', []) /\
    ~ In name (datanames g') /\
    forall k, k <> name -> dict_get k (data g') = dict_get k (data g).
Proof.
  rewrite changedata_run, Hk, Hf. eexists. split; [reflexivity|]. split.
  - unfold datanames. rewrite dict_get_In. simpl. rewrite dict_get_del.
    rewrite String.eqb_refl. intros [x Hx]. discriminate.
  - intros k Hne. simpl. rewrite dict_get_del, dict_get_set.
    destruct (String.eqb_spec k name); [contradiction | reflexivity].
Qed.

Lemma changedata_same_name_deletes_witness :
  changedata "ne" "ne" (fun a => Ok a) true gd_inner
  = (Ok tt, with_data [] gd_inner, []) /\
  exists g',
    changedata "ne" "ne" (fun a => Ok a) true gd_inner = (Ok tt, g', []) /\
    ~ In "ne" (datanames g').
Proof.
  split; [reflexivity|].
  destruct (changedata_same_name_deletes "ne" (fun a => Ok a) gd_inner
              (Arr2 1 [[fz 7]; [fz 8]]) (Arr2 1 [[fz 7]; [fz 8]])
              eq_refl eq_refl) as (g' & Hrun & Hno & _).
  exists g'. split; assumption.
Defined.

(** X22: a failing [changedata] changes nothing.  It fails in two ways
    only: with AssertionError when [dataname] is not a field, and with
    whatever [func] raises on the field; in both the dataset is as it was,
    no field added and none removed. *)
Theorem changedata_failure (dataname newname : string)
  (func : ndarray -> result ndarray) (rm_old : bool) (g g' : GeoData)
  (e : exn) (w : list warning)
  (Hrun : changedata dataname newname func rm_old g = (Raise e, g', w)) :
  g' = g /\ w = [] /\
  ((e = AssertionError "Incorrect data name used." /\
    ~ In dataname (datanames g)) \/
   (exists a, dict_get dataname (data g) = Some a /\ func a = Raise e)).
Proof.
  rewrite changedata_run in Hrun.
  destruct (dict_get dataname (data g)) as [a|] eqn:Ek.
  - destruct (func a) as [v|e'] eqn:Ef; [discriminate|].
    inversion Hrun; subst. repeat split. right. eauto.
  - inversion Hrun; subst. repeat split. left. split; [reflexivity|].
    unfold datanames. rewrite dict_get_In. intros [x Hx]. congruence.
Qed.

Lemma changedata_failure_witness :
  changedata "te" "te2" (fun a => Ok a) true gd_inner
  = (Raise (AssertionError "Incorrect data name used."), gd_inner, []) /\
  ~ In "te" (datanames gd_inner).
Proof.
  assert (Hrun : changedata "te" "te2" (fun a => Ok a) true gd_inner
                 = (Raise (AssertionError "Incorrect data name used."),
                    gd_inner, [])) by reflexivity.
  split; [exact Hrun|].
  destruct (changedata_failure _ _ _ _ _ _ _ _ Hrun)
    as (_ & _ & [[_ Hno]|(a & Ha & _)]); [exact Hno | discriminate].
Defined.

(* ------------------------------------------------------------------ *)
(** ** [copy] and [timeslice] *)

Lemma copy_canonical (g : GeoData) (rows : list (list fnum)) :
  times g = Arr2 2 rows -> copy g = (Ok g, []).
Proof.
  intros H. unfold copy, copyinst, __init__. rewrite H. simpl.
  destruct g; simpl in *. now subst.
Qed.

(** X23: [copy] goes through the constructor: the copy is the object
    with its time array replaced by what [timerepair] makes of it, and the
    log of the copy is the log of that normalisation.  So the copy always
    has a two-column time table, copying the copy gives it back without a
    warning, and an object whose time table already has two columns is
    copied exactly, without a warning. *)
Theorem copy_normalises_once (g g2 : GeoData) (w : list warning)
  (Hc : copy g = (Ok g2, w)) :
  timerepair Float64 (times g) = (Ok (times g2), w) /\
  g2 = with_times (times g2) g /\
  (exists rows, times g2 = Arr2 2 rows) /\
  copy g2 = (Ok g2, []) /\
  ((exists rows, times g = Arr2 2 rows) -> g2 = g /\ w = []).
Proof.
  unfold copy, copyinst, __init__, bindW in Hc.
  destruct (timerepair Float64 (times g)) as [[t'|e] w1] eqn:Et; [|discriminate].
  simpl in Hc. inversion Hc; subst g2 w. clear Hc.
  destruct (timerepair_output_canonical _ _ _ _ Et) as [rows Hrows].
  split; [simpl; now rewrite app_nil_r|].
  split; [reflexivity|]. split; [simpl; eauto|]. split.
  - apply (copy_canonical _ rows). exact Hrows.
  - intros [rows0 H0]. rewrite H0 in Et.
    change (timerepair Float64 (Arr2 2 rows0)) with (retW (Arr2 2 rows0)) in Et.
    inversion Et; subst. split; [|reflexivity].
    destruct g; simpl in *. now subst.
Qed.

Lemma copy_normalises_once_witness :
  exists g2 x,
    copy (with_times (Arr1 [fz 0; fz 10; fz 20]) gd_inner) = (Ok g2, []) /\
    column 0 (times g2) = Ok [fz 0; fz 10; fz 20] /\
    column 1 (times g2) = Ok [fz 10; fz 20; x] /\ feq x (fz 30) = true /\
    timerepair Float64 (Arr1 [fz 0; fz 10; fz 20]) = (Ok (times g2), []) /\
    copy g2 = (Ok g2, []).
Proof.
  eexists. eexists. split; [reflexivity|]. split; [reflexivity|].
  split; [reflexivity|]. split; [reflexivity|].
  pose proof (copy_normalises_once
                (with_times (Arr1 [fz 0; fz 10; fz 20]) gd_inner) _ [] eq_refl)
    as (Ht & _ & _ & Hcc & _).
  split; [exact Ht | exact Hcc].
Defined.

Lemma timeslice_with_loclist (g : GeoData) (rows : list (list fnum))
  (tl ll : list pynum) (lt : option string) :
  times g = Arr2 2 rows ->
  timeslice_loclist g tl lt = Ok (Some ll) ->
  timeslice g tl lt
  = liftR (idx <- as_indices ll ;;
           v <- take_py rows idx ;;
           d' <- timeslice_fields idx (keys (data g)) (data g) ;;
           Ok (with_data d' (with_times (Arr2 2 v) g)))%R.
Proof.
  intros Ht Hl. unfold timeslice. rewrite Hl, (copy_canonical g rows Ht).
  unfold bindW, liftR, retW. rewrite Ht. cbn [bindR].
  destruct (as_indices ll) as [idx|e]; cbn [bindR]; [|reflexivity].
  destruct (take_py rows idx) as [v|e]; cbn [bindR]; [|reflexivity].
  destruct (timeslice_fields idx (keys (data g)) (data g)); reflexivity.
Qed.

Lemma mapR_In {A B} (f : A -> result B) (l : list A) (ys : list B) (y : B) :
  mapR f l = Ok ys -> In y ys -> exists x, In x l /\ f x = Ok y.
Proof.
  revert ys. induction l as [|a l IH]; intros ys H Hin; simpl in H.
  - inversion H; subst. destruct Hin.
  - destruct (f a) as [b|] eqn:Ea; [|discriminate].
    destruct (mapR f l) as [bs|] eqn:El; [|discriminate].
    simpl in H. inversion H; subst. destruct Hin as [<-|Hin].
    + exists a. split; [now left | exact Ea].
    + destruct (IH bs eq_refl Hin) as (x & Hx & Hfx).
      exists x. split; [now right | exact Hfx].
Qed.

Lemma timeslice_field_axis (idx : list Z) (a v : ndarray) :
  timeslice_field idx a = Ok v -> time_axis_is (length idx) v.
Proof.
  destruct a as [xs|c rows|d1 d2 frames]; simpl; [discriminate| |].
  - destruct (mapR (fun r => take_py r idx) rows) as [v'|] eqn:E;
      [|discriminate].
    simpl. intros H; inversion H; subst. simpl. split; [reflexivity|].
    intros r Hr. destruct (mapR_In _ _ _ _ E Hr) as (x & _ & Hx).
    apply (mapR_length _ _ _ Hx).
  - destruct (take_py frames idx) as [v'|] eqn:E; [|discriminate].
    simpl. intros H; inversion H; subst. simpl. apply (mapR_length _ _ _ E).
Qed.

Lemma timeslice_fields_ok (idx : list Z) (ks : list string) :
  NoDup ks ->
  forall d d',
    timeslice_fields idx ks d = Ok d' ->
    (forall k, In k ks -> In k (keys d)) /\
    keys d' = keys d /\
    (forall k, ~ In k ks -> dict_get k d' = dict_get k d) /\
    (forall k, In k ks ->
               exists a v, dict_get k d = Some a /\
                           timeslice_field idx a = Ok v /\
                           dict_get k d' = Some v).
Proof.
  induction 1 as [|k ks Hnotin Hnd IH]; intros d d' Hrun; simpl in Hrun.
  - inversion Hrun; subst. repeat split; intros k []; contradiction.
  - unfold lookup in Hrun.
    destruct (dict_get k d) as [a|] eqn:Ea; [|discriminate].
    cbn [bindR] in Hrun.
    destruct (timeslice_field idx a) as [v|] eqn:Ev; [|discriminate].
    cbn [bindR] in Hrun.
    destruct (IH _ _ Hrun) as (Hdom & Hkeys & Hout & Hin).
    assert (Hk : In k (keys d)) by (apply dict_get_In; eauto).
    rewrite (keys_dict_set k v d Hk) in Hkeys, Hdom.
    assert (Hother : forall k', k' <> k ->
              dict_get k' (dict_set k v d) = dict_get k' d).
    { intros k' Hne. rewrite dict_get_set.
      destruct (String.eqb_spec k' k); [contradiction | reflexivity]. }
    split; [|split; [exact Hkeys | split]].
    + intros k' [<-|Hk']; [exact Hk | now apply Hdom].
    + intros k' Hk'. rewrite Hout by (intros ?; apply Hk'; now right).
      apply Hother. intros ->. apply Hk'. now left.
    + intros k' [<-|Hk'].
      * exists a, v. repeat split; try assumption.
        rewrite (Hout k Hnotin), dict_get_set. now rewrite String.eqb_refl.
      * destruct (Hin k' Hk') as (a' & v' & Ha' & Hv' & Hd').
        exists a', v'. repeat split; try assumption.
        rewrite <- Hother; [exact Ha'|]. intros ->. contradiction.
Qed.

Lemma as_indices_length (l : list pynum) (idx : list Z) :
  as_indices l = Ok idx -> length idx = length l.
Proof. apply mapR_length. Qed.

(** X24: a time slice keeps times and fields aligned.  When slicing by
    positions succeeds, the result has one time row per requested
    position, each of them a row of the original table, every field has
    exactly that many steps on its time axis, and names, locations, sensor
    and description are those of the original. *)
Theorem timeslice_aligned (g g2 : GeoData) (rows : list (list fnum))
  (tl : list pynum) (w : list warning)
  (Ht : times g = Arr2 2 rows)
  (Hnd : NoDup (keys (data g)))
  (Hrun : timeslice g tl None = (Ok g2, w)) :
  w = [] /\
  merge_frame g2 = merge_frame g /\
  (exists v, times g2 = Arr2 2 v /\ length v = length tl /\
             forall r, In r v -> In r rows) /\
  forall k a', dict_get k (data g2) = Some a' -> time_axis_is (length tl) a'.
Proof.
  rewrite (timeslice_with_loclist g rows tl tl None Ht eq_refl) in Hrun.
  unfold liftR in Hrun.
  destruct (as_indices tl) as [idx|] eqn:Ei; [|discriminate].
  cbn [bindR] in Hrun.
  destruct (take_py rows idx) as [v|] eqn:Ev; [|discriminate].
  cbn [bindR] in Hrun.
  destruct (timeslice_fields idx (keys (data g)) (data g)) as [d'|] eqn:Ed;
    [|discriminate].
  cbn [bindR] in Hrun. inversion Hrun; subst g2 w. clear Hrun.
  destruct (timeslice_fields_ok idx _ Hnd _ _ Ed) as (_ & Hkeys & _ & Hin).
  pose proof (as_indices_length _ _ Ei) as Hlen.
  split; [reflexivity|]. split; [|split].
  - unfold merge_frame. simpl. now rewrite Hkeys.
  - exists v. split; [reflexivity|]. split.
    + rewrite <- Hlen. apply (mapR_length _ _ _ Ev).
    + intros r Hr. destruct (mapR_In _ _ _ _ Ev Hr) as (z & _ & Hz).
      apply py_index_ok_inv in Hz. destruct Hz as (j & _ & Hj).
      eapply nth_error_In. exact Hj.
  - intros k a' Hk. simpl in Hk.
    assert (Hkin : In k (keys (data g))).
    { rewrite <- Hkeys. apply dict_get_In. eauto. }
    destruct (Hin k Hkin) as (a & v' & _ & Hv' & Hd).
    rewrite Hk in Hd. inversion Hd; subst v'.
    rewrite <- Hlen. eapply timeslice_field_axis. exact Hv'.
Qed.

Lemma timeslice_aligned_witness :
  exists g2,
    timeslice gd_inner [PInt 0; PInt (-1); PInt 0] None = (Ok g2, []) /\
    times g2 = Arr2 2 [[fz 5; fz 6]; [fz 5; fz 6]; [fz 5; fz 6]] /\
    forall k a', dict_get k (data g2) = Some a' -> time_axis_is 3 a'.
Proof.
  assert (Hnd : NoDup (keys (data gd_inner)))
    by (repeat constructor; simpl; tauto).
  eexists. split; [reflexivity|]. split; [reflexivity|].
  exact (proj2 (proj2 (proj2 (timeslice_aligned gd_inner _
           [[fz 5; fz 6]] [PInt 0; PInt (-1); PInt 0] [] eq_refl Hnd eq_refl)))).
Defined.

Lemma as_indices_ints (zs : list Z) : as_indices (map PInt zs) = Ok zs.
Proof.
  unfold as_indices. induction zs as [|z zs IH]; [reflexivity|].
  simpl. rewrite IH. reflexivity.
Qed.

Lemma py_index_cases {A} (l : list A) (z : Z) :
  py_index l z = Raise (IndexError "index out of bounds") \/
  exists x, py_index l z = Ok x.
Proof.
  unfold py_index. destruct (py_norm (length l) z) as [j|]; [|now left].
  destruct (nth_error l j); [right; eauto | now left].
Qed.

Lemma py_index_out_of_range {A} (l : list A) (z : Z) :
  ~ index_in_range (length l) z ->
  py_index l z = Raise (IndexError "index out of bounds").
Proof.
  intros Hout. unfold py_index, py_norm, index_in_range in *.
  destruct (z <? 0)%Z eqn:Ez.
  - apply Z.ltb_lt in Ez.
    replace (0 <=? Z.of_nat (length l) + z)%Z with false; [reflexivity|].
    symmetry. apply Z.leb_gt. lia.
  - apply Z.ltb_ge in Ez.
    replace (z <? Z.of_nat (length l))%Z with false;
      [now rewrite andb_false_r|].
    symmetry. apply Z.ltb_ge. lia.
Qed.

(** X25: slicing by positions checks its bounds.  If any requested
    position lies outside [-n, n) for a table of [n] times, the call raises
    IndexError and no dataset is returned, whatever the other positions
    are. *)
Theorem timeslice_out_of_range (g : GeoData) (rows : list (list fnum))
  (zs : list Z) (z : Z)
  (Ht : times g = Arr2 2 rows)
  (Hin : In z zs)
  (Hout : ~ index_in_range (length rows) z) :
  timeslice g (map PInt zs) None
  = (Raise (IndexError "index out of bounds"), []).
Proof.
  rewrite (timeslice_with_loclist g rows _ (map PInt zs) None Ht eq_refl).
  rewrite as_indices_ints. cbn [bindR]. unfold take_py.
  rewrite (mapR_raise (py_index rows) zs
             (IndexError "index out of bounds") z); [reflexivity | exact Hin | |].
  - now apply py_index_out_of_range.
  - intros y _. apply py_index_cases.
Qed.

Lemma timeslice_out_of_range_witness :
  timeslice gd_three (map PInt [0; 3]%Z) None
  = (Raise (IndexError "index out of bounds"), []).
Proof.
  apply (timeslice_out_of_range gd_three
           [[fz 0; fz 10]; [fz 10; fz 20]; [fz 20; fz 30]] [0; 3]%Z 3%Z).
  - reflexivity.
  - right. now left.
  - unfold index_in_range. simpl. lia.
Defined.

(** X26: a [listtype] other than 'Array' and 'Time' never yields a
    dataset: the positions are left unset, and the call fails once the
    copy has been made. *)
Theorem timeslice_unknown_listtype (g : GeoData) (tl : list pynum)
  (lt : string) (g2 : GeoData) (w : list warning)
  (Ha : lt <> "Array")
  (Hb : lt <> "Time") :
  timeslice g tl (Some lt) <> (Ok g2, w).
Proof.
  unfold timeslice, timeslice_loclist.
  destruct (String.eqb_spec lt "Array"); [contradiction|].
  destruct (String.eqb_spec lt "Time"); [contradiction|].
  unfold bindW, liftR, raiseW.
  destruct (copy g) as [[gc|e] wc]; discriminate.
Qed.

Lemma timeslice_unknown_listtype_witness :
  timeslice gd_inner [PInt 0] (Some "array") <> (Ok gd_inner, []).
Proof.
  apply (timeslice_unknown_listtype gd_inner [PInt 0] "array" gd_inner []);
    discriminate.
Defined.

Lemma py_index_in_range {A} (l : list A) (z : Z) :
  index_in_range (length l) z -> exists x, py_index l z = Ok x.
Proof.
  intros Hin. destruct (py_index_cases l z) as [Hr|Hok]; [|exact Hok].
  exfalso. unfold py_index, py_norm, index_in_range in *.
  destruct (z <? 0)%Z eqn:Ez.
  - apply Z.ltb_lt in Ez.
    replace (0 <=? Z.of_nat (length l) + z)%Z with true in Hr
      by (symmetry; apply Z.leb_le; lia).
    replace (Z.of_nat (length l) + z <? Z.of_nat (length l))%Z with true in Hr
      by (symmetry; apply Z.ltb_lt; lia).
    simpl in Hr.
    destruct (nth_error l (Z.to_nat (Z.of_nat (length l) + z))) eqn:E;
      [discriminate|]. apply nth_error_None in E. lia.
  - apply Z.ltb_ge in Ez.
    replace (0 <=? z)%Z with true in Hr by (symmetry; apply Z.leb_le; lia).
    replace (z <? Z.of_nat (length l))%Z with true in Hr
      by (symmetry; apply Z.ltb_lt; lia).
    simpl in Hr.
    destruct (nth_error l (Z.to_nat z)) eqn:E; [discriminate|].
    apply nth_error_None in E. lia.
Qed.

Lemma take_py_total {A} (l : list A) (idx : list Z) :
  Forall (index_in_range (length l)) idx -> exists v, take_py l idx = Ok v.
Proof.
  intros H. unfold take_py.
  destruct (mapR_total (py_index l) idx) as (ys & Hys & _).
  - intros z Hz. rewrite Forall_forall in H. apply py_index_in_range. auto.
  - eauto.
Qed.

Lemma timeslice_field_total (idx : list Z) (a : ndarray) (n : nat) :
  time_axis_is n a -> Forall (index_in_range n) idx ->
  exists v, timeslice_field idx a = Ok v.
Proof.
  intros Ha Hidx. destruct a as [xs|c rows|d1 d2 frames]; simpl in *.
  - destruct Ha.
  - destruct Ha as [-> Hrows].
    destruct (mapR_total (fun r => take_py r idx) rows) as (ys & Hys & _).
    + intros r Hr. apply take_py_total. now rewrite (Hrows r Hr).
    + rewrite Hys. simpl. eauto.
  - subst n. destruct (take_py_total frames idx Hidx) as [v Hv].
    rewrite Hv. simpl. eauto.
Qed.

Lemma timeslice_fields_total (idx : list Z) (n : nat) (ks : list string) :
  Forall (index_in_range n) idx ->
  NoDup ks ->
  forall d,
    (forall k, In k ks -> exists a, dict_get k d = Some a /\ time_axis_is n a) ->
    exists d', timeslice_fields idx ks d = Ok d'.
Proof.
  intros Hidx. induction 1 as [|k ks Hnotin Hnd IH]; intros d Hd; simpl.
  - eauto.
  - destruct (Hd k (or_introl eq_refl)) as (a & Ha & Hax).
    unfold lookup. rewrite Ha. cbn [bindR].
    destruct (timeslice_field_total idx a n Hax Hidx) as [v Hv].
    rewrite Hv. cbn [bindR]. apply IH.
    intros k' Hk'. destruct (Hd k' (or_intror Hk')) as (a' & Ha' & Hax').
    exists a'. split; [|exact Hax'].
    rewrite dict_get_set.
    destruct (String.eqb_spec k' k) as [->|]; [contradiction | exact Ha'].
Qed.

Lemma take_py_argwhere_from {A} (sel : A -> bool) (l pre : list A) :
  mapR (py_index (pre ++ l))
       (map Z.of_nat (argwhere_from (length pre) (map sel l)))
  = Ok (filter sel l).
Proof.
  revert pre. induction l as [|a l IH]; intros pre; [reflexivity|].
  assert (Hrest :
    mapR (py_index (pre ++ a :: l))
         (map Z.of_nat (argwhere_from (S (length pre)) (map sel l)))
    = Ok (filter sel l)).
  { specialize (IH (pre ++ [a])).
    rewrite <- app_assoc in IH. simpl in IH.
    rewrite length_app in IH. simpl in IH.
    now rewrite Nat.add_1_r in IH. }
  cbn [map argwhere_from filter]. destruct (sel a).
  - cbn [app map mapR]. rewrite (py_index_at _ _ (length pre) a).
    + rewrite nth_middle. cbn [bindR]. rewrite Hrest. reflexivity.
    + apply py_norm_nonneg. rewrite length_app. simpl. lia.
  - exact Hrest.
Qed.

Lemma take_py_argwhere {A} (sel : A -> bool) (l : list A) :
  take_py l (map Z.of_nat (argwhere (map sel l))) = Ok (filter sel l).
Proof. exact (take_py_argwhere_from sel l []). Qed.

Lemma timeslice_loclist_time (g : GeoData) (rows : list (list fnum))
  (tl : list pynum) :
  times g = Arr2 2 rows ->
  timeslice_loclist g tl (Some "Time")
  = Ok (Some (map PInt (map Z.of_nat
                          (argwhere (map (start_listed tl) rows))))).
Proof.
  intros Ht. unfold timeslice_loclist. rewrite Ht. simpl.
  unfold in1d. rewrite !map_map. reflexivity.
Qed.

(** X27: slicing by time cannot fail on a well-formed dataset and keeps
    the table order.  When every field has as many time steps as the table
    has rows, [timeslice] with listtype 'Time' returns, without a warning,
    a dataset whose times are the rows whose start is in the list, in
    their original order.  A listed time that starts no row is ignored,
    and so are the order and the repeats of the list. *)
Theorem timeslice_by_time (g : GeoData) (rows : list (list fnum))
  (tl : list pynum)
  (Ht : times g = Arr2 2 rows)
  (Hnd : NoDup (keys (data g)))
  (Hax : forall k a, dict_get k (data g) = Some a ->
                     time_axis_is (length rows) a) :
  exists g2,
    timeslice g tl (Some "Time") = (Ok g2, []) /\
    times g2 = Arr2 2 (filter (start_listed tl) rows).
Proof.
  rewrite (timeslice_with_loclist g rows tl _ _ Ht
             (timeslice_loclist_time g rows tl Ht)).
  rewrite as_indices_ints. cbn [bindR].
  rewrite take_py_argwhere. cbn [bindR].
  destruct (timeslice_fields_total
              (map Z.of_nat (argwhere (map (start_listed tl) rows)))
              (length rows) (keys (data g))) with (d := data g) as [d' Hd'].
  - apply Forall_forall. intros z Hz. apply in_map_iff in Hz.
    destruct Hz as (i & <- & Hi). apply argwhere_bound in Hi.
    unfold index_in_range. lia.
  - exact Hnd.
  - intros k Hk. apply dict_get_In in Hk. destruct Hk as [a Ha].
    exists a. split; [exact Ha | now apply (Hax k)].
  - rewrite Hd'. cbn [bindR]. unfold liftR. eexists.
    split; reflexivity.
Qed.

Lemma timeslice_by_time_witness :
  exists g2,
    timeslice gd_inner [PFloat (fz 99); PInt 5; PInt 5] (Some "Time")
    = (Ok g2, []) /\
    times g2 = Arr2 2 [[fz 5; fz 6]].
Proof.
  apply (timeslice_by_time gd_inner [[fz 5; fz 6]]
           [PFloat (fz 99); PInt 5; PInt 5]).
  - reflexivity.
  - repeat constructor; simpl; tauto.
  - intros k a Hk. simpl in Hk.
    destruct (String.eqb k "ne"); [|discriminate].
    inversion Hk; subst a. simpl. split; [reflexivity|].
    intros r [<-|[<-|[]]]; reflexivity.
Defined.

(* ------------------------------------------------------------------ *)
(** ** [interpolate] with a field name *)

Lemma mapW_silent {A B} (f : A -> W B) (l : list A) :
  (forall x, snd (f x) = []) -> snd (mapW f l) = [].
Proof.
  intros Hf. induction l as [|a l IH]; [reflexivity|].
  simpl. unfold bindW. specialize (Hf a).
  destruct (f a) as [[y|e] w1]; simpl in Hf; subst w1; [|reflexivity].
  destruct (mapW f l) as [[ys|e] w2]; simpl in IH; subst w2; reflexivity.
Qed.

Lemma interp_single_step_silent `{Externals} (arr cc nc' : ndarray)
  (m : string) (fill : fnum) (N : nat) (itime : nat) :
  snd (interp_single_step arr cc nc' m fill N itime) = [].
Proof.
  unfold interp_single_step, bindW, liftR.
  repeat match goal with
         | |- context [match ?x with Ok _ => _ | Raise _ => _ end] =>
             destruct x; simpl
         end; reflexivity.
Qed.

(** X28: with [ikey] the name of a field, [interpolate] only reads.
    Whatever the outcome, the dataset is as it was (fields, locations and
    coordinate name are not replaced) and nothing is logged; when the call
    succeeds it returns an array with one row per target location and one
    column per time. *)
Theorem interpolate_one_field_reads_only `{Externals}
  (nc : ndarray) (ncn m : string) (fill : fnum) (twod : bool)
  (bm : beammask_t) (k : string) (g g' : GeoData)
  (r : result (option ndarray)) (w : list warning)
  (Hk : In k (keys (data g)))
  (Hrun : interpolate nc ncn m fill twod (Some k) bm g = (r, g', w)) :
  g' = g /\ w = [] /\
  forall v, r = Ok v ->
            exists a, v = Some a /\ shape a = [shape0 nc; shape0 (times g)].
Proof.
  rewrite interpolate_run in Hrun.
  destruct (interp_prelude nc ncn m twod g) as [[[[cc nc']|e] s1] w1] eqn:Ep;
    [|inversion Hrun; subst; repeat split; discriminate].
  destruct (interp_prelude_inv _ _ _ _ _ _ _ _ Ep) as (_ & _ & Hshape).
  specialize (Hshape cc nc' eq_refl).
  apply mem_key_In in Hk. rewrite Hk in Hrun. cbn [negb] in Hrun.
  unfold single_path, bindM, getM, liftRM, liftM, retM, lookup in Hrun.
  destruct (dict_get k (data g)) as [arr|];
    [|inversion Hrun; subst; repeat split; discriminate].
  pose proof (mapW_silent
                (interp_single_step arr cc nc' m fill (shape0 nc'))
                (seq 0 (shape0 (times g)))
                (interp_single_step_silent arr cc nc' m fill (shape0 nc')))
    as Hsil.
  destruct (mapW _ (seq 0 (shape0 (times g)))) as [[cols|e] wm] eqn:Em;
    simpl in Hsil; subst wm; simpl in Hrun;
    inversion Hrun; subst; (split; [reflexivity|]); (split; [reflexivity|]);
    [|discriminate].
  intros v Hv. inversion Hv; subst v. eexists. split; [reflexivity|].
  unfold from_columns, shape. rewrite length_map, length_seq, Hshape.
  apply mapW_ok_inv in Em. destruct Em as [Hlen _].
  now rewrite Hlen, length_seq.
Qed.

Lemma interpolate_one_field_reads_only_witness :
  In "ne" (keys (data gd_inner)) /\
  exists a,
    @interpolate standin target3 "Cartesian" "nearest" (fz 99) false
                 (Some "ne") (MaskScalar true) gd_inner
    = (Ok (Some a), gd_inner, []) /\
    shape a = [3; 1].
Proof.
  assert (Hk : In "ne" (keys (data gd_inner))) by (now left).
  split; [exact Hk|].
  eexists. split; [reflexivity|].
  destruct (@interpolate_one_field_reads_only standin target3 "Cartesian"
              "nearest" (fz 99) false (MaskScalar true) "ne" gd_inner
              _ _ _ Hk eq_refl) as (_ & _ & Hv).
  destruct (Hv _ eq_refl) as (a & Ha & Hs).
  inversion Ha; subst a. exact Hs.
Defined.

(* ------------------------------------------------------------------ *)
(** ** [pathparts] *)

Lemma last_sep_cases (p : list ascii) :
  (forallb not_sep p = true /\ after_last_sep p = 0) \/
  (exists P c, p = P ++ sep :: c /\ forallb not_sep c = true /\
               after_last_sep p = S (length P)).
Proof.
  induction p as [|x p IH] using rev_ind; [left; split; reflexivity|].
  unfold after_last_sep in *. rewrite rev_app_distr. cbn [rev app drop_while].
  destruct (not_sep x) eqn:Ex.
  - destruct IH as [[Hall H0]|(P & c & -> & Hc & Hlen)].
    + left. split; [|exact H0].
      rewrite forallb_app, Hall. simpl. now rewrite Ex.
    + right. exists P, (c ++ [x]). split; [now rewrite <- app_assoc|].
      split; [|exact Hlen]. rewrite forallb_app, Hc. simpl. now rewrite Ex.
  - right. exists p, []. split.
    + f_equal. f_equal. unfold not_sep, is_sep in Ex.
      apply negb_false_iff, Ascii.eqb_eq in Ex. exact Ex.
    + split; [reflexivity|]. simpl. now rewrite length_rev.
Qed.

Lemma drop_while_length {A} (f : A -> bool) (l : list A) :
  length (drop_while f l) <= length l.
Proof.
  induction l as [|x l IH]; simpl; [lia|]. destruct (f x); simpl; lia.
Qed.

Lemma rstrip_sep_length (h : list ascii) : length (rstrip_sep h) <= length h.
Proof.
  unfold rstrip_sep. rewrite length_rev.
  etransitivity; [apply drop_while_length|]. now rewrite length_rev.
Qed.

Lemma posix_split_no_sep (p : list ascii) :
  forallb not_sep p = true -> posix_split p = ([], p).
Proof.
  intros H. destruct (last_sep_cases p) as [[_ H0]|(P & c & -> & _ & _)].
  - unfold posix_split. rewrite H0. reflexivity.
  - rewrite forallb_app in H. apply andb_prop in H. destruct H as [_ H].
    simpl in H. discriminate.
Qed.

Lemma after_last_sep_app (P c : list ascii) :
  forallb not_sep c = true -> after_last_sep (P ++ sep :: c) = S (length P).
Proof.
  intros Hc. unfold after_last_sep.
  rewrite rev_app_distr. cbn [rev]. rewrite <- app_assoc. cbn [app].
  assert (H : forall l r, forallb not_sep l = true ->
                          drop_while not_sep (l ++ sep :: r) = sep :: r).
  { induction l as [|x l IHl]; intros r Hl; [reflexivity|].
    simpl in Hl. apply andb_prop in Hl. destruct Hl as [Hx Hl].
    simpl. rewrite Hx. now apply IHl. }
  rewrite H.
  - simpl. now rewrite length_rev.
  - rewrite forallb_forall in *. intros x Hx. apply Hc. now apply in_rev.
Qed.

Lemma posix_split_app (P c : list ascii) :
  forallb not_sep c = true ->
  posix_split (P ++ sep :: c)
  = (if forallb is_sep P then P ++ [sep] else rstrip_sep (P ++ [sep]), c).
Proof.
  intros Hc. unfold posix_split. rewrite (after_last_sep_app P c Hc).
  replace (P ++ sep :: c) with ((P ++ [sep]) ++ c)
    by (now rewrite <- app_assoc).
  assert (Hl : S (length P) = length (P ++ [sep]))
    by (rewrite length_app; simpl; lia).
  rewrite Hl, firstn_app, Nat.sub_diag, firstn_all, skipn_app, Nat.sub_diag,
    skipn_all. cbn [firstn skipn app]. rewrite app_nil_r.
  rewrite <- Hl. cbn [Nat.eqb negb andb].
  rewrite forallb_app. cbn [forallb]. unfold is_sep at 2.
  rewrite Ascii.eqb_refl, !andb_true_r.
  destruct (forallb is_sep P); reflexivity.
Qed.

Lemma posix_split_shorter (p h t : list ascii) :
  posix_split p = (h, t) ->
  forallb not_sep t = true /\ (t <> [] -> length h < length p).
Proof.
  intros Hs. destruct (last_sep_cases p) as [[Hall _]|(P & c & -> & Hc & _)].
  - rewrite (posix_split_no_sep p Hall) in Hs. inversion Hs; subst.
    split; [exact Hall|]. intros Hne. destruct t; [contradiction | simpl; lia].
  - rewrite (posix_split_app P c Hc) in Hs. inversion Hs; subst. clear Hs.
    split; [exact Hc|]. intros Hne.
    assert (Hh : length (if forallb is_sep P then P ++ [sep]
                         else rstrip_sep (P ++ [sep])) <= S (length P)).
    { destruct (forallb is_sep P).
      - rewrite length_app. simpl. lia.
      - etransitivity; [apply rstrip_sep_length|].
        rewrite length_app. simpl. lia. }
    rewrite length_app. simpl.
    destruct t; [contradiction | simpl; lia].
Qed.

Lemma pathparts_loop_total (fuel : nat) :
  forall (p : list ascii) (acc : list (list ascii)),
    length p < fuel ->
    Forall component acc ->
    exists cs, pathparts_loop fuel p acc = Some cs /\ Forall component cs.
Proof.
  induction fuel as [|fuel IH]; intros p acc Hlt Hacc; [lia|].
  cbn [pathparts_loop]. destruct (posix_split p) as [h t] eqn:Es.
  destruct (posix_split_shorter _ _ _ Es) as [Ht Hlen].
  destruct t as [|x t].
  - exists (rev acc). split; [reflexivity|]. now apply Forall_rev.
  - apply IH.
    + assert (length h < length p) by (apply Hlen; discriminate). lia.
    + apply Forall_app. split; [exact Hacc|].
      constructor; [|constructor]. split; [discriminate | exact Ht].
Qed.

(** X29: [pathparts] returns for every path: the loop ends within
    [len(path) + 1] rounds.  No component of the result is empty or holds
    a separator; and a path that ends in a separator has no components at
    all, whatever stands before the separator. *)
Theorem pathparts_components (p : list ascii) :
  (exists cs, pathparts p = Some cs /\ Forall component cs) /\
  pathparts (p ++ [sep]) = Some [].
Proof.
  split.
  - apply pathparts_loop_total; [lia | constructor].
  - unfold pathparts. cbn [pathparts_loop].
    rewrite (posix_split_app p [] eq_refl). reflexivity.
Qed.

Lemma rstrip_after_name (p : list ascii) :
  ends_in_name p -> rstrip_sep (p ++ [sep]) = p /\ forallb is_sep p = false.
Proof.
  intros (q & x & -> & Hx). split.
  - unfold rstrip_sep. rewrite !rev_app_distr. cbn [rev app drop_while].
    unfold is_sep at 1. rewrite Ascii.eqb_refl. rewrite Hx.
    cbn [rev]. now rewrite rev_involutive.
  - rewrite forallb_app. simpl. rewrite Hx. now rewrite andb_false_r.
Qed.

Lemma component_ends (p c : list ascii) :
  component c -> ends_in_name (p ++ c).
Proof.
  intros [Hne Hall]. destruct (exists_last Hne) as (c' & x & ->).
  exists (p ++ c'), x. split; [now rewrite app_assoc|].
  rewrite forallb_app in Hall. apply andb_prop in Hall. destruct Hall as [_ Hx].
  simpl in Hx. unfold not_sep in Hx.
  destruct (is_sep x); [discriminate | reflexivity].
Qed.

Lemma abs_path_snoc (cs : list (list ascii)) (c : list ascii) :
  abs_path (cs ++ [c]) = abs_path cs ++ sep :: c.
Proof.
  unfold abs_path. rewrite map_app, concat_app. simpl. now rewrite app_nil_r.
Qed.

Lemma rel_path_snoc (cs : list (list ascii)) (c : list ascii) :
  cs <> [] -> rel_path (cs ++ [c]) = rel_path cs ++ sep :: c.
Proof.
  intros Hne. unfold rel_path. rewrite abs_path_snoc.
  destruct cs as [|c1 cs]; [contradiction|]. reflexivity.
Qed.

Lemma abs_path_ends (cs : list (list ascii)) :
  Forall component cs -> cs <> [] ->
  ends_in_name (abs_path cs) /\ ends_in_name (rel_path cs).
Proof.
  intros Hall Hne. destruct (exists_last Hne) as (cs' & c & ->).
  apply Forall_app in Hall. destruct Hall as [_ Hc].
  inversion Hc as [|? ? Hcomp _]; subst.
  rewrite abs_path_snoc. split.
  - replace (abs_path cs' ++ sep :: c) with ((abs_path cs' ++ [sep]) ++ c)
      by (now rewrite <- app_assoc).
    now apply component_ends.
  - destruct cs' as [|c1 cs'].
    + unfold rel_path. rewrite abs_path_snoc. simpl.
      now apply (component_ends []).
    + rewrite rel_path_snoc by discriminate.
      replace (rel_path (c1 :: cs') ++ sep :: c)
        with ((rel_path (c1 :: cs') ++ [sep]) ++ c)
        by (now rewrite <- app_assoc).
      now apply component_ends.
Qed.

Lemma pathparts_loop_step (p c : list ascii) (acc : list (list ascii))
  (fuel : nat) :
  component c -> ends_in_name p ->
  pathparts_loop (S fuel) (p ++ sep :: c) acc
  = pathparts_loop fuel p (acc ++ [c]).
Proof.
  intros [Hne Hall] Hp. cbn [pathparts_loop].
  rewrite (posix_split_app p c Hall).
  destruct (rstrip_after_name p Hp) as [-> ->].
  destruct c; [contradiction | reflexivity].
Qed.

Lemma pathparts_loop_abs (cs : list (list ascii)) :
  Forall component cs ->
  forall acc fuel,
    length (abs_path cs) < fuel ->
    pathparts_loop fuel (abs_path cs) acc = Some (cs ++ rev acc).
Proof.
  induction cs as [|c cs IH] using rev_ind; intros Hall acc fuel Hf.
  - destruct fuel; [simpl in Hf; lia | reflexivity].
  - apply Forall_app in Hall. destruct Hall as [Hcs Hc].
    inversion Hc as [|? ? Hcomp _]; subst.
    rewrite abs_path_snoc in *. rewrite length_app in Hf. simpl in Hf.
    destruct fuel as [|fuel]; [lia|].
    destruct cs as [|c1 cs].
    + cbn [abs_path map concat app pathparts_loop].
      pose proof (posix_split_app [] c (proj2 Hcomp)) as Hs.
      cbn [forallb app] in Hs. rewrite Hs.
      destruct Hcomp as [Hne _]. destruct c as [|x c]; [contradiction|].
      destruct fuel; [simpl in Hf; lia|].
      cbn. now rewrite rev_app_distr.
    + rewrite pathparts_loop_step;
        [|assumption | now apply abs_path_ends].
      rewrite IH by (try assumption; lia).
      now rewrite rev_app_distr, <- app_assoc.
Qed.

Lemma pathparts_loop_rel (cs : list (list ascii)) :
  Forall component cs ->
  forall acc fuel,
    length (rel_path cs) < fuel ->
    pathparts_loop fuel (rel_path cs) acc = Some (cs ++ rev acc).
Proof.
  induction cs as [|c cs IH] using rev_ind; intros Hall acc fuel Hf.
  - destruct fuel; [simpl in Hf; lia | reflexivity].
  - apply Forall_app in Hall. destruct Hall as [Hcs Hc].
    inversion Hc as [|? ? Hcomp _]; subst.
    destruct cs as [|c1 cs].
    + unfold rel_path in *. rewrite abs_path_snoc in *. cbn [abs_path map concat app tl] in *.
      destruct fuel as [|fuel]; [lia|].
      cbn [pathparts_loop]. rewrite (posix_split_no_sep c (proj2 Hcomp)).
      destruct Hcomp as [Hne _]. destruct c as [|x c]; [contradiction|].
      destruct fuel; [simpl in Hf; lia|].
      cbn. now rewrite rev_app_distr.
    + rewrite rel_path_snoc in * by discriminate.
      rewrite length_app in Hf. simpl in Hf.
      destruct fuel as [|fuel]; [lia|].
      rewrite pathparts_loop_step;
        [|assumption | now apply abs_path_ends].
      rewrite IH by (try assumption; lia).
      now rewrite rev_app_distr, <- app_assoc.
Qed.

(** X30: [pathparts] gives back the components a path was built from.
    For components that are not empty and hold no separator, the path
    [/c1/.../cn] and the same path without its leading separator both
    split into [c1, ..., cn], in that order. *)
Theorem pathparts_of_joined (cs : list (list ascii))
  (Hcs : Forall component cs) :
  pathparts (abs_path cs) = Some cs /\ pathparts (rel_path cs) = Some cs.
Proof.
  unfold pathparts. split.
  - rewrite (pathparts_loop_abs cs Hcs []) by lia. now rewrite app_nil_r.
  - rewrite (pathparts_loop_rel cs Hcs []) by lia. now rewrite app_nil_r.
Qed.

Lemma pathparts_of_joined_witness :
  pathparts (list_ascii_of_string "/data/ne")
  = Some [list_ascii_of_string "data"; list_ascii_of_string "ne"] /\
  pathparts (list_ascii_of_string "data/ne")
  = Some [list_ascii_of_string "data"; list_ascii_of_string "ne"].
Proof.
  apply (pathparts_of_joined
           [list_ascii_of_string "data"; list_ascii_of_string "ne"]).
  repeat constructor; discriminate.
Defined.
